(** * personal-site: the scramble engine, the router and page transitions

    A shallow embedding of [src/main.ts].

    - The DOM subtree an effect works on is a tree of elements.  A retained
      element ([real], [fake], [char]) is the path of child indices that
      leads to it; the effects never move or remove the spans they keep.
    - [setTimeout] puts a first-order task into a queue; the event loop
      takes any pending timer out and runs its callback.  [run_all] is the
      loop that always takes the timer due first.
    - The [transformCancelled] variable of a sweep call is a cell in a store
      shared by the timers of the call and the function the call returns.
    - [Math.random] reads a sequence of doubles in [0, 1); the product with
      the length of the glyph string is rounded as IEEE 754 does.
    - Delays are numbers of seconds, kept as exact rationals; no statement
      below depends on how a delay is rounded.
    - A [transform] callback is a function on the element it is handed.
    - The [async] method [App.navigate] is a coroutine that [transitionend]
      resumes; the event is an input that can come at any time.
    - [splitText] of animejs is not part of the repository.  What
      [scramblePrepare] does with its result is [prepare_split], for any
      result; [Anime.splitText] is a splitter as the spec describes it.
    - What the browser makes of an [href] handed to [pushState] is a
      parameter, [url]. *)

From Stdlib Require Import ZArith QArith Lia.
From stdpp Require Import base option list strings gmap.

Set Warnings "-register-all".
Local Open Scope Z_scope.

(** ** JavaScript values *)

Module Js.

(** A JavaScript string is a sequence of UTF-16 code units; [s[i]] and
    [s.length] count code units. *)
Definition char16 := N.
Definition jsstring := list char16.

(** The text that a template literal produces for [undefined]. *)
Definition undefined_text : jsstring :=
  [117; 110; 100; 101; 102; 105; 110; 101; 100]%N.

(** [Math.random()] returns a double in [0, 1).  Such a double is
    [mant * 2^-(53 + below)] with a 53-bit mantissa; [below = 1021] with a
    small mantissa gives the subnormals. *)
Definition in_unit (mant below : Z) : bool :=
  (0 <=? mant) && (mant <? 2 ^ 53) && (0 <=? below) && (below <=? 1021).

Record unit_double := UnitDouble {
  mant : Z;
  below : Z;
  unit_ok : in_unit mant below = true
}.

(** A finite non-negative double as mantissa and binary exponent. *)
Definition double := (Z * Z)%type.

(** Round to nearest, ties to even, to a 53-bit mantissa: the result
    [(m, s)] stands for [m * 2^s]. *)
Definition round53 (n : Z) : double :=
  let s := Z.log2 n + 1 - 53 in
  if s <=? 0 then (n, 0)
  else
    let q := Z.shiftr n s in
    let r := n mod 2 ^ s in
    let h := 2 ^ (s - 1) in
    if r <? h then (q, s)
    else if h <? r then (q + 1, s)
    else if Z.even q then (q, s) else (q + 1, s).

(** [Math.random() * len] for an integer [len] that is itself a double. *)
Definition times (d : unit_double) (len : Z) : double :=
  let '(m, s) := round53 (mant d * len) in
  (m, s - (53 + below d)).

(** [Math.floor] on a non-negative double. *)
Definition floor (x : double) : Z := Z.shiftl (fst x) (snd x).

End Js.

Import Js.

(** ** The DOM subtree under an animated element *)

Module Dom.

(** Values of the inline style properties the program writes: keywords and
    numbers given as text, and the one computed value,
    [`opacity ${seconds}s ease`]. *)
Inductive css :=
| Keyword (s : string)
| OpacityEase (seconds : Q).

Record attrs := Attrs {
  tagName : string;
  className : string;
  ariaHidden : bool;
  style : gmap string css
}.

(** An element with its child nodes; a child is a text node or an element. *)
Inductive HTMLElement :=
| El (a : attrs) (childNodes : list (jsstring + HTMLElement)).

Definition node := (jsstring + HTMLElement)%type.

Definition attrs_of (e : HTMLElement) : attrs := let 'El a _ := e in a.
Definition kids (e : HTMLElement) : list node := let 'El _ ks := e in ks.

(** [e.style[prop] = v] *)
Definition set_style (prop : string) (v : css) (e : HTMLElement) : HTMLElement :=
  let 'El a ks := e in
  El (Attrs (tagName a) (className a) (ariaHidden a) (<[prop := v]> (style a))) ks.

Definition get_style (prop : string) (e : HTMLElement) : option css :=
  style (attrs_of e) !! prop.

(** [e.textContent]: the text of all descendants, in document order. *)
Fixpoint textContent (e : HTMLElement) : jsstring :=
  match e with
  | El _ ks =>
      flat_map (fun n => match n with inl s => s | inr c => textContent c end) ks
  end.

(** [e.textContent = s]: the children are replaced by one text node, or by
    nothing when [s] is empty. *)
Definition set_textContent (s : jsstring) (e : HTMLElement) : HTMLElement :=
  let 'El a _ := e in
  El a (match s with [] => [] | _ => [inl s] end).

(** A retained element reference: the path of child indices from the
    animated element down to the element. *)
Definition ref := list nat.

Fixpoint get (p : ref) (e : HTMLElement) : option HTMLElement :=
  match p with
  | [] => Some e
  | i :: p' =>
      match kids e !! i with
      | Some (inr c) => get p' c
      | _ => None
      end
  end.

(** Mutation through a reference. *)
Fixpoint modify (f : HTMLElement -> HTMLElement) (p : ref) (e : HTMLElement)
  : HTMLElement :=
  match p with
  | [] => f e
  | i :: p' =>
      let 'El a ks := e in
      El a (alter (fun n => match n with
                            | inr c => inr (modify f p' c)
                            | inl s => inl s
                            end) i ks)
  end.

Definition has_class (cls : string) (e : HTMLElement) : bool :=
  String.eqb (className (attrs_of e)) cls.

Section Select.
Variable hit : HTMLElement -> bool.
Variable sub : HTMLElement -> list ref.

(** Document order over a child list whose first child has index [i]:
    an element comes before its descendants, and those before its next
    sibling. *)
Fixpoint select_in (ks : list node) (i : nat) : list ref :=
  match ks with
  | [] => []
  | inl _ :: rest => select_in rest (S i)
  | inr c :: rest =>
      (if hit c then [[i]] else []) ++ map (cons i) (sub c)
        ++ select_in rest (S i)
  end.
End Select.

(** [e.querySelectorAll("." + cls)]: the descendants of [e] with that
    class, in document order. *)
Fixpoint querySelectorAll (cls : string) (e : HTMLElement) : list ref :=
  match e with
  | El _ ks => select_in (has_class cls) (querySelectorAll cls) ks 0
  end.

(** [p.querySelectorAll] for a referenced element [p]. *)
Definition query_from (p : ref) (cls : string) (e : HTMLElement) : list ref :=
  match get p e with
  | Some c => map (app p) (querySelectorAll cls c)
  | None => []
  end.

(** [p.querySelector]: the first match, if any. *)
Definition query_first (p : ref) (cls : string) (e : HTMLElement) : option ref :=
  head (query_from p cls e).

(** [r.parentElement] for a descendant [r] of the animated element. *)
Definition parentElement (r : ref) : ref := removelast r.

(** [xs.forEach((x, i) => ...)] over a state. *)
Fixpoint forEach_from {A S : Type} (f : nat -> A -> S -> S) (i : nat)
  (xs : list A) (s : S) : S :=
  match xs with
  | [] => s
  | x :: rest => forEach_from f (Datatypes.S i) rest (f i x s)
  end.

Definition forEach {A S : Type} (f : nat -> A -> S -> S) (xs : list A) (s : S) : S :=
  forEach_from f 0 xs s.

End Dom.

Import Dom.

(** ** The text splitter of animejs *)

Module Anime.

(** The code units matched by [\s]. *)
Definition is_whitespace (c : char16) : bool :=
  bool_decide (c ∈ [9; 10; 11; 12; 13; 32; 160; 5760; 8192; 8193; 8194; 8195;
                    8196; 8197; 8198; 8199; 8200; 8201; 8202; 8232; 8233;
                    8239; 8287; 12288; 65279]%N).

Definition char_wrapper (c : char16) : HTMLElement :=
  El (Attrs "span" "" false ∅) [inl [c]].

(** The nodes that replace one text node, each with the flag "is a
    character wrapper"; a child element stays one node. *)
Definition split_node (n : node) : list (node * bool) :=
  match n with
  | inl s =>
      map (fun c => if is_whitespace c then (inl [c], false)
                    else (inr (char_wrapper c), true)) s
  | inr c => [(inr c, false)]
  end.

(** The child indices of the character wrappers among the nodes [ns], the
    first of which has index [i]. *)
Fixpoint wrapper_indices (i : nat) (ns : list (node * bool)) : list nat :=
  match ns with
  | [] => []
  | (_, true) :: rest => i :: wrapper_indices (S i) rest
  | (_, false) :: rest => wrapper_indices (S i) rest
  end.

Section SplitKids.
Variable split : HTMLElement -> HTMLElement * list ref.

(** The children [ks] split, the first new child getting the index
    [i]: the new children and the wrappers, in document order. *)
Fixpoint split_kids (ks : list node) (i : nat) : list node * list ref :=
  match ks with
  | [] => ([], [])
  | inl s :: rest =>
      let ns := split_node (inl s) in
      let '(ks', chars) := split_kids rest (i + length ns) in
      (map fst ns ++ ks', map (fun j => [j]) (wrapper_indices i ns) ++ chars)
  | inr c :: rest =>
      let '(c', inner) := split c in
      let '(ks', chars) := split_kids rest (S i) in
      (inr c' :: ks', map (cons i) inner ++ chars)
  end.
End SplitKids.

(** Modelled from the spec: [splitText(el, { chars: true })] of the animejs
    library, which is not part of the repository.  It breaks the text of
    the element into one wrapper per character and omits whitespace units;
    the model gives every code unit that is not whitespace a [span] of its
    own, in the child elements as in the element itself, leaves whitespace
    as text between the wrappers, and returns the wrappers
    ([splitter.chars]) in document order. *)
Fixpoint splitText (e : HTMLElement) : HTMLElement * list ref :=
  match e with
  | El a ks => let '(ks', chars) := split_kids splitText ks 0 in (El a ks', chars)
  end.

End Anime.

Import Anime.

(** ** The scramble effect *)

Module Scramble.

(** [SCRAMBLE_CHARS = "##·$%&/=€|()@+09*+]}{["], as code units. *)
Definition SCRAMBLE_CHARS : jsstring :=
  [35; 35; 183; 36; 37; 38; 47; 61; 8364; 124; 40; 41; 64; 43; 48; 57; 42;
   43; 93; 125; 123; 91]%N.

(** [SCRAMBLE_CHARS[Math.floor(Math.random() * SCRAMBLE_CHARS.length)]];
    an index past the end reads [undefined]. *)
Definition random_glyph (d : unit_double) : option char16 :=
  SCRAMBLE_CHARS !! Z.to_nat (floor (times d (Z.of_nat (length SCRAMBLE_CHARS)))).

(** The decoy as [scramblePrepare] interpolates it into markup. *)
Definition prepare_glyph (d : unit_double) : jsstring :=
  match random_glyph d with Some c => [c] | None => undefined_text end.

(** The decoy as [scrambleSweep] assigns it to [textContent]. *)
Definition sweep_glyph (d : unit_double) : jsstring :=
  match random_glyph d with Some c => [c] | None => [] end.

Record ScrambleOptions := Options {
  fakeCount : option nat;
  charStagger : option Q;
  fakeDuration : option Q;
  fakeStagger : option Q;
  revealDuration : option Q;
  startDelay : option Q
}.

Definition no_options : ScrambleOptions := Options None None None None None None.

(** A timer callback, with the variables its closure captures. *)
Inductive task :=
| ShowFake (fake : ref)
| HideFake (fake : ref)
| RevealReal (real : ref) (revealDuration : Q)
| SweepHideReal (real : ref) (newChar : option jsstring)
| SweepRestore (session : nat) (real : ref)
    (transform : HTMLElement -> HTMLElement).

(** One invocation of a [transform] callback, by the sweep call
    [session], on the element [target]. *)
Record call := Call { session : nat; target : ref }.

(** What the effect functions read and write: the animated element, the
    pending timers with the time they are due (in milliseconds, in
    registration order), one [transformCancelled] variable per sweep call,
    the doubles that [Math.random] is going to return with the number
    already drawn, the [transform] invocations so far, and the time. *)
Record world := World {
  el : HTMLElement;
  timers : list (Q * task);
  cancelled : list bool;
  entropy : nat -> unit_double;
  draws : nat;
  calls : list call;
  clock : Q
}.

Definition with_el (f : HTMLElement -> HTMLElement) (w : world) : world :=
  World (f (el w)) (timers w) (cancelled w) (entropy w) (draws w) (calls w)
    (clock w).

Definition with_timers (f : list (Q * task) -> list (Q * task)) (w : world)
  : world :=
  World (el w) (f (timers w)) (cancelled w) (entropy w) (draws w) (calls w)
    (clock w).

Definition with_cancelled (f : list bool -> list bool) (w : world) : world :=
  World (el w) (timers w) (f (cancelled w)) (entropy w) (draws w) (calls w)
    (clock w).

Definition with_calls (f : list call -> list call) (w : world) : world :=
  World (el w) (timers w) (cancelled w) (entropy w) (draws w) (f (calls w))
    (clock w).

Definition with_clock (t : Q) (w : world) : world :=
  World (el w) (timers w) (cancelled w) (entropy w) (draws w) (calls w) t.

(** [Math.random()] *)
Definition Math_random (w : world) : unit_double * world :=
  (entropy w (draws w),
   World (el w) (timers w) (cancelled w) (entropy w) (S (draws w)) (calls w)
     (clock w)).

(** [setTimeout(cb, ms)]: a negative delay counts as zero. *)
Definition setTimeout (cb : task) (ms : Q) (w : world) : world :=
  let delay := if Qle_bool 0 ms then ms else 0%Q in
  with_timers (fun ts => ts ++ [((clock w + delay)%Q, cb)]) w.

Definition real_span (original : list node) : HTMLElement :=
  El (Attrs "span" "scramble-real" false ∅) original.

Definition fake_span (glyph : jsstring) : HTMLElement :=
  El (Attrs "span" "scramble-fake" true
        (<["left" := Keyword "0"]>
           (<["position" := Keyword "absolute"]>
              (<["display" := Keyword "none"]> ∅))))
     [inl glyph].

(** One round of the inner loop of [scramblePrepare]:
    [insertAdjacentHTML("afterbegin", ...)] with a fresh decoy. *)
Definition insert_fake (char : ref) (w : world) : world :=
  let '(d, w) := Math_random w in
  with_el (modify (fun e => El (attrs_of e)
                              (inr (fake_span (prepare_glyph d)) :: kids e))
             char) w.

(** The body of the outer loop of [scramblePrepare].  [innerHTML] is read
    and written as the parsed child list. *)
Definition prepare_char (fakeCount : nat) (char : ref) (w : world) : world :=
  let w := with_el (modify (fun e => El (attrs_of e) [inr (real_span (kids e))])
                      char) w in
  let w := Nat.iter fakeCount (insert_fake char) w in
  with_el (modify (fun e => set_style "display" (Keyword "inline-block")
                              (set_style "position" (Keyword "relative") e))
             char) w.

(** The loop of [scramblePrepare] over what the splitter has returned:
    the element as the splitter left it and [splitter.chars]. *)
Definition prepare_split (fakeCount : nat) (split : HTMLElement * list ref)
  (w : world) : world :=
  foldl (fun w char => prepare_char fakeCount char w)
    (with_el (fun _ => fst split) w) (snd split).

(** [scramblePrepare(el, fakeCount)]; [fakeCount] is a count. *)
Definition scramblePrepare (fakeCount : nat) (w : world) : world :=
  let '(e, chars) := splitText (el w) in
  foldl (fun w char => prepare_char fakeCount char w) (with_el (fun _ => e) w)
    chars.

Definition of_nat (n : nat) : Q := inject_Z (Z.of_nat n).

(** The two timers of one fake span: shown at [fakeDelay], hidden
    [fakeDuration] later. *)
Definition flash_fake (fakeDelay fakeDuration : Q) (fake : ref) (w : world)
  : world :=
  let w := setTimeout (ShowFake fake) (fakeDelay * 1000)%Q w in
  setTimeout (HideFake fake) ((fakeDelay + fakeDuration) * 1000)%Q w.

(** [scrambleReveal(el, options)] *)
Definition scrambleReveal (options : ScrambleOptions) (w : world) : world :=
  let charStagger := default (5 # 100) (charStagger options) in
  let fakeDuration := default (16 # 100) (fakeDuration options) in
  let fakeStagger := default (16 # 1000) (fakeStagger options) in
  let revealDuration := default (3 # 10) (revealDuration options) in
  let startDelay := default 0%Q (startDelay options) in
  let chars := map parentElement (querySelectorAll "scramble-real" (el w)) in
  let w := with_el (set_style "opacity" (Keyword "1")) w in
  (* [char] is the parent of a real span, so [querySelector] finds one
     and the branches for [null] below are never taken *)
  let w :=
    forEach (fun _ char w =>
               match query_first char "scramble-real" (el w) with
               | Some real =>
                   with_el (modify (set_style "opacity" (Keyword "0")) real) w
               | None => w
               end) chars w in
  forEach (fun i char w =>
             match query_first char "scramble-real" (el w) with
             | Some real =>
                 let fakes := query_from char "scramble-fake" (el w) in
                 let baseDelay := (startDelay + of_nat i * charStagger)%Q in
                 let w :=
                   forEach (fun fi fake w =>
                              let fakeDelay :=
                                (baseDelay + (of_nat fi + 1) * fakeStagger)%Q in
                              flash_fake fakeDelay fakeDuration fake w)
                     fakes w in
                 setTimeout (RevealReal real revealDuration)
                   (baseDelay * 1000)%Q w
             | None => w
             end) chars w.

Definition is_cancelled (sid : nat) (w : world) : bool :=
  match cancelled w !! sid with Some b => b | None => false end.

(** [transform(e)], recorded. *)
Definition apply_transform (sid : nat) (transform : HTMLElement -> HTMLElement)
  (e : ref) (w : world) : world :=
  with_calls (fun cs => cs ++ [Call sid e]) (with_el (modify transform e) w).

(** The first [fakes.forEach] of [scrambleSweep]: a new decoy, then the
    transform. *)
Definition rerandomize (sid : nat) (transform : HTMLElement -> HTMLElement)
  (fake : ref) (w : world) : world :=
  let '(d, w) := Math_random w in
  let w := with_el (modify (set_textContent (sweep_glyph d)) fake) w in
  if is_cancelled sid w then w else apply_transform sid transform fake w.

(** The body of [reals.forEach] in [scrambleSweep] once [fakes] is known;
    the state carries [sweepIndex]. *)
Definition sweep_body (fakes : list ref) (options : ScrambleOptions)
  (newChars : option (list jsstring)) (transform : HTMLElement -> HTMLElement)
  (sid : nat) (i : nat) (real : ref) (s : world * nat) : world * nat :=
  let charStagger := default (5 # 100) (charStagger options) in
  let fakeDuration := default (12 # 100) (fakeDuration options) in
  let fakeStagger := default (16 # 1000) (fakeStagger options) in
  let startDelay := default 0%Q (startDelay options) in
  let '(w, sweepIndex) := s in
  let newChar := match newChars with Some cs => cs !! i | None => None end in
  let baseDelay := (startDelay + of_nat sweepIndex * charStagger)%Q in
  let w := foldl (fun w fake => rerandomize sid transform fake w) w fakes in
  let w := setTimeout (SweepHideReal real newChar) (baseDelay * 1000)%Q w in
  let w :=
    forEach (fun fi fake w =>
               let fakeDelay := (baseDelay + of_nat fi * fakeStagger)%Q in
               flash_fake fakeDelay fakeDuration fake w) fakes w in
  let restoreDelay :=
    (baseDelay + of_nat (length fakes) * fakeStagger + fakeDuration)%Q in
  let w := setTimeout (SweepRestore sid real transform)
             (restoreDelay * 1000)%Q w in
  (w, S sweepIndex).

(** The body of [reals.forEach] in [scrambleSweep]: [char] and [fakes] are
    looked up, the rest follows. *)
Definition sweep_cell (options : ScrambleOptions)
  (newChars : option (list jsstring)) (transform : HTMLElement -> HTMLElement)
  (sid : nat) (i : nat) (real : ref) (s : world * nat) : world * nat :=
  let char := parentElement real in
  let fakes := query_from char "scramble-fake" (el (fst s)) in
  sweep_body fakes options newChars transform sid i real s.

(** [scrambleSweep(el, options, newChars, transform)]: the new world and
    the sweep call's own [transformCancelled] variable, which is what the
    returned function closes over. *)
Definition scrambleSweep (options : ScrambleOptions)
  (newChars : option (list jsstring)) (transform : HTMLElement -> HTMLElement)
  (w : world) : world * nat :=
  let sid := length (cancelled w) in
  let w := with_cancelled (fun cs => cs ++ [false]) w in
  let reals := querySelectorAll "scramble-real" (el w) in
  (fst (forEach (sweep_cell options newChars transform sid) reals (w, 0%nat)),
   sid).

(** The function [scrambleSweep] returns: [transformCancelled = true]. *)
Definition cancel (sid : nat) (w : world) : world :=
  with_cancelled (fun cs => <[sid := true]> cs) w.

(** The default of the [transform] parameter, [(e) => { }]. *)
Definition no_transform (e : HTMLElement) : HTMLElement := e.

(** [scrambleGetChars(el)] *)
Definition scrambleGetChars (w : world) : list jsstring :=
  map (fun real => match get real (el w) with
                   | Some e => textContent e
                   | None => []
                   end)
    (querySelectorAll "scramble-real" (el w)).

(** The body of a timer callback. *)
Definition run_task (t : task) (w : world) : world :=
  match t with
  | ShowFake fake =>
      with_el (modify (fun e => set_style "opacity" (Keyword "1")
                                  (set_style "display" (Keyword "block") e))
                 fake) w
  | HideFake fake =>
      with_el (modify (set_style "display" (Keyword "none")) fake) w
  | RevealReal real revealDuration =>
      with_el (modify (fun e => set_style "opacity" (Keyword "1")
                                  (set_style "transition"
                                     (OpacityEase revealDuration) e))
                 real) w
  | SweepHideReal real newChar =>
      let w := with_el (modify (set_style "opacity" (Keyword "0")) real) w in
      match newChar with
      | Some c => with_el (modify (set_textContent c) real) w
      | None => w
      end
  | SweepRestore sid real transform =>
      let w := with_el (modify (set_style "opacity" (Keyword "1")) real) w in
      if is_cancelled sid w then w else apply_transform sid transform real w
  end.

(** The event loop runs the callback of the [i]-th pending timer. *)
Definition fire (i : nat) (w : world) : world :=
  match timers w !! i with
  | Some (due, t) =>
      let now := if Qle_bool (clock w) due then due else clock w in
      run_task t (with_clock now (with_timers (delete i) w))
  | None => w
  end.

(** Timers fired one after the other, each named by its place in the queue
    at that moment. *)
Definition fires (order : list nat) (w : world) : world :=
  foldl (fun w i => fire i w) w order.

(** The place of the timer that is due first; among equals, the one
    registered first. *)
Fixpoint earliest_from (i : nat) (best : nat * Q) (ts : list (Q * task))
  : nat :=
  match ts with
  | [] => fst best
  | (due, _) :: rest =>
      earliest_from (S i)
        (if Qle_bool (snd best) due then best else (i, due)) rest
  end.

Definition earliest (ts : list (Q * task)) : nat :=
  match ts with
  | [] => 0%nat
  | (due, _) :: rest => earliest_from 1 (0%nat, due) rest
  end.

(** The event loop until no timer is pending.  No callback of the effect
    registers a timer, so one round per pending timer is enough. *)
Definition run_all (w : world) : world :=
  Nat.iter (length (timers w)) (fun w => fire (earliest (timers w)) w) w.

End Scramble.

Import Scramble.

(** ** Pages, the router and the application *)

Module Nav.

Record Route := MkRoute { path : string; label : string; html : string }.

(** A [Page] keeps its markup; its container is always [contentEl]. *)
Record Page := MkPage { page_html : string }.

(** An [async navigate] call suspended at an [await]: the listener that a
    [Page.hide] or [Page.show] left on the container, with what the call
    does once the promise resolves.  [call] numbers the [navigate] calls. *)
Inductive listener :=
| AfterHide (call : nat) (route : option Route)
| AfterShow (call : nat) (page : Page).

(** The browser's session history around the current entry, the content
    container, [App.currentPage] and the number of [navigate] calls so
    far. *)
Record app := App {
  pathname : string;
  back : list string;
  forward : list string;
  innerHTML : string;
  opacity : option string;
  transition : option css;
  listeners : list listener;
  currentPage : option Page;
  started : nat
}.

(** [window.history.pushState(null, "", path)] once the browser has
    resolved [path] to the path [p] of an address of the same origin. *)
Definition pushState (p : string) (st : app) : app :=
  App p (pathname st :: back st) [] (innerHTML st) (opacity st)
    (transition st) (listeners st) (currentPage st) (started st).

(** [Router.resolve]: [routes.find((r) => r.path === path)] *)
Definition resolve (routes : list Route) (p : string) : option Route :=
  find (fun r => String.eqb (path r) p) routes.

(** [Router.push], for any [onNavigate].  [url base href] is what the
    browser makes of [href] in a document at the path [base]: the path of
    the address it resolves to, or nothing when that address is of another
    origin, in which case [pushState] throws and the listener ends. *)
Definition push (url : string -> string -> option string)
  (onNavigate : string -> app -> app) (p : string) (st : app) : app :=
  if String.eqb p (pathname st) then st
  else match url (pathname st) p with
       | Some stored => onNavigate p (pushState stored st)
       | None => st
       end.

(** [Page.hide] up to its [addEventListener]. *)
Definition hide (k : listener) (st : app) : app :=
  App (pathname st) (back st) (forward st) (innerHTML st) (Some "0"%string)
    (Some (OpacityEase (3 # 10))) (listeners st ++ [k]) (currentPage st)
    (started st).

(** [Page.create] and then [Page.show] up to its [addEventListener]. *)
Definition create_and_show (call : nat) (page : Page) (st : app) : app :=
  App (pathname st) (back st) (forward st) (page_html page) (Some "1"%string)
    (Some (OpacityEase (4 # 10))) (listeners st ++ [AfterShow call page])
    (currentPage st) (started st).

(** [navigate] from [new Page(...)] to [await page.show()].  Without a route
    ([routes[0]] of an empty table) reading [route.html] throws and the call
    ends. *)
Definition enter (call : nat) (route : option Route) (st : app) : app :=
  match route with
  | Some r => create_and_show call (MkPage (html r)) st
  | None => st
  end.

Section WithRoutes.
Variable routes : list Route.
Variable url : string -> string -> option string.

(** [this.router.resolve(path) ?? this.routes[0]] *)
Definition route_for (p : string) : option Route :=
  match resolve routes p with
  | Some r => Some r
  | None => routes !! 0%nat
  end.

(** [App.navigate] up to its first [await]. *)
Definition navigate (p : string) (st : app) : app :=
  let route := route_for p in
  let call := started st in
  let st := App (pathname st) (back st) (forward st) (innerHTML st)
              (opacity st) (transition st) (listeners st) (currentPage st)
              (S call)
  in
  match currentPage st with
  | Some _ => hide (AfterHide call route) st
  | None => enter call route st
  end.

(** A suspended call goes on when its promise resolves. *)
Definition resume (k : listener) (st : app) : app :=
  match k with
  | AfterHide call route => enter call route st
  | AfterShow call page =>
      App (pathname st) (back st) (forward st) (innerHTML st) (opacity st)
        (transition st) (listeners st) (Some page) (started st)
  end.

(** [transitionend] on the container: every listener is [once], so all
    of them run and are removed; the ones that the resumed calls add wait
    for the next event. *)
Definition transitionend (st : app) : app :=
  let waiting := listeners st in
  foldl (fun st k => resume k st)
    (App (pathname st) (back st) (forward st) (innerHTML st) (opacity st)
       (transition st) [] (currentPage st) (started st))
    waiting.

(** The [click] listener of the router; [anchor] is the [href] of the
    closest anchor, if there is an anchor and it has one. *)
Definition ends_with (suffix s : string) : bool :=
  String.eqb
    (String.substring (String.length s - String.length suffix)
       (String.length suffix) s) suffix
  && (String.length suffix <=? String.length s)%nat.

Definition click (anchor : option (option string)) (st : app) : app :=
  match anchor with
  | Some (Some href) =>
      if String.eqb href "" || String.prefix "http" href
         || String.prefix "#" href || ends_with ".pdf" href
      then st
      else push url navigate href st
  | _ => st
  end.

(** The browser moves one entry back and fires [popstate]. *)
Definition go_back (st : app) : app :=
  match back st with
  | p :: older =>
      navigate p
        (App p older (pathname st :: forward st) (innerHTML st) (opacity st)
           (transition st) (listeners st) (currentPage st) (started st))
  | [] => st
  end.

(** The browser moves one entry forward and fires [popstate]. *)
Definition go_forward (st : app) : app :=
  match forward st with
  | p :: newer =>
      navigate p
        (App p (pathname st :: back st) newer (innerHTML st) (opacity st)
           (transition st) (listeners st) (currentPage st) (started st))
  | [] => st
  end.

(** What can happen to the application once it is up. *)
Inductive input :=
| Click (anchor : option (option string))
| GoBack
| GoForward
| TransitionEnd.

Definition step (st : app) (i : input) : app :=
  match i with
  | Click anchor => click anchor st
  | GoBack => go_back st
  | GoForward => go_forward st
  | TransitionEnd => transitionend st
  end.

(** The state when the [App] constructor has called [navigate] for the
    address the document was loaded from. *)
Definition boot (p : string) : app :=
  navigate p (App p [] [] "" None None [] None 0).

Definition run (p : string) (inputs : list input) : app :=
  foldl step (boot p) inputs.
End WithRoutes.

(** [App.routes], over the three imported page fragments. *)
Definition app_routes (homeContent aboutContent workContent : string)
  : list Route :=
  [MkRoute "/" "HOME" homeContent;
   MkRoute "/about" "ABOUT" aboutContent;
   MkRoute "/work" "WORK" workContent].

End Nav.

(** ** The clock and the links of the navigation bar *)

Module Chrome.

(** The two halves of a surrogate pair. *)
Definition is_high (c : char16) : bool := (55296 <=? c)%N && (c <=? 56319)%N.
Definition is_low (c : char16) : bool := (56320 <=? c)%N && (c <=? 57343)%N.

(** [[...s]]: the string iterator yields code points, so a surrogate pair
    comes out as one string of two code units. *)
Fixpoint spread (s : jsstring) : list jsstring :=
  match s with
  | [] => []
  | c :: rest =>
      match rest with
      | d :: rest' =>
          if is_high c && is_low d then [c; d] :: spread rest'
          else [c] :: spread rest
      | [] => [[c]]
      end
  end.

(** [[...nextText].filter((c) => c !== " ")] *)
Definition next_chars (nextText : jsstring) : list jsstring :=
  List.filter (fun c => negb (bool_decide (c = [32%N]))) (spread nextText).

(** [nextChars.some((c, i) => c !== currentChars[i])], from index [i] on;
    past the end [currentChars[i]] is [undefined], which differs. *)
Fixpoint some_differs (i : nat) (nextChars currentChars : list jsstring)
  : bool :=
  match nextChars with
  | [] => false
  | c :: rest =>
      negb (bool_decide (currentChars !! i = Some c))
      || some_differs (S i) rest currentChars
  end.

(** The callback of the [setInterval] in [createDOM], for the string that
    [getESTDateTime] returns at that moment. *)
Definition clock_tick (nextText : jsstring) (w : world) : world :=
  let currentChars := scrambleGetChars w in
  let nextChars := next_chars nextText in
  let changed := some_differs 0 nextChars currentChars in
  if changed
  then fst (scrambleSweep no_options (Some nextChars) no_transform w)
  else w.

(** A link of the navigation bar: the world of its element and the
    variable [cancelSweep] of its two listeners. *)
Record link := Link { page : world; cancelSweep : option nat }.

(** [{ charStagger: 0.03, fakeDuration: 0.1 }] *)
Definition hover_options : ScrambleOptions :=
  Options None (Some (3 # 100)) (Some (1 # 10)) None None None.

(** [function (e) { e.style.color = "black" }] *)
Definition highlight (e : HTMLElement) : HTMLElement :=
  set_style "color" (Keyword "black") e.

(** The [mouseenter] listener. *)
Definition mouseenter (l : link) : link :=
  let '(w, sid) := scrambleSweep hover_options None highlight (page l) in
  Link w (Some sid).

(** The [mouseleave] listener. *)
Definition mouseleave (l : link) : link :=
  let w := match cancelSweep l with
           | Some sid => cancel sid (page l)
           | None => page l
           end in
  let els := querySelectorAll "scramble-real" (el w) in
  Link (foldl (fun w r =>
                 with_el (modify (set_style "color" (Keyword "#8A8A8A")) r) w)
          w els)
    (cancelSweep l).

(** Timers of the link's element fire between the mouse events. *)
Definition elapse (order : list nat) (l : link) : link :=
  Link (fires order (page l)) (cancelSweep l).

(** What happens to a link: the pointer enters it, the pointer leaves it,
    or timers of its element fire. *)
Inductive pointer := Enter | Leave | Wait (order : list nat).

Definition handle (l : link) (ev : pointer) : link :=
  match ev with
  | Enter => mouseenter l
  | Leave => mouseleave l
  | Wait order => elapse order l
  end.

End Chrome.
(** ** Notions used in the statements *)

Module Shape.

(** What [modify] does to the child it descends into. *)
Definition under (f : HTMLElement -> HTMLElement) (n : node) : node :=
  match n with inr c => inr (f c) | inl s => inl s end.

Definition REAL : string := "scramble-real".
Definition FAKE : string := "scramble-fake".

Definition is_text (n : node) : bool :=
  match n with inl _ => true | inr _ => false end.

(** A span of class [cls] that holds text only. *)
Definition is_span (cls : string) (n : node) : bool :=
  match n with
  | inr c => has_class cls c && forallb is_text (kids c)
  | inl _ => false
  end.

(** A character cell: [k] fake spans and then the one real span. *)
Definition is_cell (k : nat) (c : HTMLElement) : bool :=
  (length (kids c) =? S k)%nat
  && forallb (is_span FAKE) (take k (kids c))
  && forallb (is_span REAL) (drop k (kids c))
  && negb (has_class REAL c) && negb (has_class FAKE c).

(** An element the effect has nothing to do with. *)
Definition is_plain (c : HTMLElement) : bool :=
  negb (has_class REAL c) && negb (has_class FAKE c)
  && bool_decide (querySelectorAll REAL c = [])
  && bool_decide (querySelectorAll FAKE c = []).

(** An element as [scramblePrepare] leaves it: text, character cells and
    elements without scramble spans. *)
Definition prepared (k : nat) (e : HTMLElement) : bool :=
  forallb (fun n => match n with
                    | inl _ => true
                    | inr c => is_cell k c || is_plain c
                    end) (kids e).

(** The child indices of the character cells, from index [i] on. *)
Fixpoint cells_from (k i : nat) (ks : list node) : list nat :=
  match ks with
  | [] => []
  | inr c :: rest =>
      if is_cell k c then i :: cells_from k (S i) rest
      else cells_from k (S i) rest
  | inl _ :: rest => cells_from k (S i) rest
  end.

Definition cells (k : nat) (e : HTMLElement) : list nat :=
  cells_from k 0 (kids e).

(** The fake spans of the cell at child index [i]. *)
Definition cell_fakes (k i : nat) : list ref :=
  map (fun j => [i; j]) (seq 0 k).

(** The element a timer callback writes to. *)
Definition task_target (t : task) : ref :=
  match t with
  | ShowFake r | HideFake r | RevealReal r _ | SweepHideReal r _
  | SweepRestore _ r _ => r
  end.

(** The time a timer registered now with delay [ms] is due. *)
Definition due (w : world) (ms : Q) : Q :=
  (clock w + (if Qle_bool 0 ms then ms else 0))%Q.

(** The element after the first [fakes.forEach] of a sweep: every fake
    gets a decoy from the next draw and then the transform. *)
Fixpoint rerandomized (transform : HTMLElement -> HTMLElement)
  (ent : nat -> unit_double) (n : nat) (fakes : list ref) (e : HTMLElement)
  : HTMLElement :=
  match fakes with
  | [] => e
  | fake :: rest =>
      rerandomized transform ent (S n) rest
        (modify transform fake
           (modify (set_textContent (sweep_glyph (ent n))) fake e))
  end.

(** The show and hide timers of the fakes of one cell of a sweep, the
    first fake having index [fi]. *)
Fixpoint flash_timers (clk baseDelay fakeStagger fakeDuration : Q) (fi : nat)
  (fakes : list ref) : list (Q * task) :=
  match fakes with
  | [] => []
  | fake :: rest =>
      let fakeDelay := (baseDelay + of_nat fi * fakeStagger)%Q in
      (clk + (if Qle_bool 0 (fakeDelay * 1000) then fakeDelay * 1000 else 0),
       ShowFake fake)%Q
      :: (clk + (if Qle_bool 0 ((fakeDelay + fakeDuration) * 1000)
                 then (fakeDelay + fakeDuration) * 1000 else 0),
          HideFake fake)%Q
      :: flash_timers clk baseDelay fakeStagger fakeDuration (S fi) rest
  end.

(** [baseDelay] and [restoreDelay] of the [n]-th cell of a sweep. *)
Definition sweep_base (options : ScrambleOptions) (n : nat) : Q :=
  (default 0 (startDelay options)
   + of_nat n * default (5 # 100) (charStagger options))%Q.

Definition sweep_restore (options : ScrambleOptions) (n fakes : nat) : Q :=
  (sweep_base options n
   + of_nat fakes * default (16 # 1000) (fakeStagger options)
   + default (12 # 100) (fakeDuration options))%Q.

Definition new_char (newChars : option (list jsstring)) (i : nat)
  : option jsstring :=
  match newChars with Some cs => cs !! i | None => None end.

(** The timers one cell of a sweep registers, in registration order; [i]
    is the index of the cell and [n] the value of [sweepIndex]. *)
Definition cell_timers (clk : Q) (options : ScrambleOptions)
  (newChars : option (list jsstring)) (transform : HTMLElement -> HTMLElement)
  (sid i n : nat) (real : ref) (fakes : list ref) : list (Q * task) :=
  [((clk + (if Qle_bool 0 (sweep_base options n * 1000)
            then sweep_base options n * 1000 else 0))%Q,
    SweepHideReal real (new_char newChars i))]
  ++ flash_timers clk (sweep_base options n)
       (default (16 # 1000) (fakeStagger options))
       (default (12 # 100) (fakeDuration options)) 0 fakes
  ++ [((clk + (if Qle_bool 0 (sweep_restore options n (length fakes) * 1000)
               then sweep_restore options n (length fakes) * 1000 else 0))%Q,
       SweepRestore sid real transform)].

(** The timers of a whole sweep over the cells [ixs], the first being the
    [n]-th of the sweep. *)
Fixpoint session_timers (clk : Q) (options : ScrambleOptions)
  (newChars : option (list jsstring)) (transform : HTMLElement -> HTMLElement)
  (sid k n : nat) (ixs : list nat) : list (Q * task) :=
  match ixs with
  | [] => []
  | i :: rest =>
      cell_timers clk options newChars transform sid n n [i; k]
        (cell_fakes k i)
      ++ session_timers clk options newChars transform sid k (S n) rest
  end.

(** The element after the synchronous part of a sweep over the cells
    [ixs], [n] doubles having been drawn before. *)
Fixpoint swept (transform : HTMLElement -> HTMLElement)
  (ent : nat -> unit_double) (k n : nat) (ixs : list nat) (e : HTMLElement)
  : HTMLElement :=
  match ixs with
  | [] => e
  | i :: rest =>
      swept transform ent k (n + k) rest
        (rerandomized transform ent n (cell_fakes k i) e)
  end.

(** What a timer callback does to the element it writes to. *)
Definition task_effect (t : task) (w : world) (e : HTMLElement) : HTMLElement :=
  match t with
  | ShowFake _ =>
      set_style "opacity" (Keyword "1") (set_style "display" (Keyword "block") e)
  | HideFake _ => set_style "display" (Keyword "none") e
  | RevealReal _ d =>
      set_style "opacity" (Keyword "1")
        (set_style "transition" (OpacityEase d) e)
  | SweepHideReal _ newChar =>
      match newChar with
      | Some c => set_textContent c (set_style "opacity" (Keyword "0") e)
      | None => set_style "opacity" (Keyword "0") e
      end
  | SweepRestore s _ transform =>
      if is_cancelled s w
      then set_style "opacity" (Keyword "1") e
      else transform (set_style "opacity" (Keyword "1") e)
  end.

(** The [transform] invocations of a timer callback. *)
Definition task_calls (t : task) (w : world) : list call :=
  match t with
  | SweepRestore s r _ => if is_cancelled s w then [] else [Call s r]
  | _ => []
  end.

(** Pending timers as the effect leaves them: each writes to a span of a
    cell, and each restore timer belongs to a sweep call that has been
    made. *)
Definition settled (w : world) : bool :=
  forallb (fun dt =>
             (length (task_target (snd dt)) =? 2)%nat
             && match snd dt with
                | SweepRestore s _ _ => (s <? length (cancelled w))%nat
                | _ => true
                end) (timers w).

(** The timers a sweep call [sid] over the cells [ixs] can have pending. *)
Definition session_task (k : nat) (ixs : list nat)
  (newChars : option (list jsstring)) (transform : HTMLElement -> HTMLElement)
  (sid : nat) (t : task) : Prop :=
  match t with
  | SweepHideReal r c =>
      exists m ix, ixs !! m = Some ix /\ r = [ix; k] /\ c = new_char newChars m
  | ShowFake f | HideFake f =>
      exists ix j, ix ∈ ixs /\ (j < k)%nat /\ f = [ix; j]
  | SweepRestore s r tr =>
      s = sid /\ tr = transform /\ exists ix, ix ∈ ixs /\ r = [ix; k]
  | RevealReal _ _ => False
  end.

(** No timer is pending but those of the sweep call [sid]. *)
Definition only_session (k : nat) (ixs : list nat)
  (newChars : option (list jsstring)) (transform : HTMLElement -> HTMLElement)
  (sid : nat) (w : world) : Prop :=
  forall x, x ∈ timers w -> session_task k ixs newChars transform sid (snd x).

(** The restore timer of the cell at child index [ix] has not fired. *)
Definition restore_pending (k ix : nat) (w : world) : Prop :=
  exists t0 s tr, (t0, SweepRestore s [ix; k] tr) ∈ timers w.

(** How the spec reads the sweep: the transform reaches a fake span only
    once the restore timer of its cell has fired, *)
Definition fakes_wait_for_restore (sid k : nat) (w1 : world) : Prop :=
  forall order ix j,
    (j < k)%nat -> Call sid [ix; j] ∈ calls (fires order w1) ->
    ~ restore_pending k ix (fires order w1).

(** and not at all when the sweep was cancelled before that. *)
Definition cancel_spares_fakes (sid k : nat) (w1 : world) : Prop :=
  forall before after ix j,
    (j < k)%nat -> restore_pending k ix (fires before w1) ->
    Call sid [ix; j] ∉ calls (fires after (cancel sid (fires before w1))).

(** A character wrapper [c0] after [scramblePrepare] with [k] fakes, the
    first decoy coming from the [n]-th draw: the fake inserted last comes
    first. *)
Definition prepared_cell (k : nat) (ent : nat -> unit_double) (n : nat)
  (c0 : HTMLElement) : HTMLElement :=
  set_style "display" (Keyword "inline-block")
    (set_style "position" (Keyword "relative")
       (El (attrs_of c0)
          (map (fun j => inr (fake_span (prepare_glyph (ent (n + j)%nat))))
             (rev (seq 0 k))
           ++ [inr (real_span (kids c0))]))).

(** The children after [scramblePrepare], from the split nodes [ns]. *)
Fixpoint prepared_nodes (k : nat) (ent : nat -> unit_double) (n : nat)
  (ns : list (node * bool)) : list node :=
  match ns with
  | [] => []
  | (nd, false) :: rest => nd :: prepared_nodes k ent n rest
  | (inr c0, true) :: rest =>
      inr (prepared_cell k ent n c0) :: prepared_nodes k ent (n + k)%nat rest
  | (inl s, true) :: rest => inl s :: prepared_nodes k ent (n + k)%nat rest
  end.


(** The timers of [scrambleReveal]; their callbacks only restyle. *)
Definition cosmetic (t : task) : bool :=
  match t with
  | ShowFake _ | HideFake _ | RevealReal _ _ => true
  | SweepHideReal _ _ | SweepRestore _ _ _ => false
  end.

(** The text of the real span of a cell given as a child node. *)
Definition real_text_of (k : nat) (nd : option node) : jsstring :=
  match nd with
  | Some (inr c) =>
      match kids c !! k with
      | Some (inr r) => textContent r
      | _ => []
      end
  | _ => []
  end.

(** What the splitter makes of one code unit. *)
Definition split_char (c : char16) : node * bool :=
  if is_whitespace c then (inl [c], false) else (inr (char_wrapper c), true).


Definition text_at (r : ref) (w : world) : option jsstring :=
  textContent <$> get r (el w).

(** Where the text of the real span [r] of the [i]-th cell stands in the
    course of a sweep that started from [w]: the new character is in, or
    the old text is there and the hide timer is still pending. *)
Definition text_progress (newChars : option (list jsstring)) (i : nat)
  (r : ref) (w w' : world) : Prop :=
  match new_char newChars i with
  | None => text_at r w' = text_at r w
  | Some c =>
      text_at r w' = Some c
      \/ (text_at r w' = text_at r w
          /\ exists t0, (t0, SweepHideReal r (Some c)) ∈ timers w')
  end.

Definition style_at (r : ref) (prop : string) (w : world) : option css :=
  get r (el w) ≫= get_style prop.

End Shape.

Import Shape.

(** ** Concrete worlds *)

Module Sample.

(** A [Math.random] that keeps returning zero, and one that alternates
    between one half and the largest double below one. *)
Definition zero : unit_double := UnitDouble 0 0 eq_refl.
Definition half : unit_double := UnitDouble (2 ^ 52) 0 eq_refl.
Definition top : unit_double := UnitDouble (2 ^ 53 - 1) 0 eq_refl.

Definition zeros (n : nat) : unit_double := zero.
Definition mixed (n : nat) : unit_double := if Nat.even n then half else top.

(** A span with the text [t]. *)
Definition text_span (t : jsstring) : HTMLElement :=
  El (Attrs "span" "nav_location" false ∅) [inl t].

(** The world of an element that nothing has been done to. *)
Definition fresh (e : HTMLElement) (ent : nat -> unit_double) : world :=
  World e [] [] ent 0 [] 0%Q.

(** "HI" prepared with two fakes per cell, and "B O" likewise. *)
Definition hi : world := scramblePrepare 2 (fresh (text_span [72; 73]%N) zeros).
Definition b_o : world :=
  scramblePrepare 2 (fresh (text_span [66; 32; 79]%N) mixed).

(** The transform of the hover sweep, [e.style.color = "black"]. *)
Definition blacken : HTMLElement -> HTMLElement :=
  set_style "color" (Keyword "black").

(** A hover sweep over "HI", and a sweep that turns "HI" into "XY". *)
Definition hover : world * nat := scrambleSweep no_options None blacken hi.
Definition to_xy : world * nat :=
  scrambleSweep no_options (Some [[88]; [89]]%N) blacken hi.

(** "HI" prepared a second time. *)
Definition hi_twice : world := scramblePrepare 2 hi.


(** A browser for links that are paths already: the address of an
    [href] is the [href]. *)
Definition as_is (base href : string) : option string := Some href.

(** A browser that takes the query off an [href]. *)
Definition no_query (base href : string) : option string :=
  Some (match String.index 0 "?" href with
        | Some n => String.substring 0 n href
        | None => href
        end).

End Sample.

(** ** Notions about what a session keeps *)

Module Upkeep.

(** A function on elements that leaves the class and the children alone,
    as a callback that only styles does. *)
Definition gentle (f : HTMLElement -> HTMLElement) : Prop :=
  forall e, className (attrs_of (f e)) = className (attrs_of e)
            /\ kids (f e) = kids e.

(** A function that leaves a text-only span of a class such a span. *)
Definition keeps_spans (f : HTMLElement -> HTMLElement) : Prop :=
  forall cls s, is_span cls (inr s) = true -> is_span cls (inr (f s)) = true.

Definition cell_flag (k : nat) (n : node) : bool :=
  match n with inr c => is_cell k c | inl _ => false end.

(** The element is prepared and its cells are at the child indices [ixs]. *)
Definition upkept (k : nat) (ixs : list nat) (w : world) : Prop :=
  prepared k (el w) = true /\ cells k (el w) = ixs.

(** A timer callback that writes to a span of one of the cells [ixs], and
    whose transform, if it has one, keeps spans. *)
Definition cell_task (k : nat) (ixs : list nat) (t : task) : Prop :=
  (exists ix j, ix ∈ ixs /\ task_target t = [ix; j])
  /\ match t with
     | SweepRestore _ _ tr => keeps_spans tr
     | _ => True
     end.

(** The characters [current] with those of [newChars] written over them,
    index by index. *)
Definition overwrite (newChars : option (list jsstring))
  (current : list jsstring) : list jsstring :=
  imap (fun i c => default c (new_char newChars i)) current.

(** A code unit the clock text is made of: no first half of a surrogate
    pair, and no whitespace but the space. *)
Definition plain_unit (c : char16) : bool :=
  negb (Chrome.is_high c) && (negb (is_whitespace c) || (c =? 32)%N).

End Upkeep.

Import Upkeep.

(** ** Notions about what a splitter returns *)

Module Split.

(** Document order: an element comes before its descendants and before
    what follows it. *)
Fixpoint doc_ltb (p q : ref) : bool :=
  match p, q with
  | _, [] => false
  | [], _ :: _ => true
  | i :: p', j :: q' => (i <? j)%nat || ((i =? j)%nat && doc_ltb p' q')
  end.

(** The element at [q] is the element at [p] or lies inside it. *)
Fixpoint is_prefix (p q : ref) : bool :=
  match p, q with
  | [], _ => true
  | _ :: _, [] => false
  | i :: p', j :: q' => (i =? j)%nat && is_prefix p' q'
  end.

(** Neither element lies inside the other. *)
Definition apart (p q : ref) : bool :=
  negb (is_prefix p q) && negb (is_prefix q p).

Fixpoint in_order (chars : list ref) : bool :=
  match chars with
  | [] => true
  | p :: rest => forallb (doc_ltb p) rest && in_order rest
  end.

Fixpoint disjoint (chars : list ref) : bool :=
  match chars with
  | [] => true
  | p :: rest => forallb (apart p) rest && disjoint rest
  end.

(** What [scramblePrepare] relies on in the result of the splitter, the
    element as it left it and its list of wrappers: every wrapper is an
    element of the tree, none lies inside another, and the list is in
    document order. *)
Definition well_split (split : HTMLElement * list ref) : bool :=
  forallb (fun char => match get char (fst split) with
                       | Some _ => true
                       | None => false
                       end) (snd split)
  && disjoint (snd split) && in_order (snd split).


(** The element after the loop of [scramblePrepare] over the wrappers
    [chars], [n] doubles having been drawn before. *)
Fixpoint cells_made (k : nat) (ent : nat -> unit_double) (n : nat)
  (chars : list ref) (e : HTMLElement) : HTMLElement :=
  match chars with
  | [] => e
  | char :: rest =>
      cells_made k ent (n + k)%nat rest (modify (prepared_cell k ent n) char e)
  end.

End Split.

Import Split.

(** ** Notions about the hover effect of a link *)

Module Hover.

Import Chrome.

Definition GREY : css := Keyword "#8A8A8A".
Definition BLACK : css := Keyword "black".

(** [mouseenter] is sent to an element only when the pointer was outside:
    between two [Enter] there is a [Leave]. *)
Fixpoint no_reentry (inside : bool) (evs : list pointer) : bool :=
  match evs with
  | [] => true
  | Enter :: rest => negb inside && no_reentry true rest
  | Leave :: rest => no_reentry false rest
  | Wait _ :: rest => no_reentry inside rest
  end.

(** The timers hover sweeps over the cells [ixs] can have pending, the
    sweep calls so far being fewer than [bound]. *)
Definition hover_task (k : nat) (ixs : list nat) (bound : nat) (t : task)
  : Prop :=
  match t with
  | ShowFake f | HideFake f =>
      exists ix j, ix ∈ ixs /\ (j < k)%nat /\ f = [ix; j]
  | SweepHideReal r c => c = None /\ exists ix, ix ∈ ixs /\ r = [ix; k]
  | SweepRestore s r tr =>
      (s < bound)%nat /\ tr = highlight /\ exists ix, ix ∈ ixs /\ r = [ix; k]
  | RevealReal _ _ => False
  end.

(** Every pending restore timer belongs to a cancelled sweep call. *)
Definition tame (w : world) : Prop :=
  forall x s r tr,
    x ∈ timers w -> snd x = SweepRestore s r tr -> is_cancelled s w = true.

(** Every pending restore timer belongs to a cancelled sweep call or to
    the call that [cancelSweep] cancels. *)
Definition leashed (l : link) : Prop :=
  forall x s r tr,
    x ∈ timers (page l) -> snd x = SweepRestore s r tr ->
    is_cancelled s (page l) = true \/ cancelSweep l = Some s.

(** A link as hovering leaves it. *)
Definition hover_inv (k : nat) (ixs : list nat) (l : link) : Prop :=
  upkept k ixs (page l)
  /\ (forall x, x ∈ timers (page l) ->
        hover_task k ixs (length (cancelled (page l))) (snd x))
  /\ leashed l
  /\ forall s, cancelSweep l = Some s -> (s < length (cancelled (page l)))%nat.

(** The real spans have the colour [v]. *)
Definition reals_are (k : nat) (ixs : list nat) (v : css) (w : world) : Prop :=
  forall ix, ix ∈ ixs -> style_at [ix; k] "color" w = Some v.

(** The fake spans have the colour [v]. *)
Definition fakes_are (k : nat) (ixs : list nat) (v : css) (w : world) : Prop :=
  forall ix j, ix ∈ ixs -> (j < k)%nat -> style_at [ix; j] "color" w = Some v.

(** A function on elements that leaves the colour alone. *)
Definition keeps_color (f : HTMLElement -> HTMLElement) : Prop :=
  forall e, get_style "color" (f e) = get_style "color" e.

End Hover.

(** ** Notions about the order in which the event loop runs callbacks *)

Module Order.

(** The pending timers whose callback writes to the span [q], in
    registration order. *)
Definition aimed (q : ref) (ts : list (Q * task)) : list (Q * task) :=
  List.filter (fun dt => bool_decide (task_target (snd dt) = q)) ts.

(** Registered in the order in which they are due. *)
Fixpoint timely (l : list (Q * task)) : Prop :=
  match l with
  | [] => True
  | x :: rest => Forall (fun y => (fst x <= fst y)%Q) rest /\ timely rest
  end.

(** The callbacks of [l] run on an element, first to last. *)
Definition played (w : world) (l : list (Q * task)) (e : HTMLElement)
  : HTMLElement :=
  foldl (fun e dt => task_effect (snd dt) w e) e l.

(** A function on elements that leaves the property [prop] of the style
    alone. *)
Definition keeps_style (prop : string) (f : HTMLElement -> HTMLElement)
  : Prop :=
  forall e, get_style prop (f e) = get_style prop e.

(** The show and hide timers of the fakes of one cell of a reveal, the
    first fake having index [fi]. *)
Fixpoint reveal_flashes (clk baseDelay fakeStagger fakeDuration : Q)
  (fi : nat) (fakes : list ref) : list (Q * task) :=
  match fakes with
  | [] => []
  | fake :: rest =>
      let fakeDelay := (baseDelay + (of_nat fi + 1) * fakeStagger)%Q in
      (clk + (if Qle_bool 0 (fakeDelay * 1000) then fakeDelay * 1000 else 0),
       ShowFake fake)%Q
      :: (clk + (if Qle_bool 0 ((fakeDelay + fakeDuration) * 1000)
                 then (fakeDelay + fakeDuration) * 1000 else 0),
          HideFake fake)%Q
      :: reveal_flashes clk baseDelay fakeStagger fakeDuration (S fi) rest
  end.

(** The timers of a reveal over the cells [ixs], the first being the
    [n]-th of the reveal, in registration order. *)
Fixpoint reveal_timers (clk : Q) (options : ScrambleOptions) (k n : nat)
  (ixs : list nat) : list (Q * task) :=
  match ixs with
  | [] => []
  | ix :: rest =>
      reveal_flashes clk (sweep_base options n)
        (default (16 # 1000) (fakeStagger options))
        (default (16 # 100) (fakeDuration options)) 0 (cell_fakes k ix)
      ++ [((clk + (if Qle_bool 0 (sweep_base options n * 1000)
                   then sweep_base options n * 1000 else 0))%Q,
           RevealReal [ix; k] (default (3 # 10) (revealDuration options)))]
      ++ reveal_timers clk options k (S n) rest
  end.

(** The element after the synchronous part of a reveal: shown itself, the
    real spans of the cells [ixs] hidden. *)
Definition hidden (k : nat) (ixs : list nat) (e : HTMLElement) : HTMLElement :=
  foldl (fun e ix => modify (set_style "opacity" (Keyword "0")) [ix; k] e)
    (set_style "opacity" (Keyword "1") e) ixs.

(** The transform invocations the pending timers are going to make. *)
Definition pending_calls (w : world) : list call :=
  flat_map (fun dt => task_calls (snd dt) w) (timers w).

End Order.

(** ** Notions about the application coming to rest *)

Module Settle.

Import Nav.

(** The markup a suspended [navigate] call is going to leave in the
    container, or has left there. *)
Definition dest (k : listener) : string :=
  match k with
  | AfterHide _ (Some r) => html r
  | AfterHide _ None => ""
  | AfterShow _ pg => page_html pg
  end.

Definition is_show (k : listener) : bool :=
  match k with AfterShow _ _ => true | AfterHide _ _ => false end.

(** The markup of the page for the address the browser is at. *)
Definition target (routes : list Route) (st : app) : string :=
  match route_for routes (pathname st) with
  | Some r => html r
  | None => ""
  end.

(** The listeners on the container: calls waiting for their page to have
    faded in, then calls waiting for the old page to have faded out, and
    without a current page no call waits for a fade-out. *)
Definition queue (st : app) (shows hides : list listener) : Prop :=
  listeners st = shows ++ hides
  /\ Forall (fun k => is_show k = true) shows
  /\ Forall (fun k => exists call r, k = AfterHide call (Some r)) hides
  /\ (currentPage st = None -> hides = []).

(** While no call waits for a fade-out the container has opacity 1 and
    shows the markup of the last call. *)
Definition shape (st : app) : Prop :=
  exists shows hides,
    queue st shows hides
    /\ (hides = [] ->
        opacity st = Some "1"%string
        /\ forall k, last shows = Some k -> innerHTML st = dest k).

(** The last call is for the address the browser is at; when no call is
    suspended the container shows the page of that address. *)
Definition aim (routes : list Route) (st : app) : Prop :=
  match last (listeners st) with
  | Some k => dest k = target routes st
  | None =>
      innerHTML st = target routes st
      /\ currentPage st = Some (MkPage (target routes st))
  end.

(** The markup in the container is that of a route of the table, the
    calls waiting for a fade-out are for routes of the table, and while
    one waits the container is faded out. *)
Definition grounded (routes : list Route) (st : app) : Prop :=
  (exists r, r ∈ routes /\ innerHTML st = html r)
  /\ (forall call r, AfterHide call (Some r) ∈ listeners st -> r ∈ routes)
  /\ ((exists call route, AfterHide call route ∈ listeners st) ->
      opacity st = Some "0"%string).

(** A click on a link whose [href] the browser keeps as the path of the
    new address, as it does for the paths of the route table. *)
Definition stored_as_is (url : string -> string -> option string)
  (i : input) : Prop :=
  match i with
  | Click (Some (Some href)) => forall base, url base href = Some href
  | _ => True
  end.

(** How the spec reads [navigate]: one call at a time, so that no more
    than one is ever suspended, *)
Definition serialized (routes : list Route)
  (url : string -> string -> option string) (p : string) : Prop :=
  forall inputs, (length (listeners (run routes url p inputs)) <= 1)%nat.

(** and the markup in the container is replaced only when the container
    has faded out. *)
Definition hides_before_injecting (routes : list Route)
  (url : string -> string -> option string) (p : string) : Prop :=
  forall inputs i,
    let st := run routes url p inputs in
    innerHTML (step routes url st i) <> innerHTML st ->
    opacity st = Some "0"%string.

End Settle.
(** * Properties *)

(** ** The decoy index stays inside the glyph set *)

Lemma round53_bound (n : Z) :
  0 <= n <= 22 * (2 ^ 53 - 1) ->
  0 <= snd (round53 n) <= 5 /\ 0 <= fst (round53 n)
  /\ fst (round53 n) * 2 ^ snd (round53 n) < 22 * 2 ^ 53.
Proof.
  intros Hn. unfold round53.
  assert (Hlog : Z.log2 n < 58).
  { destruct (Z.eq_dec n 0) as [-> | Hne]; [reflexivity|].
    apply Z.log2_lt_pow2; lia. }
  pose proof (Z.log2_nonneg n) as Hlog0.
  remember (Z.log2 n + 1 - 53) as s eqn:Hs.
  destruct (Z.leb_spec s 0) as [Hle|Hgt]; cbn [fst snd].
  { rewrite Z.mul_1_r. lia. }
  rewrite Z.shiftr_div_pow2 by lia.
  assert (Hcases : s = 1 \/ s = 2 \/ s = 3 \/ s = 4 \/ s = 5) by lia.
  clear Hs Hlog Hlog0 Hgt.
  destruct Hcases as [-> | [-> | [-> | [-> | ->] ] ] ];
    match goal with
    | |- context [n / 2 ^ ?k] =>
        let p := eval vm_compute in (2 ^ k) in
        let h := eval vm_compute in (2 ^ (k - 1)) in
        change (2 ^ k) with p; change (2 ^ (k - 1)) with h;
        pose proof (Z.div_mod n p ltac:(lia));
        pose proof (Z.mod_pos_bound n p ltac:(lia))
    end;
    repeat match goal with
           | |- context [if ?a <? ?b then _ else _] => destruct (Z.ltb_spec a b)
           | |- context [if Z.even ?a then _ else _] => destruct (Z.even a)
           end; cbn [fst snd];
    match goal with
    | |- context [_ * 2 ^ ?k] =>
        let p := eval vm_compute in (2 ^ k) in change (2 ^ k) with p
    end; lia.
Qed.

Lemma floor_times_range (d : unit_double) : 0 <= floor (times d 22) < 22.
Proof.
  destruct d as [m b Hok']. pose proof Hok' as Hok. unfold in_unit in Hok.
  apply andb_prop in Hok as [Hok Hb2]. apply andb_prop in Hok as [Hok Hb1].
  apply andb_prop in Hok as [Hm1 Hm2].
  apply Z.leb_le in Hm1, Hb1, Hb2. apply Z.ltb_lt in Hm2.
  unfold times, floor. cbn [mant below].
  pose proof (round53_bound (m * 22) ltac:(lia)) as (Hs & Hq & Hlt).
  destruct (round53 (m * 22)) as [q s]. cbn [fst snd] in *.
  rewrite Z.shiftl_div_pow2 by lia.
  replace (- (s - (53 + b))) with (53 + b - s) by lia.
  assert (Hpow : 2 ^ (53 + b) = 2 ^ (53 + b - s) * 2 ^ s).
  { rewrite <- Z.pow_add_r by lia. f_equal. lia. }
  assert (H53 : 2 ^ 53 <= 2 ^ (53 + b)) by (apply Z.pow_le_mono_r; lia).
  assert (Hp : 0 < 2 ^ (53 + b - s)) by (apply Z.pow_pos_nonneg; lia).
  assert (Hps : 0 < 2 ^ s) by (apply Z.pow_pos_nonneg; lia).
  split.
  - apply Z.div_pos; lia.
  - apply Z.div_lt_upper_bound; [lia|]. nia.
Qed.

Lemma random_glyph_some (d : unit_double) :
  exists c, random_glyph d = Some c /\ c ∈ SCRAMBLE_CHARS.
Proof.
  unfold random_glyph.
  pose proof (floor_times_range d) as Hr.
  change (Z.of_nat (length SCRAMBLE_CHARS)) with 22.
  destruct (lookup_lt_is_Some_2 SCRAMBLE_CHARS (Z.to_nat (floor (times d 22))))
    as [c Hc].
  { change (length SCRAMBLE_CHARS) with 22%nat. lia. }
  exists c. split; [exact Hc|]. apply list_elem_of_lookup. eauto.
Qed.

Local Open Scope nat_scope.

(** ** References into the tree *)

Section DomFacts.

Implicit Types (e c : HTMLElement) (p q : ref) (f g : HTMLElement -> HTMLElement).

Lemma modify_cons f i p e :
  modify f (i :: p) e = El (attrs_of e) (alter (under (modify f p)) i (kids e)).
Proof. destruct e; reflexivity. Qed.

Lemma kids_modify_ne f i p e j :
  i <> j -> kids (modify f (i :: p) e) !! j = kids e !! j.
Proof. intros Hij. rewrite modify_cons. cbn. by apply list_lookup_alter_ne. Qed.

Lemma kids_modify_eq f i p e :
  kids (modify f (i :: p) e) !! i = under (modify f p) <$> kids e !! i.
Proof. rewrite modify_cons. cbn. apply list_lookup_alter_eq. Qed.

Lemma length_kids_modify f i p e :
  length (kids (modify f (i :: p) e)) = length (kids e).
Proof. rewrite modify_cons. cbn. apply length_alter. Qed.

Lemma attrs_modify_cons f i p e : attrs_of (modify f (i :: p) e) = attrs_of e.
Proof. by rewrite modify_cons. Qed.

Lemma get_modify_same f p e : get p (modify f p e) = f <$> get p e.
Proof.
  revert e. induction p as [|i p IH]; intros e; [reflexivity|].
  cbn [get]. rewrite kids_modify_eq.
  destruct (kids e !! i) as [[s|c]|]; cbn; [reflexivity| apply IH |reflexivity].
Qed.

Lemma get_modify_level f p q e :
  length p = length q -> p <> q -> get q (modify f p e) = get q e.
Proof.
  revert q e. induction p as [|i p IH]; intros [|j q] e Hlen Hne;
    try discriminate; [congruence|].
  cbn [get]. destruct (decide (i = j)) as [->|Hij].
  - rewrite kids_modify_eq.
    destruct (kids e !! j) as [[s|c]|]; cbn; try reflexivity.
    apply IH; [by injection Hlen | congruence].
  - by rewrite kids_modify_ne.
Qed.

Lemma get_is_Some_modify_level f p q e :
  length p = length q -> is_Some (get q e) -> is_Some (get q (modify f p e)).
Proof.
  intros Hlen Hq. destruct (decide (p = q)) as [->|Hne].
  - rewrite get_modify_same. by apply fmap_is_Some.
  - by rewrite get_modify_level.
Qed.

End DomFacts.

(** ** Selecting by class in a prepared element *)

Section SelectFacts.

Implicit Types (e c : HTMLElement) (ks : list node).

Lemma select_in_app hit sub ks1 ks2 i :
  select_in hit sub (ks1 ++ ks2) i
  = select_in hit sub ks1 i ++ select_in hit sub ks2 (i + length ks1).
Proof.
  revert i. induction ks1 as [|[s|c] ks1 IH]; intros i; cbn.
  - by rewrite Nat.add_0_r.
  - rewrite IH. do 2 f_equal. lia.
  - rewrite IH, <- !app_assoc. do 4 f_equal. lia.
Qed.

Lemma querySelectorAll_kids cls e :
  querySelectorAll cls e
  = select_in (has_class cls) (querySelectorAll cls) (kids e) 0.
Proof. by destruct e. Qed.

Lemma querySelectorAll_text_only cls e :
  forallb is_text (kids e) = true -> querySelectorAll cls e = [].
Proof.
  rewrite querySelectorAll_kids. generalize 0%nat.
  induction (kids e) as [|[s|c] ks IH]; intros i H; cbn in *;
    [reflexivity | by apply IH | discriminate].
Qed.

Lemma has_class_inj cls cls' e :
  has_class cls e = true -> has_class cls' e = String.eqb cls cls'.
Proof. unfold has_class. intros H%String.eqb_eq. by rewrite H. Qed.

(** Spans of one class, text only: either all of them match or none. *)
Lemma select_in_spans cls cls' ks i :
  forallb (is_span cls') ks = true ->
  select_in (has_class cls) (querySelectorAll cls) ks i
  = if String.eqb cls' cls then map (fun j => [j]) (seq i (length ks)) else [].
Proof.
  revert i. induction ks as [|[s|c] ks IH]; intros i H; cbn in *.
  - by destruct (String.eqb cls' cls).
  - discriminate.
  - apply andb_prop in H as [[Hc Ht]%andb_prop Hks].
    rewrite (querySelectorAll_text_only _ _ Ht), (has_class_inj _ _ _ Hc),
      (IH _ Hks).
    by destruct (String.eqb cls' cls).
Qed.

Lemma is_cell_kids k c :
  is_cell k c = true ->
  length (kids c) = S k
  /\ forallb (is_span FAKE) (take k (kids c)) = true
  /\ forallb (is_span REAL) (drop k (kids c)) = true
  /\ has_class REAL c = false /\ has_class FAKE c = false.
Proof.
  unfold is_cell. intros H.
  repeat match type of H with
         | _ && _ = true => apply andb_prop in H as [H ?]
         end.
  apply Nat.eqb_eq in H. by repeat split; try apply negb_true_iff.
Qed.

Lemma cell_select k c cls :
  is_cell k c = true ->
  querySelectorAll cls c
  = (if String.eqb FAKE cls then map (fun j => [j]) (seq 0 k) else [])
    ++ (if String.eqb REAL cls then [[k]] else []).
Proof.
  intros (Hlen & Hf & Hr & _)%is_cell_kids.
  rewrite querySelectorAll_kids, <- (take_drop k (kids c)), select_in_app.
  rewrite (select_in_spans _ _ _ _ Hf), (select_in_spans _ _ _ _ Hr).
  rewrite length_take, length_drop, Hlen.
  replace (k `min` S k)%nat with k by lia.
  replace (S k - k)%nat with 1%nat by lia. reflexivity.
Qed.

Lemma cell_reals k c : is_cell k c = true -> querySelectorAll REAL c = [[k]].
Proof. intros H. by rewrite (cell_select _ _ _ H). Qed.

Lemma cell_fake_refs k c :
  is_cell k c = true ->
  querySelectorAll FAKE c = map (fun j => [j]) (seq 0 k).
Proof. intros H. rewrite (cell_select _ _ _ H). cbn. by rewrite app_nil_r. Qed.

Lemma is_plain_select c :
  is_plain c = true ->
  has_class REAL c = false /\ has_class FAKE c = false
  /\ querySelectorAll REAL c = [] /\ querySelectorAll FAKE c = [].
Proof.
  unfold is_plain. intros H.
  repeat match type of H with
         | _ && _ = true => apply andb_prop in H as [H ?]
         end.
  repeat match goal with
         | H : bool_decide _ = true |- _ => apply bool_decide_eq_true in H
         end.
  by repeat split; try apply negb_true_iff.
Qed.

Lemma prepared_reals_from k ks i :
  forallb (fun n => match n with
                    | inl _ => true
                    | inr c => is_cell k c || is_plain c
                    end) ks = true ->
  select_in (has_class REAL) (querySelectorAll REAL) ks i
  = map (fun j => [j; k]) (cells_from k i ks).
Proof.
  revert i. induction ks as [|[s|c] ks IH]; intros i H; cbn in *.
  - reflexivity.
  - by apply IH.
  - apply andb_prop in H as [Hc Hks]. rewrite (IH _ Hks).
    destruct (is_cell k c) eqn:Hcell.
    + destruct (is_cell_kids _ _ Hcell) as (_ & _ & _ & -> & _).
      by rewrite (cell_reals _ _ Hcell).
    + cbn in Hc. destruct (is_plain_select _ Hc) as (-> & _ & -> & _).
      reflexivity.
Qed.

(** The real spans of a prepared element, in document order. *)
Lemma prepared_reals k e :
  prepared k e = true ->
  querySelectorAll REAL e = map (fun i => [i; k]) (cells k e).
Proof. intros H. rewrite querySelectorAll_kids. by apply prepared_reals_from. Qed.

Lemma cells_from_spec k i ks j :
  j ∈ cells_from k i ks
  <-> (i <= j)%nat
      /\ exists c, ks !! (j - i)%nat = Some (inr c) /\ is_cell k c = true.
Proof.
  revert i. induction ks as [|n ks IH]; intros i.
  - cbn. split; [by intros ?%elem_of_nil | by intros (_ & c & ? & _)].
  - assert (Hrest : j ∈ cells_from k (S i) ks
                    <-> (i < j)%nat /\ exists c, (n :: ks) !! (j - i)%nat
                                                 = Some (inr c)
                                                 /\ is_cell k c = true).
    { rewrite IH. split; intros (Hle & c & Hc & Hcell).
      - split; [lia|]. exists c. split; [|done].
        by replace (j - i)%nat with (S (j - S i)) by lia.
      - split; [lia|]. exists c. split; [|done].
        by replace (j - i)%nat with (S (j - S i)) in Hc by lia. }
    assert (Hhead : forall c', n = inr c' -> is_cell k c' = true ->
              j ∈ i :: cells_from k (S i) ks
              <-> (i <= j)%nat /\ exists c, (n :: ks) !! (j - i)%nat
                                            = Some (inr c)
                                            /\ is_cell k c = true).
    { intros c' -> Hc'. rewrite elem_of_cons, Hrest. split.
      - intros [->|[Hlt H]]; [|split; [lia|done]].
        split; [lia|]. exists c'. by rewrite Nat.sub_diag.
      - intros [Hle H]. destruct (decide (j = i)); [by left|right].
        split; [lia|done]. }
    assert (Htail : (forall c', n = inr c' -> is_cell k c' = false) ->
              j ∈ cells_from k (S i) ks
              <-> (i <= j)%nat /\ exists c, (n :: ks) !! (j - i)%nat
                                            = Some (inr c)
                                            /\ is_cell k c = true).
    { intros Hn. rewrite Hrest. split; intros [Hl H]; (split; [|done]); [lia|].
      destruct (decide (j = i)) as [->|]; [|lia].
      destruct H as (c & Hc & Hcell). rewrite Nat.sub_diag in Hc.
      injection Hc as ->. by rewrite (Hn c eq_refl) in Hcell. }
    destruct n as [s|c]; cbn [cells_from].
    + by apply Htail.
    + destruct (is_cell k c) eqn:Hcell; [by apply (Hhead c)|].
      apply Htail. by intros c' [= <-].
Qed.

Lemma cells_spec k e j :
  j ∈ cells k e <-> exists c, kids e !! j = Some (inr c) /\ is_cell k c = true.
Proof.
  unfold cells. rewrite cells_from_spec, Nat.sub_0_r. split.
  - by intros [_ H].
  - intros H. split; [lia|done].
Qed.

End SelectFacts.

(** ** What a sweep call does before it returns *)

Section SweepCall.

Implicit Types (w : world) (e c : HTMLElement) (fakes : list ref).
Variable options : ScrambleOptions.
Variable newChars : option (list jsstring).
Variable transform : HTMLElement -> HTMLElement.
Variable sid : nat.

Lemma rerandomize_all fakes w :
  is_cancelled sid w = false ->
  foldl (fun w fake => rerandomize sid transform fake w) w fakes
  = World (rerandomized transform (entropy w) (draws w) fakes (el w))
      (timers w) (cancelled w) (entropy w) (draws w + length fakes)
      (calls w ++ map (Call sid) fakes) (clock w).
Proof.
  revert w. induction fakes as [|fake rest IH]; intros w Hc; cbn [foldl].
  - destruct w. cbn. by rewrite Nat.add_0_r, app_nil_r.
  - assert (Hstep : rerandomize sid transform fake w
                    = World (modify transform fake
                               (modify (set_textContent
                                          (sweep_glyph (entropy w (draws w))))
                                  fake (el w)))
                        (timers w) (cancelled w) (entropy w) (S (draws w))
                        (calls w ++ [Call sid fake]) (clock w)).
    { unfold rerandomize, Math_random, is_cancelled in *. cbn.
      by rewrite Hc. }
    rewrite Hstep, IH by exact Hc. cbn.
    rewrite <- app_assoc. f_equal. lia.
Qed.

Lemma flash_all baseDelay fakeStagger fakeDuration fi fakes w :
  forEach_from (fun fi fake w =>
                  flash_fake (baseDelay + of_nat fi * fakeStagger)%Q
                    fakeDuration fake w) fi fakes w
  = with_timers (fun ts => ts ++ flash_timers (clock w) baseDelay fakeStagger
                                   fakeDuration fi fakes) w.
Proof.
  revert fi w. induction fakes as [|fake rest IH]; intros fi w;
    cbn [forEach_from flash_timers].
  - destruct w. unfold with_timers. cbn. by rewrite app_nil_r.
  - rewrite IH. unfold flash_fake, setTimeout, with_timers. cbn.
    by rewrite <- !app_assoc.
Qed.

Lemma sweep_body_eq fakes n real w m :
  is_cancelled sid w = false ->
  sweep_body fakes options newChars transform sid n real (w, m)
  = (World (rerandomized transform (entropy w) (draws w) fakes (el w))
       (timers w
        ++ cell_timers (clock w) options newChars transform sid n m real fakes)
       (cancelled w) (entropy w) (draws w + length fakes)
       (calls w ++ map (Call sid) fakes) (clock w),
     S m).
Proof.
  intros Hc. unfold sweep_body. rewrite (rerandomize_all _ _ Hc).
  unfold forEach. rewrite flash_all.
  unfold setTimeout, with_timers, cell_timers, sweep_restore, sweep_base,
    new_char. cbn. by rewrite <- !app_assoc.
Qed.

Lemma query_cell_fakes k i e c :
  kids e !! i = Some (inr c) -> is_cell k c = true ->
  query_from [i] FAKE e = cell_fakes k i.
Proof.
  intros Hi Hc. unfold query_from, cell_fakes. cbn. rewrite Hi.
  rewrite (cell_fake_refs _ _ Hc), map_map. reflexivity.
Qed.

Lemma query_cell_real k i e c :
  kids e !! i = Some (inr c) -> is_cell k c = true ->
  query_from [i] REAL e = [[i; k]].
Proof.
  intros Hi Hc. unfold query_from. cbn. rewrite Hi.
  by rewrite (cell_reals _ _ Hc).
Qed.

Lemma kids_rerandomized_ne ent n fakes e i j :
  Forall (fun fake => head fake = Some i) fakes -> i <> j ->
  kids (rerandomized transform ent n fakes e) !! j = kids e !! j.
Proof.
  intros Hf Hij. revert n e.
  induction Hf as [|fake rest Hh _ IH]; intros n e; [reflexivity|].
  cbn [rerandomized]. rewrite IH.
  destruct fake as [|i' p]; [discriminate|]. injection Hh as ->.
  by rewrite !kids_modify_ne.
Qed.

Lemma cell_fakes_head k i : Forall (fun fake => head fake = Some i) (cell_fakes k i).
Proof. unfold cell_fakes. apply Forall_forall. by intros ? (j & -> & _)%list_elem_of_fmap. Qed.

Lemma length_cell_fakes k i : length (cell_fakes k i) = k.
Proof. unfold cell_fakes. by rewrite length_map, length_seq. Qed.

Lemma sweep_cells_eq k ixs w n :
  NoDup ixs ->
  (forall i, i ∈ ixs ->
     exists c, kids (el w) !! i = Some (inr c) /\ is_cell k c = true) ->
  is_cancelled sid w = false ->
  forEach_from (sweep_cell options newChars transform sid) n
    (map (fun i => [i; k]) ixs) (w, n)
  = (World (swept transform (entropy w) k (draws w) ixs (el w))
       (timers w
        ++ session_timers (clock w) options newChars transform sid k n ixs)
       (cancelled w) (entropy w) (draws w + k * length ixs)
       (calls w ++ flat_map (fun i => map (Call sid) (cell_fakes k i)) ixs)
       (clock w),
     n + length ixs).
Proof.
  intros Hnd. revert w n.
  induction Hnd as [|i ixs Hi Hnd IH]; intros w n Hcells Hc.
  - destruct w. cbn. by rewrite Nat.mul_0_r, !Nat.add_0_r, !app_nil_r.
  - cbn [map forEach_from]. unfold sweep_cell at 2.
    change (parentElement [i; k]) with [i]. cbn [fst].
    destruct (Hcells i) as (c & Hkid & Hcell); [by left|].
    change "scramble-fake"%string with FAKE.
    rewrite (query_cell_fakes _ _ _ _ Hkid Hcell), (sweep_body_eq _ _ _ _ _ Hc).
    rewrite IH; cbn [el timers cancelled entropy draws calls clock].
    + rewrite length_cell_fakes. cbn [session_timers swept flat_map length].
      rewrite <- !app_assoc, Nat.mul_succ_r. f_equal; [f_equal|]; lia.
    + intros i' Hi'. destruct (Hcells i') as (c' & Hkid' & Hcell'); [by right|].
      exists c'. split; [|done].
      rewrite (kids_rerandomized_ne _ _ _ _ i i');
        [done | apply cell_fakes_head |].
      intros ->. contradiction.
    + exact Hc.
Qed.

End SweepCall.

Lemma cells_from_NoDup k i ks : NoDup (cells_from k i ks).
Proof.
  revert i. induction ks as [|[s|c] ks IH]; intros i; cbn; [constructor|done|].
  destruct (is_cell k c); [|done]. constructor; [|done].
  intros [Hle _]%cells_from_spec. lia.
Qed.

Lemma cells_NoDup k e : NoDup (cells k e).
Proof. apply cells_from_NoDup. Qed.

(** The whole call on a prepared element, in closed form. *)
Lemma scrambleSweep_prepared k options newChars transform w :
  prepared k (el w) = true ->
  scrambleSweep options newChars transform w
  = (World
       (swept transform (entropy w) k (draws w) (cells k (el w)) (el w))
       (timers w
        ++ session_timers (clock w) options newChars transform
             (length (cancelled w)) k 0 (cells k (el w)))
       (cancelled w ++ [false]) (entropy w)
       (draws w + k * length (cells k (el w)))
       (calls w
        ++ flat_map (fun i => map (Call (length (cancelled w))) (cell_fakes k i))
             (cells k (el w)))
       (clock w),
     length (cancelled w)).
Proof.
  intros Hp. unfold scrambleSweep, forEach. cbn [el with_cancelled].
  change "scramble-real"%string with REAL.
  rewrite (prepared_reals _ _ Hp), sweep_cells_eq.
  - reflexivity.
  - apply cells_NoDup.
  - intros i Hi. by apply cells_spec.
  - unfold is_cancelled. cbn. by rewrite lookup_app_r, Nat.sub_diag.
Qed.

(** ** Firing timers *)

Section Firing.

Implicit Types (w : world) (t : task) (e : HTMLElement) (order : list nat).

Lemma modify_ext f f' p e : (forall x, f x = f' x) -> modify f p e = modify f' p e.
Proof.
  intros Hf. revert e. induction p as [|i p IH]; intros e; [apply Hf|].
  rewrite !modify_cons. f_equal. apply list_alter_ext; [|done].
  intros [s|c] _; cbn; [done|]. by rewrite IH.
Qed.

Lemma modify_compose f g p e :
  modify f p (modify g p e) = modify (fun x => f (g x)) p e.
Proof.
  revert e. induction p as [|i p IH]; intros e; [reflexivity|].
  rewrite !modify_cons. cbn [attrs_of kids]. f_equal.
  rewrite list_alter_alter_eq. apply list_alter_ext; [|done].
  intros [s|c] _; cbn; [done|]. by rewrite IH.
Qed.

Lemma delete_none {A} (l : list A) i : l !! i = None -> delete i l = l.
Proof.
  revert i. induction l as [|x l IH]; intros [|i] H; try done.
  cbn in *. f_equal. by apply IH.
Qed.

Lemma run_task_eq t w :
  run_task t w
  = World (modify (task_effect t w) (task_target t) (el w)) (timers w)
      (cancelled w) (entropy w) (draws w) (calls w ++ task_calls t w) (clock w).
Proof.
  destruct w as [e ts cs ent n log clk].
  destruct t as [r|r|r d|r [c|]|s r tr];
    unfold run_task, task_effect, task_calls, is_cancelled, apply_transform,
      with_calls, with_el; cbn;
    rewrite ?app_nil_r, ?modify_compose; try reflexivity.
  destruct (cs !! s) as [[|]|]; cbn; rewrite ?app_nil_r, ?modify_compose;
    reflexivity.
Qed.

Lemma fire_eq n w due t :
  timers w !! n = Some (due, t) ->
  fire n w
  = run_task t (World (el w) (delete n (timers w)) (cancelled w) (entropy w)
                  (draws w) (calls w)
                  (if Qle_bool (clock w) due then due else clock w)).
Proof. unfold fire. by intros ->. Qed.

Lemma fire_none n w : timers w !! n = None -> fire n w = w.
Proof. unfold fire. by intros ->. Qed.

Lemma fire_cancelled n w : cancelled (fire n w) = cancelled w.
Proof.
  destruct (timers w !! n) as [[due t]|] eqn:Hn.
  - by rewrite (fire_eq _ _ _ _ Hn), run_task_eq.
  - by rewrite (fire_none _ _ Hn).
Qed.

Lemma fire_timers n w : timers (fire n w) = delete n (timers w).
Proof.
  destruct (timers w !! n) as [[due t]|] eqn:Hn.
  - by rewrite (fire_eq _ _ _ _ Hn), run_task_eq.
  - rewrite (fire_none _ _ Hn). symmetry. by apply delete_none.
Qed.

Lemma fires_cons n order w : fires (n :: order) w = fires order (fire n w).
Proof. reflexivity. Qed.

Lemma fires_cancelled order w : cancelled (fires order w) = cancelled w.
Proof.
  revert w. induction order as [|n order IH]; intros w; [reflexivity|].
  by rewrite fires_cons, IH, fire_cancelled.
Qed.

Lemma fires_timers_subset order w x :
  x ∈ timers (fires order w) -> x ∈ timers w.
Proof.
  revert w. induction order as [|n order IH]; intros w; [done|].
  rewrite fires_cons. intros Hx%IH. rewrite fire_timers in Hx.
  by apply list_elem_of_delete_inv in Hx.
Qed.

Lemma fire_settled n w : settled w = true -> settled (fire n w) = true.
Proof.
  unfold settled. rewrite fire_cancelled, !forallb_forall.
  intros H x Hx%list_elem_of_In. apply H, list_elem_of_In.
  rewrite fire_timers in Hx. by apply list_elem_of_delete_inv in Hx.
Qed.

Lemma fires_settled order w : settled w = true -> settled (fires order w) = true.
Proof.
  revert w. induction order as [|n order IH]; intros w Hw; [done|].
  rewrite fires_cons. by apply IH, fire_settled.
Qed.

Lemma settled_lookup w n due t :
  settled w = true -> timers w !! n = Some (due, t) ->
  length (task_target t) = 2
  /\ match t with
     | SweepRestore s _ _ => s < length (cancelled w)
     | _ => True
     end.
Proof.
  unfold settled. rewrite forallb_forall. intros H Hn.
  assert (Hin : In (due, t) (timers w)).
  { apply list_elem_of_In, list_elem_of_lookup. eauto. }
  apply H in Hin. cbn in Hin. apply andb_prop in Hin as [H1 H2].
  apply Nat.eqb_eq in H1. split; [done|].
  destruct t; try done. by apply Nat.ltb_lt.
Qed.

(** A pending timer writes to one span; every other span is as it was. *)
Lemma fire_get_other n w due t q :
  timers w !! n = Some (due, t) ->
  length (task_target t) = length q -> task_target t <> q ->
  get q (el (fire n w)) = get q (el w).
Proof.
  intros Hn Hlen Hne. rewrite (fire_eq _ _ _ _ Hn), run_task_eq. cbn.
  by apply get_modify_level.
Qed.

Lemma fire_get_target n w due t :
  timers w !! n = Some (due, t) ->
  get (task_target t) (el (fire n w))
  = task_effect t w <$> get (task_target t) (el w).
Proof.
  intros Hn. rewrite (fire_eq _ _ _ _ Hn), run_task_eq. cbn.
  by rewrite get_modify_same.
Qed.

Lemma fire_calls n w due t :
  timers w !! n = Some (due, t) -> calls (fire n w) = calls w ++ task_calls t w.
Proof.
  intros Hn. by rewrite (fire_eq _ _ _ _ Hn), run_task_eq.
Qed.

(** Spans stay in place whatever fires. *)
Lemma fire_keeps_spans n w q :
  settled w = true -> length q = 2 ->
  is_Some (get q (el w)) -> is_Some (get q (el (fire n w))).
Proof.
  intros Hw Hq Hsome.
  destruct (timers w !! n) as [[due t]|] eqn:Hn.
  - destruct (settled_lookup _ _ _ _ Hw Hn) as [Hlen _].
    rewrite (fire_eq _ _ _ _ Hn), run_task_eq. cbn.
    apply get_is_Some_modify_level; [congruence|done].
  - by rewrite (fire_none _ _ Hn).
Qed.

Lemma fires_keeps_spans order w q :
  settled w = true -> length q = 2 ->
  is_Some (get q (el w)) -> is_Some (get q (el (fires order w))).
Proof.
  revert w. induction order as [|n order IH]; intros w Hw Hq Hsome; [done|].
  rewrite fires_cons. apply IH; [by apply fire_settled | done | by apply fire_keeps_spans].
Qed.

End Firing.

(** ** The timers and the element a sweep call leaves *)

Section SweepResult.

Implicit Types (w : world) (e c : HTMLElement).
Variable options : ScrambleOptions.
Variable newChars : option (list jsstring).
Variable transform : HTMLElement -> HTMLElement.
Variables sid k : nat.

Lemma flash_timers_in clk b s d fi fakes x :
  x ∈ flash_timers clk b s d fi fakes ->
  exists fake, fake ∈ fakes /\ (snd x = ShowFake fake \/ snd x = HideFake fake).
Proof.
  revert fi. induction fakes as [|fake fakes IH]; intros fi; cbn.
  - by intros ?%elem_of_nil.
  - intros [->|[->|Hx]%elem_of_cons]%elem_of_cons.
    + exists fake. split; [by left|by left].
    + exists fake. split; [by left|by right].
    + apply IH in Hx as (fake' & ? & ?). exists fake'. split; [by right|done].
Qed.

Lemma flash_timers_tasks clk b s d fi ix x :
  x ∈ flash_timers clk b s d fi (cell_fakes k ix) ->
  exists j, j < k /\ (snd x = ShowFake [ix; j] \/ snd x = HideFake [ix; j]).
Proof.
  intros (fake & (j & -> & Hj%elem_of_seq)%list_elem_of_fmap & Hx)%flash_timers_in.
  exists j. split; [lia|done].
Qed.

Lemma session_timers_tasks clk n ixs x :
  x ∈ session_timers clk options newChars transform sid k n ixs ->
  session_task k ixs (match newChars with
                      | Some cs => Some (drop n cs)
                      | None => None
                      end) transform sid (snd x).
Proof.
  revert n. induction ixs as [|ix ixs IH]; intros n; cbn [session_timers].
  - by intros ?%elem_of_nil.
  - unfold cell_timers.
    intros [[->%list_elem_of_singleton|
             [Hx| ->%list_elem_of_singleton]%elem_of_app]%elem_of_app
           |Hx]%elem_of_app; cbn [snd session_task].
    + exists 0, ix. repeat split. unfold new_char.
      destruct newChars as [cs|]; [|done]. by rewrite lookup_drop, Nat.add_0_r.
    + apply flash_timers_tasks in Hx as (j & Hj & [-> | ->]); cbn;
        exists ix, j; (split; [by left|done]).
    + repeat split. exists ix. split; [by left|done].
    + apply IH in Hx. destruct x as [d [f|f|r rd|r c|s r tr]]; cbn in *.
      * destruct Hx as (ix' & j & ? & ?). exists ix', j. split; [by right|done].
      * destruct Hx as (ix' & j & ? & ?). exists ix', j. split; [by right|done].
      * done.
      * destruct Hx as (m & ix' & Hm & -> & ->). exists (S m), ix'.
        repeat split; [done|]. unfold new_char.
        destruct newChars as [cs|]; [|done].
        rewrite !lookup_drop. f_equal. lia.
      * destruct Hx as (-> & -> & ix' & ? & ->). repeat split.
        exists ix'. split; [by right|done].
Qed.

Lemma session_timers_hide clk n ixs m ix :
  ixs !! m = Some ix ->
  (clk + (if Qle_bool 0 (sweep_base options (n + m) * 1000)
          then sweep_base options (n + m) * 1000 else 0),
   SweepHideReal [ix; k] (new_char newChars (n + m)))%Q
  ∈ session_timers clk options newChars transform sid k n ixs.
Proof.
  revert n m. induction ixs as [|ix' ixs IH]; intros n [|m] Hm; try done;
    cbn [session_timers].
  - injection Hm as ->. rewrite Nat.add_0_r. apply elem_of_app. left. by left.
  - apply elem_of_app. right.
    replace (n + S m) with (S n + m) by lia. by apply IH.
Qed.

Lemma session_timers_restore clk n ixs m ix :
  ixs !! m = Some ix ->
  (clk + (if Qle_bool 0 (sweep_restore options (n + m) k * 1000)
          then sweep_restore options (n + m) k * 1000 else 0),
   SweepRestore sid [ix; k] transform)%Q
  ∈ session_timers clk options newChars transform sid k n ixs.
Proof.
  revert n m. induction ixs as [|ix' ixs IH]; intros n [|m] Hm; try done;
    cbn [session_timers].
  - injection Hm as ->. rewrite Nat.add_0_r. apply elem_of_app. left.
    unfold cell_timers. rewrite length_cell_fakes.
    apply elem_of_app. right. apply elem_of_app. right. by left.
  - apply elem_of_app. right.
    replace (n + S m) with (S n + m) by lia. by apply IH.
Qed.

(** The synchronous part writes to fake spans only. *)
Lemma get_rerandomized_other ent n fakes e q :
  Forall (fun fake => length fake = length q /\ fake <> q) fakes ->
  get q (rerandomized transform ent n fakes e) = get q e.
Proof.
  intros Hf. revert n e.
  induction Hf as [|fake rest [Hlen Hne] _ IH]; intros n e; [done|].
  cbn [rerandomized]. by rewrite IH, !get_modify_level.
Qed.

Lemma get_swept_real ent n ixs e ix :
  get [ix; k] (swept transform ent k n ixs e) = get [ix; k] e.
Proof.
  revert n e. induction ixs as [|ix' ixs IH]; intros n e; [done|].
  cbn [swept]. rewrite IH. apply get_rerandomized_other.
  apply Forall_forall. intros ? (j & -> & Hj%elem_of_seq)%list_elem_of_fmap.
  split; [done|]. intros [= -> ->]. lia.
Qed.

Lemma rerandomized_keeps_spans ent n fakes e q :
  Forall (fun fake => length fake = length q) fakes ->
  is_Some (get q e) -> is_Some (get q (rerandomized transform ent n fakes e)).
Proof.
  intros Hf. revert n e.
  induction Hf as [|fake rest Hlen _ IH]; intros n e He; [done|].
  cbn [rerandomized]. apply IH.
  apply get_is_Some_modify_level; [done|].
  by apply get_is_Some_modify_level.
Qed.

Lemma swept_keeps_spans ent n ixs e q :
  length q = 2 ->
  is_Some (get q e) -> is_Some (get q (swept transform ent k n ixs e)).
Proof.
  intros Hq. revert n e. induction ixs as [|ix ixs IH]; intros n e He; [done|].
  cbn [swept]. apply IH, rerandomized_keeps_spans; [|done].
  apply Forall_forall. by intros ? (j & -> & _)%list_elem_of_fmap.
Qed.

End SweepResult.

(** ** Cells and their spans *)

Section Cells.

Implicit Types (w : world) (e c : HTMLElement).

Lemma forallb_lookup {A} (P : A -> bool) (l : list A) i x :
  forallb P l = true -> l !! i = Some x -> P x = true.
Proof.
  rewrite forallb_forall. intros H Hi. apply H, list_elem_of_In.
  apply list_elem_of_lookup. eauto.
Qed.

Lemma cell_fake_span k c j :
  is_cell k c = true -> j < k ->
  exists s, kids c !! j = Some (inr s) /\ is_span FAKE (inr s) = true.
Proof.
  intros (Hlen & Hf & _)%is_cell_kids Hj.
  destruct (lookup_lt_is_Some_2 (kids c) j) as [n Hn]; [lia|].
  assert (Hs : is_span FAKE n = true).
  { apply (forallb_lookup _ _ j _ Hf). by rewrite lookup_take_lt. }
  destruct n as [s|s]; [discriminate|]. eauto.
Qed.

Lemma cell_real_span k c :
  is_cell k c = true ->
  exists s, kids c !! k = Some (inr s) /\ is_span REAL (inr s) = true.
Proof.
  intros (Hlen & _ & Hr & _)%is_cell_kids.
  destruct (lookup_lt_is_Some_2 (kids c) k) as [n Hn]; [lia|].
  assert (Hs : is_span REAL n = true).
  { apply (forallb_lookup _ _ 0 _ Hr). by rewrite lookup_drop, Nat.add_0_r. }
  destruct n as [s|s]; [discriminate|]. eauto.
Qed.

Lemma cells_real_some k e ix : ix ∈ cells k e -> is_Some (get [ix; k] e).
Proof.
  intros (c & Hc & Hcell)%cells_spec.
  destruct (cell_real_span _ _ Hcell) as (s & Hs & _).
  cbn. rewrite Hc, Hs. eauto.
Qed.

Lemma cells_fake_some k e ix j :
  ix ∈ cells k e -> j < k -> is_Some (get [ix; j] e).
Proof.
  intros (c & Hc & Hcell)%cells_spec Hj.
  destruct (cell_fake_span _ _ _ Hcell Hj) as (s & Hs & _).
  cbn. rewrite Hc, Hs. eauto.
Qed.

Lemma session_task_target k ixs nc tr sid t :
  session_task k ixs nc tr sid t -> length (task_target t) = 2.
Proof.
  destruct t; cbn; try done.
  - by intros (? & ? & _ & _ & ->).
  - by intros (? & ? & _ & _ & ->).
  - by intros (? & ? & _ & -> & _).
  - by intros (_ & _ & ? & _ & ->).
Qed.

(** A sweep of a prepared element leaves the timers settled. *)
Lemma sweep_settled k options newChars transform w w1 sid :
  prepared k (el w) = true -> settled w = true ->
  scrambleSweep options newChars transform w = (w1, sid) ->
  settled w1 = true.
Proof.
  intros Hp Hw. rewrite (scrambleSweep_prepared _ _ _ _ _ Hp).
  intros [= <- <-]. unfold settled in *. cbn [timers cancelled].
  rewrite forallb_app. apply andb_true_intro. split.
  - rewrite forallb_forall in *. intros x Hx. specialize (Hw x Hx).
    apply andb_prop in Hw as [H1 H2]. rewrite H1. cbn.
    destruct (snd x); try done.
    rewrite length_app. cbn. apply Nat.ltb_lt in H2. apply Nat.ltb_lt. lia.
  - apply forallb_forall. intros x Hx%list_elem_of_In.
    apply session_timers_tasks in Hx.
    rewrite (session_task_target _ _ _ _ _ _ Hx). cbn.
    destruct (snd x); try done. destruct Hx as (-> & _).
    rewrite length_app. cbn. apply Nat.ltb_lt. lia.
Qed.

Lemma cancel_settled sid w : settled w = true -> settled (cancel sid w) = true.
Proof. unfold settled, cancel. cbn. by rewrite length_insert. Qed.

Lemma settled_fresh w x :
  settled w = true -> x ∈ timers w ->
  match snd x with
  | SweepRestore s _ _ => s < length (cancelled w)
  | _ => True
  end.
Proof.
  intros Hw (n & Hn)%list_elem_of_lookup. destruct x as [d t].
  by destruct (settled_lookup _ _ _ _ Hw Hn).
Qed.

End Cells.

(** ** A sweep session on a prepared element *)

Section Session.

Implicit Types (w : world) (e c : HTMLElement).
Variable k : nat.
Variable options : ScrambleOptions.
Variable newChars : option (list jsstring).
Variable transform : HTMLElement -> HTMLElement.
Variables (w w1 : world) (sid : nat).
Hypothesis Hprepared : prepared k (el w) = true.
Hypothesis Hsettled : settled w = true.
Hypothesis Hsweep : scrambleSweep options newChars transform w = (w1, sid).

Lemma session_sid : sid = length (cancelled w).
Proof.
  rewrite (scrambleSweep_prepared _ _ _ _ _ Hprepared) in Hsweep.
  by injection Hsweep.
Qed.

Lemma session_timers_eq :
  timers w1
  = timers w
    ++ session_timers (clock w) options newChars transform sid k 0
         (cells k (el w)).
Proof.
  rewrite session_sid.
  rewrite (scrambleSweep_prepared _ _ _ _ _ Hprepared) in Hsweep.
  by injection Hsweep as <- _.
Qed.

Lemma session_cancelled : cancelled w1 = cancelled w ++ [false].
Proof.
  rewrite (scrambleSweep_prepared _ _ _ _ _ Hprepared) in Hsweep.
  by injection Hsweep as <- _.
Qed.

Lemma session_el :
  el w1 = swept transform (entropy w) k (draws w) (cells k (el w)) (el w).
Proof.
  rewrite (scrambleSweep_prepared _ _ _ _ _ Hprepared) in Hsweep.
  by injection Hsweep as <- _.
Qed.

Lemma session_calls :
  calls w1
  = calls w
    ++ flat_map (fun i => map (Call sid) (cell_fakes k i)) (cells k (el w)).
Proof.
  rewrite session_sid.
  rewrite (scrambleSweep_prepared _ _ _ _ _ Hprepared) in Hsweep.
  by injection Hsweep as <- _.
Qed.

Lemma session_settled : settled w1 = true.
Proof. exact (sweep_settled _ _ _ _ _ _ _ Hprepared Hsettled Hsweep). Qed.

Lemma session_real_lookup i r :
  querySelectorAll REAL (el w) !! i = Some r ->
  exists ix, cells k (el w) !! i = Some ix /\ r = [ix; k].
Proof.
  rewrite (prepared_reals _ _ Hprepared), list_lookup_fmap.
  destruct (cells k (el w) !! i) as [ix|]; [|done].
  intros [= <-]. eauto.
Qed.

(** The pending timers of the session. *)
Lemma session_pending x :
  x ∈ timers w1 ->
  x ∈ timers w
  \/ session_task k (cells k (el w)) newChars transform sid (snd x).
Proof.
  rewrite session_timers_eq. intros [Hx|Hx]%elem_of_app; [by left|right].
  apply session_timers_tasks in Hx.
  destruct newChars; [by rewrite drop_0 in Hx|done].
Qed.

Lemma session_restore_is_real x s r tr :
  x ∈ timers w1 -> snd x = SweepRestore s r tr -> s = sid ->
  tr = transform /\ exists ix, ix ∈ cells k (el w) /\ r = [ix; k].
Proof.
  intros [Hx|Hx]%session_pending Hsnd ->.
  - apply (settled_fresh _ _ Hsettled) in Hx. rewrite Hsnd in Hx.
    rewrite session_sid in Hx. lia.
  - rewrite Hsnd in Hx. by destruct Hx as (_ & -> & ?).
Qed.

Lemma session_real_some ix : ix ∈ cells k (el w) -> is_Some (get [ix; k] (el w1)).
Proof.
  intros Hix. rewrite session_el. apply swept_keeps_spans; [done|].
  by apply cells_real_some.
Qed.

Lemma session_flag_after before after :
  is_cancelled sid (fires after (cancel sid (fires before w1))) = true.
Proof.
  unfold is_cancelled. rewrite fires_cancelled. unfold cancel. cbn.
  rewrite fires_cancelled, session_cancelled, session_sid.
  rewrite list_lookup_insert_eq; [done|]. rewrite length_app. cbn. lia.
Qed.

Lemma session_flag_before order : is_cancelled sid (fires order w1) = false.
Proof.
  unfold is_cancelled.
  rewrite fires_cancelled, session_cancelled, session_sid.
  by rewrite lookup_app_r, Nat.sub_diag.
Qed.

End Session.

Lemma get_style_set_style prop v e : get_style prop (set_style prop v e) = Some v.
Proof. destruct e as [a ks]. unfold get_style. cbn. apply lookup_insert_eq. Qed.

Lemma textContent_set_style prop v e :
  textContent (set_style prop v e) = textContent e.
Proof. by destruct e. Qed.

Lemma textContent_set_textContent c e : textContent (set_textContent c e) = c.
Proof. destruct e as [a ks], c as [|x c]; cbn; [done|]. by rewrite app_nil_r. Qed.

Lemma get_style_set_textContent prop c e :
  get_style prop (set_textContent c e) = get_style prop e.
Proof. by destruct e. Qed.

(** ** A sweep run to the end *)

Section SessionRun.

Implicit Types (w : world) (e : HTMLElement).
Variable k : nat.
Variable newChars : option (list jsstring).
Variable transform : HTMLElement -> HTMLElement.
Variable sid : nat.
Variable ixs : list nat.
Hypothesis Hnodup : NoDup ixs.
Hypothesis Htext : forall e, textContent (transform e) = textContent e.

Lemma delete_keeps {A} (l : list A) n x y :
  x ∈ l -> l !! n = Some y -> x <> y -> x ∈ delete n l.
Proof.
  revert n. induction l as [|z l IH]; intros [|n] Hx Hn Hne; try done; cbn in *.
  - injection Hn as ->. by apply elem_of_cons in Hx as [->|Hx].
  - apply elem_of_cons in Hx as [->|Hx]; [by left|right]. by eapply IH.
Qed.

Lemma fire_only_session n w : only_session k ixs newChars transform sid w -> only_session k ixs newChars transform sid (fire n w).
Proof.
  intros H x Hx. apply H. rewrite fire_timers in Hx.
  by apply list_elem_of_delete_inv in Hx.
Qed.

Lemma fire_hide_real n w t0 i ix c' :
  only_session k ixs newChars transform sid w -> ixs !! i = Some ix ->
  timers w !! n = Some (t0, SweepHideReal [ix; k] c') ->
  c' = new_char newChars i
  /\ text_at [ix; k] (fire n w)
     = match c' with
       | Some c => (fun _ => c) <$> get [ix; k] (el w)
       | None => text_at [ix; k] w
       end.
Proof.
  intros Hall Hix Hn.
  assert (Hin : (t0, SweepHideReal [ix; k] c') ∈ timers w).
  { apply list_elem_of_lookup. eauto. }
  apply Hall in Hin. cbn in Hin. destruct Hin as (m & ix' & Hm & [= <-] & ->).
  rewrite (NoDup_lookup _ _ _ _ Hnodup Hix Hm). split; [done|].
  pose proof (fire_get_target _ _ _ _ Hn) as Hget. cbn [task_target] in Hget.
  unfold text_at. rewrite Hget.
  destruct (get [ix; k] (el w)) as [e|]; cbn; [|by destruct (new_char _ _)].
  destruct (new_char newChars m) as [c|]; cbn.
  - by rewrite textContent_set_textContent.
  - by rewrite textContent_set_style.
Qed.

Lemma fire_other_task n w t0 t ix :
  only_session k ixs newChars transform sid w -> ix ∈ ixs ->
  timers w !! n = Some (t0, t) ->
  (forall c', t <> SweepHideReal [ix; k] c') ->
  text_at [ix; k] (fire n w) = text_at [ix; k] w.
Proof.
  intros Hall Hix Hn Hnot.
  assert (Hin : (t0, t) ∈ timers w) by (apply list_elem_of_lookup; eauto).
  apply Hall in Hin. cbn [snd] in Hin.
  pose proof (session_task_target _ _ _ _ _ _ Hin) as Hlen.
  unfold text_at.
  destruct (decide (task_target t = [ix; k])) as [Heq|Hne];
    [|by rewrite (fire_get_other _ _ _ _ _ Hn)].
  pose proof (fire_get_target _ _ _ _ Hn) as Hget. rewrite Heq in Hget.
  rewrite Hget. destruct (get [ix; k] (el w)) as [e|]; [|done].
  destruct t as [f|f|r d|r c|s r tr]; cbn in Heq, Hin.
  - destruct Hin as (ix' & j & _ & Hj & ->). injection Heq as -> ->. lia.
  - destruct Hin as (ix' & j & _ & Hj & ->). injection Heq as -> ->. lia.
  - done.
  - subst r. by destruct (Hnot c).
  - cbn [fmap option_fmap option_map task_effect].
    destruct Hin as (_ & -> & _).
    destruct (is_cancelled s w); by rewrite ?Htext, textContent_set_style.
Qed.

Lemma fire_text_progress n w0 w i ix :
  only_session k ixs newChars transform sid w -> ixs !! i = Some ix -> is_Some (get [ix; k] (el w)) ->
  text_progress newChars i [ix; k] w0 w ->
  text_progress newChars i [ix; k] w0 (fire n w).
Proof.
  intros Hall Hix [e He] Hinv.
  destruct (timers w !! n) as [[t0 t]|] eqn:Hn;
    [|by rewrite (fire_none _ _ Hn)].
  assert (Hmem : ix ∈ ixs) by (apply list_elem_of_lookup; eauto).
  assert (Hcases : (exists c', t = SweepHideReal [ix; k] c')
                   \/ forall c', t <> SweepHideReal [ix; k] c').
  { destruct t as [f|f|r d|r c|s r tr]; try (right; congruence).
    destruct (decide (r = [ix; k])) as [->|Hne]; [left; eauto|].
    right. congruence. }
  unfold text_progress in *. destruct Hcases as [[c' ->]|Hnot].
  - destruct (fire_hide_real _ _ _ _ _ _ Hall Hix Hn) as [-> Ht].
    rewrite Ht. destruct (new_char newChars i) as [c|]; [|done].
    left. by rewrite He.
  - rewrite (fire_other_task _ _ _ _ _ Hall Hmem Hn Hnot).
    destruct (new_char newChars i) as [c|]; [|done].
    destruct Hinv as [Hdone|[Hold [t1 Hpend]]]; [by left|right].
    split; [done|]. exists t1. rewrite fire_timers.
    apply (delete_keeps _ _ _ _ Hpend Hn). intros [= _ <-]. by destruct (Hnot (Some c)).
Qed.

Lemma fires_text_progress order w0 w i ix :
  only_session k ixs newChars transform sid w -> settled w = true -> ixs !! i = Some ix ->
  is_Some (get [ix; k] (el w)) ->
  text_progress newChars i [ix; k] w0 w ->
  text_progress newChars i [ix; k] w0 (fires order w).
Proof.
  revert w. induction order as [|n order IH]; intros w Hall Hw Hix Hsome Hinv;
    [done|].
  rewrite fires_cons. apply IH.
  - by apply fire_only_session.
  - by apply fire_settled.
  - done.
  - by apply fire_keeps_spans.
  - by apply fire_text_progress.
Qed.

End SessionRun.

(** ** The event loop *)

Section EventLoop.

Implicit Types (w : world) (ts : list (Q * task)).

Lemma earliest_from_range i best ts :
  fst best < i -> earliest_from i best ts < i + length ts.
Proof.
  revert i best. induction ts as [|[d t] ts IH]; intros i best Hb; cbn.
  - lia.
  - replace (i + S (length ts)) with (S i + length ts) by lia.
    apply IH. destruct (Qle_bool (snd best) d); cbn; lia.
Qed.

Lemma earliest_range ts : ts <> [] -> earliest ts < length ts.
Proof.
  destruct ts as [|[d t] ts]; [done|]. intros _. cbn.
  apply (earliest_from_range 1 (0, d) ts). cbn. lia.
Qed.

Lemma fire_earliest_length w :
  length (timers (fire (earliest (timers w)) w)) = length (timers w) - 1.
Proof.
  rewrite fire_timers. destruct (timers w) as [|x ts] eqn:Hts; [done|].
  apply length_delete, lookup_lt_is_Some_2, earliest_range. done.
Qed.

Lemma iter_fire_length n w :
  length (timers (Nat.iter n (fun w => fire (earliest (timers w)) w) w))
  = length (timers w) - n.
Proof.
  induction n as [|n IH]; [cbn; lia|].
  rewrite Nat.iter_succ. cbv beta. rewrite fire_earliest_length, IH. lia.
Qed.

(** The event loop leaves no timer pending. *)
Lemma run_all_done w : timers (run_all w) = [].
Proof.
  apply length_zero_iff_nil. unfold run_all. rewrite iter_fire_length. lia.
Qed.

Lemma iter_fire_fires n w :
  exists order,
    Nat.iter n (fun w => fire (earliest (timers w)) w) w = fires order w.
Proof.
  revert w. induction n as [|n IH]; intros w.
  - by exists [].
  - rewrite Nat.iter_succ_r.
    destruct (IH (fire (earliest (timers w)) w)) as [order ->].
    by exists (earliest (timers w) :: order).
Qed.

(** The event loop fires the timers in one of the possible orders. *)
Lemma run_all_fires w : exists order, run_all w = fires order w.
Proof. apply iter_fire_fires. Qed.

End EventLoop.

Section QuietSession.

Implicit Types (e : HTMLElement).
Variable k : nat.
Variable options : ScrambleOptions.
Variable newChars : option (list jsstring).
Variable transform : HTMLElement -> HTMLElement.
Variables (w w1 : world) (sid : nat).
Hypothesis Hprepared : prepared k (el w) = true.
Hypothesis Hquiet : timers w = [].
Hypothesis Hsweep : scrambleSweep options newChars transform w = (w1, sid).
Hypothesis Htext : forall e, textContent (transform e) = textContent e.

Lemma quiet_settled : settled w = true.
Proof. unfold settled. by rewrite Hquiet. Qed.

Lemma quiet_only_session :
  only_session k (cells k (el w)) newChars transform sid w1.
Proof.
  intros x [Hx|Hx]%(session_pending _ _ _ _ _ _ _ Hprepared Hsweep); [|done].
  rewrite Hquiet in Hx. by apply elem_of_nil in Hx.
Qed.

(** From a quiet start, the text of a real span is the old one until the
    hide timer of the span has put the new character in. *)
Lemma quiet_text_progress order i r :
  querySelectorAll REAL (el w) !! i = Some r ->
  text_progress newChars i r w (fires order w1).
Proof.
  intros (ix & Hix & ->)%(session_real_lookup k w Hprepared).
  assert (Hmem : ix ∈ cells k (el w)) by (apply list_elem_of_lookup; eauto).
  apply (fires_text_progress k newChars transform sid (cells k (el w))).
  - apply cells_NoDup.
  - exact Htext.
  - exact quiet_only_session.
  - exact (session_settled _ _ _ _ _ _ _ Hprepared quiet_settled Hsweep).
  - exact Hix.
  - exact (session_real_some _ _ _ _ _ _ _ Hprepared Hsweep _ Hmem).
  - assert (Hsame : text_at [ix; k] w1 = text_at [ix; k] w).
    { unfold text_at.
      by rewrite (session_el _ _ _ _ _ _ _ Hprepared Hsweep), get_swept_real. }
    unfold text_progress. destruct (new_char newChars i) as [c|] eqn:Hc;
      [|done].
    right. split; [done|]. eexists.
    rewrite (session_timers_eq _ _ _ _ _ _ _ Hprepared Hsweep).
    apply elem_of_app. right.
    pose proof (session_timers_hide options newChars transform sid k
                  (clock w) 0 _ _ _ Hix) as Hin.
    cbn [Nat.add] in Hin. rewrite Hc in Hin. exact Hin.
Qed.

Lemma quiet_text_done order i r c :
  querySelectorAll REAL (el w) !! i = Some r ->
  new_char newChars i = Some c ->
  timers (fires order w1) = [] ->
  text_at r (fires order w1) = Some c.
Proof.
  intros Hr Hc Hdone. pose proof (quiet_text_progress order i r Hr) as H.
  unfold text_progress in H. rewrite Hc in H.
  destruct H as [H|[_ [t0 Hin]]]; [done|].
  rewrite Hdone in Hin. by apply elem_of_nil in Hin.
Qed.

Lemma quiet_text_kept order i r :
  querySelectorAll REAL (el w) !! i = Some r ->
  new_char newChars i = None ->
  text_at r (fires order w1) = text_at r w.
Proof.
  intros Hr Hc. pose proof (quiet_text_progress order i r Hr) as H.
  unfold text_progress in H. by rewrite Hc in H.
Qed.

End QuietSession.

(** ** The fake spans after a sweep call *)

Section SweptFakes.

Implicit Types (e : HTMLElement).
Variable transform : HTMLElement -> HTMLElement.
Variable ent : nat -> unit_double.

Lemma get_rerandomized_fake n fakes e m f :
  NoDup fakes -> Forall (fun f' => length f' = length f) fakes ->
  fakes !! m = Some f ->
  get f (rerandomized transform ent n fakes e)
  = (fun x => transform (set_textContent (sweep_glyph (ent (n + m))) x))
      <$> get f e.
Proof.
  intros Hnd. revert n e m.
  induction Hnd as [|f0 rest Hnotin Hnd IH]; intros n e [|m] Hlen Hm;
    try done; cbn [rerandomized]; apply Forall_cons in Hlen as [Hl0 Hlen].
  - injection Hm as ->. rewrite get_rerandomized_other.
    + rewrite !get_modify_same, Nat.add_0_r. by destruct (get f e).
    + apply Forall_forall. intros f' Hf'. split.
      * by apply (proj1 (Forall_forall _ _) Hlen).
      * intros ->. contradiction.
  - cbn in Hm. rewrite (IH _ _ _ Hlen Hm).
    assert (f0 <> f).
    { intros ->. apply Hnotin. apply list_elem_of_lookup. eauto. }
    rewrite !get_modify_level by done.
    by replace (S n + m) with (n + S m) by lia.
Qed.

Lemma cell_fakes_NoDup k ix : NoDup (cell_fakes k ix).
Proof.
  unfold cell_fakes. apply NoDup_fmap_2; [|apply NoDup_seq].
  by intros j j' [= ->].
Qed.

Lemma cell_fakes_lookup k ix j : j < k -> cell_fakes k ix !! j = Some [ix; j].
Proof.
  intros Hj. unfold cell_fakes. rewrite list_lookup_fmap.
  by rewrite lookup_seq_lt.
Qed.

Lemma get_swept_other_cell k n ixs e ix j :
  ix ∉ ixs -> get [ix; j] (swept transform ent k n ixs e) = get [ix; j] e.
Proof.
  revert n e. induction ixs as [|ix0 ixs IH]; intros n e Hnotin; [done|].
  cbn [swept]. apply not_elem_of_cons in Hnotin as [Hne Hnotin].
  rewrite IH by done. apply get_rerandomized_other.
  apply Forall_forall. intros ? (j' & -> & _)%list_elem_of_fmap.
  split; [done|]. congruence.
Qed.

Lemma get_swept_fake k n ixs e m ix j :
  NoDup ixs -> ixs !! m = Some ix -> j < k ->
  get [ix; j] (swept transform ent k n ixs e)
  = (fun x => transform
                (set_textContent (sweep_glyph (ent (n + k * m + j))) x))
      <$> get [ix; j] e.
Proof.
  intros Hnd. revert n e m.
  induction Hnd as [|ix0 ixs Hnotin Hnd IH]; intros n e [|m] Hm Hj; try done;
    cbn [swept].
  - injection Hm as ->. rewrite get_swept_other_cell by done.
    rewrite (get_rerandomized_fake _ _ _ j [ix; j]).
    + by rewrite Nat.mul_0_r, Nat.add_0_r.
    + apply cell_fakes_NoDup.
    + apply Forall_forall. by intros ? (j' & -> & _)%list_elem_of_fmap.
    + by apply cell_fakes_lookup.
  - cbn in Hm. rewrite (IH _ _ _ Hm Hj).
    assert (ix0 <> ix).
    { intros ->. apply Hnotin. apply list_elem_of_lookup. eauto. }
    rewrite get_rerandomized_other.
    + by replace (n + k + k * m + j) with (n + k * S m + j) by lia.
    + apply Forall_forall. intros ? (j' & -> & _)%list_elem_of_fmap.
      split; [done|]. congruence.
Qed.

End SweptFakes.

(** The transform calls that timers add are those of restore timers. *)
Lemma fires_calls_from (P : call -> Prop) order w :
  (forall x s r tr, x ∈ timers w -> snd x = SweepRestore s r tr -> P (Call s r)) ->
  exists later, calls (fires order w) = calls w ++ later /\ Forall P later.
Proof.
  revert w. induction order as [|n order IH]; intros w Hw.
  - exists []. by rewrite app_nil_r.
  - rewrite fires_cons. destruct (IH (fire n w)) as (later & Heq & Hlater).
    { intros x s r tr Hx. apply Hw. rewrite fire_timers in Hx.
      by apply list_elem_of_delete_inv in Hx. }
    destruct (timers w !! n) as [[t0 t]|] eqn:Hn.
    + rewrite (fire_calls _ _ _ _ Hn) in Heq.
      exists (task_calls t w ++ later). rewrite Heq, <- app_assoc.
      split; [done|]. apply Forall_app. split; [|done].
      destruct t as [f|f|r d|r c|s r tr]; cbn; try constructor.
      destruct (is_cancelled s w); constructor; [|constructor].
      apply (Hw (t0, SweepRestore s r tr) s r tr); [|done].
      apply list_elem_of_lookup. eauto.
    + rewrite (fire_none _ _ Hn) in Heq |- *. by exists later.
Qed.

(** ** The sample worlds *)

Lemma hi_prepared : prepared 2 (el Sample.hi) = true.
Proof. vm_compute. reflexivity. Qed.

Lemma hi_settled : settled Sample.hi = true.
Proof. vm_compute. reflexivity. Qed.

Lemma hover_restore_pending : restore_pending 2 0 (fst Sample.hover).
Proof.
  exists (due Sample.hi (sweep_restore no_options 0 2 * 1000)), 0, Sample.blacken.
  apply list_elem_of_lookup_2 with 5. vm_compute. reflexivity.
Qed.

Lemma hover_calls :
  calls (fst Sample.hover)
  = [Call 0 [0; 0]; Call 0 [0; 1]; Call 0 [1; 0]; Call 0 [1; 1]].
Proof. vm_compute. reflexivity. Qed.

(** ** What [scramblePrepare] builds *)

Section Prepare.

Implicit Types (w : world) (e : HTMLElement) (ns : list (node * bool)).
Variable k : nat.

Lemma modify_child f a (pre rest : list node) c :
  modify f [length pre] (El a (pre ++ inr c :: rest))
  = El a (pre ++ inr (f c) :: rest).
Proof.
  cbn. f_equal. induction pre as [|x pre IH]; cbn; [done|]. by f_equal.
Qed.

Lemma modify_text_child f a (pre rest : list node) s :
  modify f [length pre] (El a (pre ++ inl s :: rest))
  = El a (pre ++ inl s :: rest).
Proof.
  cbn. f_equal. induction pre as [|x pre IH]; cbn; [done|]. by f_equal.
Qed.

Lemma modify_id f p e : (forall x, f x = x) -> modify f p e = e.
Proof.
  intros Hf. revert e. induction p as [|i p IH]; intros e; [apply Hf|].
  rewrite modify_cons. destruct e as [a ks]. cbn. f_equal.
  apply list_alter_id. intros [s|c]; cbn; [done|]. by rewrite IH.
Qed.

Lemma iter_insert_fake char n w :
  Nat.iter n (insert_fake char) w
  = World (modify (fun e => El (attrs_of e)
                              (map (fun j => inr (fake_span
                                                    (prepare_glyph
                                                       (entropy w (draws w + j)))))
                                 (rev (seq 0 n)) ++ kids e)) char (el w))
      (timers w) (cancelled w) (entropy w) (draws w + n) (calls w) (clock w).
Proof.
  induction n as [|n IH].
  - destruct w as [e ts cs ent d log clk]. cbn [Nat.iter seq rev map app].
    rewrite Nat.add_0_r. cbn [el timers cancelled entropy draws calls clock].
    rewrite modify_id; [done|]. by intros [a ks].
  - rewrite Nat.iter_succ, IH. unfold insert_fake, Math_random, with_el.
    cbn [el timers cancelled entropy draws calls clock].
    rewrite modify_compose. f_equal; [|lia].
    f_equal. rewrite seq_S, rev_app_distr. reflexivity.
Qed.

(** One round of the loop of [scramblePrepare], in closed form. *)
Lemma prepare_char_eq char w :
  prepare_char k char w
  = World (modify (prepared_cell k (entropy w) (draws w)) char (el w))
      (timers w) (cancelled w) (entropy w) (draws w + k) (calls w) (clock w).
Proof.
  unfold prepare_char. rewrite iter_insert_fake.
  unfold with_el. cbn [el timers cancelled entropy draws calls clock].
  rewrite !modify_compose. reflexivity.
Qed.

Lemma prepare_char_child a (pre rest : list node) c0 w :
  el w = El a (pre ++ inr c0 :: rest) ->
  prepare_char k [length pre] w
  = World (El a (pre ++ inr (prepared_cell k (entropy w) (draws w) c0) :: rest))
      (timers w) (cancelled w) (entropy w) (draws w + k) (calls w) (clock w).
Proof.
  intros He. unfold prepare_char. rewrite iter_insert_fake.
  unfold with_el. cbn [el timers cancelled entropy draws calls clock].
  rewrite !modify_compose, He, modify_child. reflexivity.
Qed.

Lemma prepare_char_text a (pre rest : list node) s w :
  el w = El a (pre ++ inl s :: rest) ->
  prepare_char k [length pre] w
  = World (El a (pre ++ inl s :: rest))
      (timers w) (cancelled w) (entropy w) (draws w + k) (calls w) (clock w).
Proof.
  intros He. unfold prepare_char. rewrite iter_insert_fake.
  unfold with_el. cbn [el timers cancelled entropy draws calls clock].
  rewrite !modify_compose, He, modify_text_child. reflexivity.
Qed.

Lemma prepare_nodes_eq ns (pre : list node) a w :
  el w = El a (pre ++ map fst ns) ->
  exists d,
    foldl (fun w char => prepare_char k char w) w
      (map (fun i => [i]) (wrapper_indices (length pre) ns))
    = World (El a (pre ++ prepared_nodes k (entropy w) (draws w) ns))
        (timers w) (cancelled w) (entropy w) d (calls w) (clock w).
Proof.
  revert pre w. induction ns as [|[nd [|]] ns IH]; intros pre w He.
  - exists (draws w). destruct w. cbn in *. by rewrite He.
  - cbn [wrapper_indices map foldl prepared_nodes fst] in *.
    destruct nd as [s|c0].
    + rewrite (prepare_char_text _ _ _ _ _ He).
      edestruct (IH (pre ++ [inl s])) as [d Hd];
        [|rewrite length_app, Nat.add_1_r in Hd; rewrite Hd].
      { cbn. by rewrite <- app_assoc. }
      exists d. cbn. by rewrite <- app_assoc.
    + rewrite (prepare_char_child _ _ _ _ _ He).
      edestruct (IH (pre ++ [inr (prepared_cell k (entropy w) (draws w) c0)]))
        as [d Hd]; [|rewrite length_app, Nat.add_1_r in Hd; rewrite Hd].
      { cbn. by rewrite <- app_assoc. }
      exists d. cbn. by rewrite <- app_assoc.
  - cbn [wrapper_indices map foldl fst] in *.
    edestruct (IH (pre ++ [nd])) as [d Hd];
      [|rewrite length_app, Nat.add_1_r in Hd; rewrite Hd].
    { by rewrite <- app_assoc. }
    exists d. rewrite <- app_assoc. by destruct nd.
Qed.

(** [scramblePrepare] of an element that holds one text node, in closed
    form. *)
Lemma scramblePrepare_text_eq a t w :
  el w = El a [inl t] ->
  exists d,
    scramblePrepare k w
    = World (El a (prepared_nodes k (entropy w) (draws w) (split_node (inl t))))
        (timers w) (cancelled w) (entropy w) d (calls w) (clock w).
Proof.
  intros He. unfold scramblePrepare. rewrite He.
  cbn [splitText split_kids]. rewrite !app_nil_r.
  destruct (prepare_nodes_eq (split_node (inl t)) [] a
              (with_el (fun _ => El a (map fst (split_node (inl t)))) w)
              eq_refl) as [d Hd].
  exists d. exact Hd.
Qed.

End Prepare.

Section PreparedCells.

Implicit Types (w : world) (e : HTMLElement) (ns : list (node * bool)).
Variable k : nat.
Variable ent : nat -> unit_double.

Lemma split_node_flagged (nd nd' : node) :
  (nd', true) ∈ split_node nd ->
  exists c, nd' = inr (char_wrapper c) /\ is_whitespace c = false.
Proof.
  destruct nd as [s|c0]; cbn.
  - intros (c & Heq & _)%list_elem_of_fmap.
    destruct (is_whitespace c) eqn:Hws; [done|].
    injection Heq as ->. eauto.
  - by intros [=]%list_elem_of_singleton.
Qed.

Lemma split_flagged (ks : list node) nd' :
  (nd', true) ∈ flat_map split_node ks ->
  exists c, nd' = inr (char_wrapper c) /\ is_whitespace c = false.
Proof.
  intros Hin%list_elem_of_In. apply in_flat_map in Hin as (nd & _ & Hin).
  by apply list_elem_of_In, split_node_flagged in Hin.
Qed.

Lemma wrapper_indices_spec off ns i :
  i ∈ wrapper_indices off ns ->
  off <= i /\ exists nd, ns !! (i - off) = Some (nd, true).
Proof.
  revert off. induction ns as [|[nd [|]] ns IH]; intros off; cbn.
  - by intros ?%elem_of_nil.
  - intros [->|Hi]%elem_of_cons.
    + split; [lia|]. exists nd. by rewrite Nat.sub_diag.
    + apply IH in Hi as (Hle & nd' & Hnd). split; [lia|]. exists nd'.
      by replace (i - off) with (S (i - S off)) by lia.
  - intros Hi. apply IH in Hi as (Hle & nd' & Hnd). split; [lia|]. exists nd'.
    by replace (i - off) with (S (i - S off)) by lia.
Qed.

Lemma prepared_nodes_cell n ns i c0 :
  ns !! i = Some (inr c0, true) ->
  exists n', prepared_nodes k ent n ns !! i
             = Some (inr (prepared_cell k ent n' c0)).
Proof.
  revert n i. induction ns as [|[nd b] ns IH]; intros n [|i] Hi; try done.
  - injection Hi as -> ->. by exists n.
  - cbn in Hi. destruct nd as [s|c1], b; cbn; by apply IH.
Qed.

Lemma prepared_cell_kids n c0 :
  kids (prepared_cell k ent n c0)
  = map (fun j => inr (fake_span (prepare_glyph (ent (n + j))))) (rev (seq 0 k))
    ++ [inr (real_span (kids c0))].
Proof. reflexivity. Qed.

Lemma prepared_cell_class n c0 cls :
  has_class cls (prepared_cell k ent n c0) = has_class cls c0.
Proof. by destruct c0. Qed.

Lemma prepared_cell_real n c0 :
  kids (prepared_cell k ent n c0) !! k = Some (inr (real_span (kids c0))).
Proof.
  rewrite prepared_cell_kids, lookup_app_r;
    rewrite length_map, length_rev, length_seq; [|lia].
  by rewrite Nat.sub_diag.
Qed.

Lemma prepared_cell_is_cell n c0 :
  forallb is_text (kids c0) = true ->
  has_class REAL c0 = false -> has_class FAKE c0 = false ->
  is_cell k (prepared_cell k ent n c0) = true.
Proof.
  intros Ht Hr Hf. unfold is_cell.
  rewrite !prepared_cell_class, Hr, Hf, prepared_cell_kids.
  set (fakes := map _ (rev (seq 0 k))).
  assert (Hlen : length fakes = k).
  { unfold fakes. by rewrite length_map, length_rev, length_seq. }
  rewrite length_app, Hlen, take_app_length', drop_app_length' by done.
  cbn [length]. rewrite Nat.add_1_r, Nat.eqb_refl. cbn.
  rewrite Ht. cbn. rewrite !andb_true_r.
  apply forallb_forall. intros x Hx%list_elem_of_In.
  unfold fakes in Hx. by apply list_elem_of_fmap in Hx as (j & -> & _).
Qed.

Lemma char_wrapper_cell n c :
  is_cell k (prepared_cell k ent n (char_wrapper c)) = true.
Proof. by apply prepared_cell_is_cell. Qed.

(** The text of every fake span of a fresh cell is a drawn decoy. *)
Lemma prepared_cell_fake n c0 j :
  j < k ->
  exists d, kids (prepared_cell k ent n c0) !! j
            = Some (inr (fake_span (prepare_glyph d))).
Proof.
  intros Hj. rewrite prepared_cell_kids, lookup_app_l;
    [|by rewrite length_map, length_rev, length_seq].
  rewrite list_lookup_fmap.
  destruct (lookup_lt_is_Some_2 (rev (seq 0 k)) j) as [j' ->];
    [by rewrite length_rev, length_seq|].
  cbn. eauto.
Qed.

End PreparedCells.

(** ** Restyling changes neither the classes nor the text *)

Section Restyle.

Implicit Types (e : HTMLElement) (p q : ref).
Variable g : gmap string css -> gmap string css.






End Restyle.




Section Reveal.

Implicit Types (w : world).

Lemma forEach_from_invariant {A S} (P : S -> Prop) (f : nat -> A -> S -> S) i xs s :
  (forall i x s, P s -> P (f i x s)) -> P s -> P (forEach_from f i xs s).
Proof.
  intros Hf. revert i s. induction xs as [|x xs IH]; intros i s Hs; [done|].
  cbn. apply IH, Hf, Hs.
Qed.






End Reveal.

(** ** A prepared text element *)

Section PreparedText.

Implicit Types (w : world) (t : jsstring).
Variable k : nat.
Variable ent : nat -> unit_double.

Lemma split_text_node t :
  flat_map split_node [inl t] = map split_char t.
Proof. cbn. by rewrite app_nil_r. Qed.

Lemma prepared_text_nodes t n :
  forallb (fun nd => match nd with
                     | inl _ => true
                     | inr c => is_cell k c || is_plain c
                     end) (prepared_nodes k ent n (map split_char t)) = true.
Proof.
  revert n. induction t as [|c t IH]; intros n; [done|].
  cbn [map]. unfold split_char at 1.
  destruct (is_whitespace c); cbn [prepared_nodes forallb].
  - apply IH.
  - by rewrite char_wrapper_cell, IH.
Qed.

Lemma prepared_text_cells t n off :
  map (fun i => real_text_of k
                  (prepared_nodes k ent n (map split_char t) !! (i - off)))
    (cells_from k off (prepared_nodes k ent n (map split_char t)))
  = map (fun c => [c]) (List.filter (fun c => negb (is_whitespace c)) t).
Proof.
  revert n off. induction t as [|c t IH]; intros n off; [done|].
  cbn [map List.filter]. unfold split_char at 1 3.
  assert (Htail : forall n' (nd : node),
            map (fun i => real_text_of k
                            ((nd :: prepared_nodes k ent n' (map split_char t))
                               !! (i - off)))
              (cells_from k (S off) (prepared_nodes k ent n' (map split_char t)))
            = map (fun c => [c])
                (List.filter (fun c => negb (is_whitespace c)) t)).
  { intros n' nd. rewrite <- (IH n' (S off)). apply map_ext_in.
    intros i [Hle _]%list_elem_of_In%cells_from_spec.
    by replace (i - off) with (S (i - S off)) by lia. }
  destruct (is_whitespace c); cbn [prepared_nodes cells_from negb].
  - apply Htail.
  - rewrite char_wrapper_cell. cbn [map]. rewrite Htail, Nat.sub_diag.
    f_equal. cbn [lookup list_lookup real_text_of].
    rewrite prepared_cell_real. cbn. reflexivity.
Qed.

Lemma get_real_text e i :
  match get [i; k] e with Some x => textContent x | None => [] end
  = real_text_of k (kids e !! i).
Proof.
  cbn. destruct (kids e !! i) as [[s|c]|]; cbn; try done.
  by destruct (kids c !! k) as [[s|r]|].
Qed.

(** The characters of a freshly prepared text element. *)
Lemma prepared_text_chars a t n ts cs d log clk :
  scrambleGetChars
    (World (El a (prepared_nodes k ent n (map split_char t))) ts cs ent d log clk)
  = map (fun c => [c]) (List.filter (fun c => negb (is_whitespace c)) t).
Proof.
  unfold scrambleGetChars. cbn [el].
  change "scramble-real"%string with REAL.
  rewrite (prepared_reals k); [|apply prepared_text_nodes].
  rewrite map_map. unfold cells. cbn [kids].
  rewrite <- (prepared_text_cells t n 0). apply map_ext. intros i.
  by rewrite get_real_text, Nat.sub_0_r.
Qed.

End PreparedText.

(** ** The route table *)

Section Routes.

Import Nav.
Implicit Types (routes : list Route) (p : string).

Lemma resolve_spec routes p :
  NoDup (map path routes) ->
  match resolve routes p with
  | Some r => r ∈ routes /\ path r = p
              /\ forall r', r' ∈ routes -> path r' = p -> r' = r
  | None => forall r, r ∈ routes -> path r <> p
  end.
Proof.
  unfold resolve. induction routes as [|r0 routes IH]; intros Hnd; cbn.
  - by intros r ?%elem_of_nil.
  - apply NoDup_cons in Hnd as [Hnotin Hnd].
    destruct (String.eqb_spec (path r0) p) as [Heq|Hne].
    + split; [by left|]. split; [done|].
      intros r' [->|Hr']%elem_of_cons Hp; [done|].
      destruct Hnotin. rewrite Heq, <- Hp. apply list_elem_of_In, in_map.
      by apply list_elem_of_In.
    + specialize (IH Hnd). destruct (find _ routes) as [r|].
      * destruct IH as (Hin & Hp & Huniq). split; [by right|]. split; [done|].
        intros r' [->|Hr']%elem_of_cons Hp'; [done|]. by apply Huniq.
      * intros r [->|Hr]%elem_of_cons; [done|]. by apply IH.
Qed.

Lemma app_routes_NoDup home about work :
  NoDup (map path (app_routes home about work)).
Proof.
  cbn. repeat constructor; rewrite ?elem_of_cons, ?elem_of_nil; intuition discriminate.
Qed.

End Routes.

(** ** The model at work *)

Example glyph_at_the_ends :
  random_glyph Sample.zero = Some 35%N /\ random_glyph Sample.top = Some 91%N
  /\ floor (times Sample.top 22) = 21%Z.
Proof. by vm_compute. Qed.

Example b_o_chars : scrambleGetChars Sample.b_o = [[66]; [79]]%N.
Proof. vm_compute. reflexivity. Qed.

Example b_o_reals : querySelectorAll REAL (el Sample.b_o) = [[0; 2]; [2; 2]].
Proof. vm_compute. reflexivity. Qed.

Example hover_timer_times :
  map (fun dt => Qred (fst dt)) (timers (fst Sample.hover))
  = [0; 0; 120; 16; 136; 152; 50; 50; 170; 66; 186; 202]%Q.
Proof. vm_compute. reflexivity. Qed.

Example to_xy_done :
  scrambleGetChars (run_all (fst Sample.to_xy)) = [[88]; [89]]%N
  /\ timers (run_all (fst Sample.to_xy)) = [].
Proof. by vm_compute. Qed.

Example hover_run :
  calls (run_all (fst Sample.hover))
  = [Call 0 [0; 0]; Call 0 [0; 1]; Call 0 [1; 0]; Call 0 [1; 1];
     Call 0 [0; 2]; Call 0 [1; 2]].
Proof. vm_compute. reflexivity. Qed.

Example hover_cancelled_run :
  let w := run_all (cancel 0 (fst Sample.hover)) in
  calls w = [Call 0 [0; 0]; Call 0 [0; 1]; Call 0 [1; 0]; Call 0 [1; 1]]
  /\ style_at [0; 2] "opacity" w = Some (Keyword "1")
  /\ style_at [0; 2] "color" w = None
  /\ style_at [0; 0] "color" w = Some (Keyword "black").
Proof. by vm_compute. Qed.

Example two_clicks_in_a_row :
  let st := Nav.run (Nav.app_routes "H" "A" "W") Sample.as_is "/"
              [Nav.TransitionEnd; Nav.Click (Some (Some "/about"));
               Nav.Click (Some (Some "/work"))] in
  Nav.listeners st
  = [Nav.AfterHide 1 (Some (Nav.MkRoute "/about" "ABOUT" "A"));
     Nav.AfterHide 2 (Some (Nav.MkRoute "/work" "WORK" "W"))]
  /\ Nav.innerHTML st = "H"%string
  /\ Nav.listeners (Nav.transitionend st)
     = [Nav.AfterShow 1 (Nav.MkPage "A"); Nav.AfterShow 2 (Nav.MkPage "W")]
  /\ Nav.innerHTML (Nav.transitionend st) = "W"%string.
Proof. vm_compute. done. Qed.

Example click_before_first_show_ends :
  let st := Nav.run (Nav.app_routes "H" "A" "W") Sample.as_is "/"
              [Nav.Click (Some (Some "/about"))] in
  Nav.innerHTML (Nav.boot (Nav.app_routes "H" "A" "W") "/") = "H"%string
  /\ Nav.opacity (Nav.boot (Nav.app_routes "H" "A" "W") "/") = Some "1"%string
  /\ Nav.innerHTML st = "A"%string
  /\ Nav.listeners st
     = [Nav.AfterShow 0 (Nav.MkPage "H"); Nav.AfterShow 1 (Nav.MkPage "A")].
Proof. vm_compute. done. Qed.

Example query_in_href :
  let st := Nav.run (Nav.app_routes "H" "A" "W") Sample.no_query "/"
              [Nav.TransitionEnd; Nav.Click (Some (Some "/about?x=1"));
               Nav.TransitionEnd; Nav.TransitionEnd] in
  Nav.pathname st = "/about"%string /\ Nav.listeners st = []
  /\ Nav.innerHTML st = "H"%string.
Proof. vm_compute. done. Qed.

Example unknown_path_shows_home :
  Nav.innerHTML (Nav.boot (Nav.app_routes "H" "A" "W") "/nowhere") = "H"%string.
Proof. reflexivity. Qed.
(** ** References into the tree, and document order *)

Section Paths.

Implicit Types (p q r s : ref) (e c : HTMLElement).

Lemma get_app p s e : get (p ++ s) e = get p e ≫= get s.
Proof.
  revert e. induction p as [|i p IH]; intros e; [done|].
  cbn [app get]. destruct (kids e !! i) as [[t|c]|]; [done | apply IH | done].
Qed.

Lemma get_text_only s c :
  forallb is_text (kids c) = true -> s <> [] -> get s c = None.
Proof.
  intros Ht Hs. destruct s as [|j s]; [done|]. cbn [get].
  destruct (kids c !! j) as [[t|c']|] eqn:Hj; [done| |done].
  apply (forallb_lookup _ _ _ _ Ht) in Hj. done.
Qed.

Lemma is_prefix_app p r : is_prefix p r = true -> exists s, r = p ++ s.
Proof.
  revert r. induction p as [|i p IH]; intros r H; [by exists r|].
  destruct r as [|j r]; [done|]. cbn in H.
  apply andb_prop in H as [Hij H]. apply Nat.eqb_eq in Hij as ->.
  destruct (IH _ H) as [s ->]. by exists s.
Qed.

Lemma is_prefix_of_app p s : is_prefix p (p ++ s) = true.
Proof. induction p as [|i p IH]; [done|]. cbn. by rewrite Nat.eqb_refl. Qed.

Lemma apart_sym p q : apart p q = apart q p.
Proof. unfold apart. apply andb_comm. Qed.


(** A change at [p] is not seen at or below an element apart from [p]. *)
Lemma get_modify_apart f p q e :
  apart p q = true -> get q (modify f p e) = get q e.
Proof.
  unfold apart. revert q e. induction p as [|i p IH]; intros q e Hpq; [done|].
  destruct q as [|j q]; [by rewrite andb_false_r in Hpq|].
  cbn in Hpq. cbn [get]. destruct (decide (i = j)) as [->|Hne].
  - rewrite Nat.eqb_refl in Hpq. cbn in Hpq. rewrite kids_modify_eq.
    destruct (kids e !! j) as [[t|c]|]; cbn; [done | by apply IH | done].
  - by rewrite kids_modify_ne.
Qed.

Lemma apart_app p q s : apart p q = true -> apart p (q ++ s) = true.
Proof.
  unfold apart. revert q. induction p as [|i p IH]; intros q Hpq; [done|].
  destruct q as [|j q]; [by rewrite andb_false_r in Hpq|].
  cbn [is_prefix app] in *. rewrite (Nat.eqb_sym j i) in *.
  destruct (i =? j); [|done]. cbn [negb andb] in *. by apply IH.
Qed.

Lemma doc_ltb_irrefl p : doc_ltb p p = false.
Proof.
  induction p as [|i p IH]; [done|]. cbn [doc_ltb].
  by rewrite Nat.ltb_irrefl, Nat.eqb_refl.
Qed.



Lemma in_order_cons p l :
  in_order (p :: l) = true
  <-> (forall q, q ∈ l -> doc_ltb p q = true) /\ in_order l = true.
Proof.
  cbn. rewrite andb_true_iff, forallb_forall.
  split; intros [H1 H2]; (split; [|done]); intros q Hq; apply H1;
    by apply list_elem_of_In.
Qed.

Lemma in_order_app l1 l2 :
  in_order (l1 ++ l2) = true
  <-> in_order l1 = true /\ in_order l2 = true
      /\ forall p q, p ∈ l1 -> q ∈ l2 -> doc_ltb p q = true.
Proof.
  induction l1 as [|x l1 IH].
  - cbn [app]. split; [|tauto]. intros H. split; [done|]. split; [done|].
    by intros p q ?%elem_of_nil.
  - change ((x :: l1) ++ l2) with (x :: (l1 ++ l2)).
    rewrite !in_order_cons, IH. split.
    + intros (Hx & H1 & H2 & H12). split; [split; [|done]|split; [done|]].
      * intros q Hq. apply Hx, elem_of_app. by left.
      * intros p q [->|Hp]%elem_of_cons Hq.
        -- apply Hx, elem_of_app. by right.
        -- by apply H12.
    + intros ((Hx & H1) & H2 & H12). split; [|split; [done|split; [done|]]].
      * intros q [Hq|Hq]%elem_of_app; [by apply Hx|].
        apply H12; [|done]. by left.
      * intros p q Hp Hq. apply H12; [|done]. by right.
Qed.

Lemma in_order_map_cons i l : in_order (map (cons i) l) = in_order l.
Proof.
  induction l as [|p l IH]; [done|]. cbn [map in_order]. rewrite IH.
  replace (forallb (doc_ltb (i :: p)) (map (cons i) l))
    with (forallb (doc_ltb p) l); [done|].
  clear IH. induction l as [|q l IHl]; [done|]. cbn [map forallb doc_ltb].
  by rewrite IHl, Nat.ltb_irrefl, Nat.eqb_refl.
Qed.


Lemma disjoint_cons p l :
  disjoint (p :: l) = true
  <-> (forall q, q ∈ l -> apart p q = true) /\ disjoint l = true.
Proof.
  cbn. rewrite andb_true_iff, forallb_forall.
  split; intros [H1 H2]; (split; [|done]); intros q Hq; apply H1;
    by apply list_elem_of_In.
Qed.

Lemma disjoint_elem l p q :
  disjoint l = true -> p ∈ l -> q ∈ l -> p = q \/ apart p q = true.
Proof.
  induction l as [|x l IH]; intros Hd Hp Hq; [by apply elem_of_nil in Hp|].
  apply disjoint_cons in Hd as [Hx Hd].
  apply elem_of_cons in Hp as [->|Hp]; apply elem_of_cons in Hq as [->|Hq].
  - by left.
  - right. by apply Hx.
  - right. rewrite apart_sym. by apply Hx.
  - by apply IH.
Qed.


End Paths.

(** ** What [querySelectorAll] returns *)

Section Selected.

Implicit Types (p q r s : ref) (e c : HTMLElement) (ks : list node).



Lemma HTMLElement_children_ind (P : HTMLElement -> Prop) :
  (forall a ks, (forall j c, ks !! j = Some (inr c) -> P c) -> P (El a ks)) ->
  forall e, P e.
Proof.
  intros H. fix IH 1. intros [a ks]. apply H.
  induction ks as [|n ks IHks]; intros j c' Hj.
  - rewrite lookup_nil in Hj. discriminate Hj.
  - destruct j as [|j].
    + destruct n as [t|c]; [discriminate Hj|]. injection Hj as <-. apply IH.
    + exact (IHks j c' Hj).
Qed.



End Selected.

(** ** The cells [scramblePrepare] makes of the wrappers *)

Section Made.

Variable k : nat.
Variable ent : nat -> unit_double.
Implicit Types (p q r s : ref) (e : HTMLElement) (chars : list ref).


Lemma cells_made_apart chars n q e :
  Forall (fun c => apart c q = true) chars ->
  get q (cells_made k ent n chars e) = get q e.
Proof.
  revert n e. induction chars as [|c chars IH]; intros n e Hall; [done|].
  apply Forall_cons in Hall as [Hc Hall]. cbn [cells_made].
  rewrite IH by done. by apply get_modify_apart.
Qed.

(** Every wrapper ends up as the cell made of it. *)
Lemma cells_made_cell chars n c c0 e :
  disjoint chars = true -> c ∈ chars -> get c e = Some c0 ->
  exists n', forall s,
    get (c ++ s) (cells_made k ent n chars e)
    = get s (prepared_cell k ent n' c0).
Proof.
  revert n e. induction chars as [|x chars IH]; intros n e Hd Hc He;
    [by apply elem_of_nil in Hc|].
  apply disjoint_cons in Hd as [Hx Hd]. cbn [cells_made].
  apply elem_of_cons in Hc as [->|Hc].
  - exists n. intros s. rewrite cells_made_apart.
    + by rewrite get_app, get_modify_same, He.
    + apply Forall_forall. intros q Hq. apply apart_app.
      rewrite apart_sym. by apply Hx.
  - apply IH; [done..|]. rewrite get_modify_apart; [done|]. by apply Hx.
Qed.




End Made.

Section PrepareSplit.

Variable k : nat.
Implicit Types (w : world) (split : HTMLElement * list ref).

Lemma foldl_prepare_char chars w :
  foldl (fun w char => prepare_char k char w) w chars
  = World (cells_made k (entropy w) (draws w) chars (el w))
      (timers w) (cancelled w) (entropy w) (draws w + k * length chars)
      (calls w) (clock w).
Proof.
  revert w. induction chars as [|char chars IH]; intros w.
  - destruct w. cbn. f_equal. lia.
  - cbn [foldl]. rewrite IH, prepare_char_eq.
    cbn [el timers cancelled entropy draws calls clock cells_made length].
    f_equal. lia.
Qed.

(** The loop of [scramblePrepare] in closed form. *)
Lemma prepare_split_eq split w :
  prepare_split k split w
  = World (cells_made k (entropy w) (draws w) (snd split) (fst split))
      (timers w) (cancelled w) (entropy w) (draws w + k * length (snd split))
      (calls w) (clock w).
Proof. unfold prepare_split. by rewrite foldl_prepare_char. Qed.

Lemma scramblePrepare_split w :
  scramblePrepare k w = prepare_split k (splitText (el w)) w.
Proof. unfold scramblePrepare, prepare_split. by destruct (splitText (el w)). Qed.

Lemma well_split_spec split :
  well_split split = true
  <-> Forall (fun c => is_Some (get c (fst split))) (snd split)
      /\ disjoint (snd split) = true /\ in_order (snd split) = true.
Proof.
  unfold well_split. rewrite !andb_true_iff, forallb_forall, Forall_forall.
  split.
  - intros [[H1 H2] H3]. split; [|done]. intros c Hc%list_elem_of_In.
    apply H1 in Hc. by destruct (get c (fst split)).
  - intros (H1 & H2 & H3). split; [split; [|done]|done].
    intros c Hc%list_elem_of_In. by destruct (H1 c Hc) as [c0 ->].
Qed.



End PrepareSplit.

(** ** The splitter as modelled *)

Section Splitter.

Implicit Types (e c : HTMLElement) (ks : list node) (char : ref).

Lemma wrapper_indices_order off ns :
  in_order (map (fun j => [j]) (wrapper_indices off ns)) = true.
Proof.
  revert off. induction ns as [|[nd [|] ] ns IH]; intros off;
    cbn [wrapper_indices map in_order]; [done| |done].
  rewrite IH, andb_true_r. apply forallb_forall.
  intros q (j & <- & Hj%list_elem_of_In)%in_map_iff.
  apply wrapper_indices_spec in Hj as [Hle _]. cbn [doc_ltb].
  replace (off <? j) with true; [done|]. symmetry. apply Nat.ltb_lt. lia.
Qed.

(** What [split_kids] returns when the children are split by [split]:
    the wrappers in document order, each a [span] around one code unit
    in the new children. *)
Lemma split_kids_spec (split : HTMLElement -> HTMLElement * list ref) ks i :
  (forall j c, ks !! j = Some (inr c) ->
               in_order (snd (split c)) = true
               /\ Forall (fun ch => exists u, get ch (fst (split c))
                                              = Some (char_wrapper u))
                    (snd (split c))) ->
  in_order (snd (split_kids split ks i)) = true
  /\ Forall (fun char =>
               exists j rest c' u,
                 char = (i + j) :: rest
                 /\ fst (split_kids split ks i) !! j = Some (inr c')
                 /\ get rest c' = Some (char_wrapper u))
       (snd (split_kids split ks i)).
Proof.
  revert i. induction ks as [|[t|c] ks IH]; intros i Hsub.
  - split; [done|]. constructor.
  - cbn [split_kids].
    destruct (IH (i + length (split_node (inl t)))) as [Ho Hw].
    { intros j c Hj. by apply (Hsub (S j)). }
    destruct (split_kids split ks (i + length (split_node (inl t))))
      as [ks' chars]. cbn [fst snd] in *.
    split.
    + apply in_order_app. split; [apply wrapper_indices_order|].
      split; [done|]. intros p q (j & -> & Hj)%list_elem_of_fmap Hq.
      apply wrapper_indices_spec in Hj as (Hle & nd & Hnd).
      apply lookup_lt_Some in Hnd.
      destruct (proj1 (Forall_forall _ _) Hw q Hq) as (j' & r & _ & _ & -> & _).
      cbn [doc_ltb]. replace (j <? i + length (split_node (inl t)) + j') with true; [done|].
      symmetry. apply Nat.ltb_lt. lia.
    + apply Forall_app. split.
      * apply Forall_forall. intros p (j & -> & Hj)%list_elem_of_fmap.
        apply wrapper_indices_spec in Hj as (Hle & nd & Hnd).
        destruct (split_node_flagged (inl t) nd) as (u & -> & _).
        { apply list_elem_of_lookup. eauto. }
        exists (j - i), [], (char_wrapper u), u.
        split; [f_equal; lia|]. split; [|done].
        rewrite lookup_app_l by (rewrite length_map; by apply lookup_lt_Some in Hnd).
        by rewrite list_lookup_fmap, Hnd.
      * apply Forall_forall. intros p Hp.
        destruct (proj1 (Forall_forall _ _) Hw p Hp) as (j & r & c' & u & -> & Hj & Hr).
        exists (length (split_node (inl t)) + j), r, c', u.
        split; [f_equal; lia|]. split; [|done].
        rewrite lookup_app_r by (rewrite length_map; lia).
        rewrite length_map.
        by replace (length (split_node (inl t)) + j - length (split_node (inl t)))
          with j by lia.
  - cbn [split_kids].
    destruct (Hsub 0 c eq_refl) as [Hco Hcw].
    destruct (IH (S i)) as [Ho Hw].
    { intros j c' Hj. by apply (Hsub (S j)). }
    destruct (split c) as [c1 inner].
    destruct (split_kids split ks (S i)) as [ks' chars]. cbn [fst snd] in *.
    split.
    + apply in_order_app. split; [by rewrite in_order_map_cons|].
      split; [done|]. intros p q (r & -> & Hr)%list_elem_of_fmap Hq.
      destruct (proj1 (Forall_forall _ _) Hw q Hq) as (j' & r' & _ & _ & -> & _).
      cbn [doc_ltb]. replace (i <? S i + j') with true; [done|].
      symmetry. apply Nat.ltb_lt. lia.
    + apply Forall_app. split.
      * apply Forall_forall. intros p (r & -> & Hr)%list_elem_of_fmap.
        destruct (proj1 (Forall_forall _ _) Hcw r Hr) as [u Hu].
        exists 0, r, c1, u. split; [f_equal; lia|]. done.
      * apply Forall_forall. intros p Hp.
        destruct (proj1 (Forall_forall _ _) Hw p Hp) as (j & r & c' & u & -> & Hj & Hr).
        exists (S j), r, c', u. split; [f_equal; lia|]. done.
Qed.

(** The wrappers of the modelled splitter: in document order, each a
    [span] around one code unit. *)
Lemma splitText_wrappers e :
  in_order (snd (splitText e)) = true
  /\ Forall (fun ch => exists u, get ch (fst (splitText e))
                                 = Some (char_wrapper u))
       (snd (splitText e)).
Proof.
  induction e as [a ks IH] using HTMLElement_children_ind.
  cbn [splitText].
  destruct (split_kids_spec splitText ks 0 IH) as [Ho Hw].
  destruct (split_kids splitText ks 0) as [ks' chars]. cbn [fst snd] in *.
  split; [done|]. apply Forall_forall. intros p Hp.
  destruct (proj1 (Forall_forall _ _) Hw p Hp) as (j & r & c' & u & -> & Hj & Hr).
  exists u. cbn [get kids Nat.add]. by rewrite Hj.
Qed.

(** Wrappers that hold text only and are listed in document order do not
    lie inside one another. *)
Lemma wrappers_disjoint e chars :
  in_order chars = true ->
  Forall (fun ch => exists u, get ch e = Some (char_wrapper u)) chars ->
  disjoint chars = true.
Proof.
  assert (Hpre : forall p q u,
             get p e = Some (char_wrapper u) -> is_Some (get q e) ->
             p <> q -> is_prefix p q = false).
  { intros p q u Hp [c Hq] Hne. destruct (is_prefix p q) eqn:Hpq; [|done].
    apply is_prefix_app in Hpq as [s ->]. rewrite get_app, Hp in Hq.
    cbn in Hq. rewrite get_text_only in Hq; [done..|].
    intros ->. by rewrite app_nil_r in Hne. }
  induction chars as [|p chars IH]; intros Ho Hw; [done|].
  apply in_order_cons in Ho as [Hlt Ho]. apply Forall_cons in Hw as [[u Hp] Hw].
  apply disjoint_cons. split; [|by apply IH].
  intros q Hq. destruct (proj1 (Forall_forall _ _) Hw q Hq) as [u' Hu'].
  assert (Hne : p <> q).
  { intros ->. specialize (Hlt q Hq). by rewrite doc_ltb_irrefl in Hlt. }
  unfold apart. rewrite (Hpre p q u), (Hpre q p u'); by eauto.
Qed.

Lemma splitText_disjoint e : disjoint (snd (splitText e)) = true.
Proof.
  destruct (splitText_wrappers e) as [Ho Hw].
  by apply (wrappers_disjoint (fst (splitText e))).
Qed.

Lemma splitText_well_split e : well_split (splitText e) = true.
Proof.
  destruct (splitText_wrappers e) as [Ho Hw].
  apply well_split_spec. split; [|split; [apply splitText_disjoint | done] ].
  apply Forall_forall. intros p Hp.
  destruct (proj1 (Forall_forall _ _) Hw p Hp) as [u ->]. eauto.
Qed.

(** The cell [scramblePrepare] makes of a wrapper of the modelled
    splitter. *)
Lemma scramblePrepare_cell k w char :
  char ∈ snd (splitText (el w)) ->
  exists u n,
    get char (fst (splitText (el w))) = Some (char_wrapper u)
    /\ forall s, get (char ++ s) (el (scramblePrepare k w))
                 = get s (prepared_cell k (entropy w) n (char_wrapper u)).
Proof.
  intros Hchar. destruct (splitText_wrappers (el w)) as [Ho Hw].
  destruct (proj1 (Forall_forall _ _) Hw char Hchar) as [u Hu].
  rewrite scramblePrepare_split, prepare_split_eq. cbn [el].
  destruct (cells_made_cell k (entropy w) _ (draws w) char _ _
              (splitText_disjoint (el w)) Hchar Hu) as [n Hn].
  by exists u, n.
Qed.

End Splitter.

Example nested_text_is_split :
  scrambleGetChars
    (scramblePrepare 2
       (Sample.fresh
          (El (Attrs "span" "" false ∅)
             [inl [65]%N; inr (El (Attrs "b" "" false ∅) [inl [66]%N])])
          Sample.zeros))
  = [[65]; [66]]%N.
Proof. vm_compute. reflexivity. Qed.

Example second_prepare_wraps_again :
  length (querySelectorAll REAL (el Sample.hi)) = 2
  /\ length (querySelectorAll REAL (el Sample.hi_twice)) = 8.
Proof. vm_compute. done. Qed.
(** ** The calls [navigate] leaves suspended *)

Section Rest.

Import Nav Settle.
Implicit Types (st : app) (k : listener) (ks : list listener).
Variable routes : list Route.
Variable url : string -> string -> option string.
Hypothesis Hroutes : routes <> [].

Lemma route_for_some p : exists r, route_for routes p = Some r.
Proof.
  unfold route_for. destruct (resolve routes p) as [r|]; [by exists r|].
  destruct routes as [|r rs]; [done|]. by exists r.
Qed.

Lemma resume_shows ks st :
  Forall (fun k => is_show k = true) ks ->
  let st' := foldl (fun st k => resume k st) st ks in
  pathname st' = pathname st /\ innerHTML st' = innerHTML st
  /\ opacity st' = opacity st /\ listeners st' = listeners st
  /\ currentPage st'
     = match last ks with
       | Some k => Some (MkPage (dest k))
       | None => currentPage st
       end.
Proof.
  induction ks as [|k ks IH] using rev_ind; intros Hks; [done|].
  apply Forall_app in Hks as [Hks Hk]. apply Forall_cons in Hk as [Hk _].
  rewrite foldl_app. cbn [foldl]. rewrite last_snoc.
  destruct (IH Hks) as (H1 & H2 & H3 & H4 & _).
  destruct k as [call route|call [h] ]; [done|]. by cbn.
Qed.

Lemma resume_hides ks st :
  Forall (fun k => exists call r, k = AfterHide call (Some r)) ks ->
  let st' := foldl (fun st k => resume k st) st ks in
  pathname st' = pathname st /\ currentPage st' = currentPage st
  /\ (ks = [] -> innerHTML st' = innerHTML st /\ opacity st' = opacity st)
  /\ exists shows,
       listeners st' = listeners st ++ shows
       /\ Forall (fun k => is_show k = true) shows
       /\ length shows = length ks
       /\ forall k, last ks = Some k ->
            exists k', last shows = Some k' /\ dest k' = dest k
                       /\ innerHTML st' = dest k
                       /\ opacity st' = Some "1"%string.
Proof.
  induction ks as [|k ks IH] using rev_ind; intros Hks.
  - cbn. do 3 (split; [done|]). exists []. by rewrite app_nil_r.
  - apply Forall_app in Hks as [Hks Hk]. apply Forall_cons in Hk as [Hk _].
    destruct Hk as (call & r & ->). rewrite foldl_app. cbn [foldl].
    destruct (IH Hks) as (H1 & H2 & _ & shows & H3 & H4 & H5 & _).
    cbn [resume enter create_and_show pathname currentPage listeners
           innerHTML opacity].
    split; [done|]. split; [done|]. split.
    { intros H. by apply app_eq_nil in H as [_ H]. }
    exists (shows ++ [AfterShow call (MkPage (html r))]).
    rewrite H3, <- app_assoc. split; [done|]. split.
    { apply Forall_app. split; [done|]. by constructor. }
    split; [by rewrite !length_app, H5|].
    intros k. rewrite !last_snoc. intros [= <-]. eexists. by split.
Qed.

(** A call made with a current page leaves the markup, fades the
    container out and waits. *)
Lemma navigate_hides path st :
  currentPage st <> None ->
  innerHTML (navigate routes path st) = innerHTML st
  /\ opacity (navigate routes path st) = Some "0"%string
  /\ listeners (navigate routes path st)
     = listeners st ++ [AfterHide (started st) (route_for routes path)]
  /\ currentPage (navigate routes path st) = currentPage st
  /\ pathname (navigate routes path st) = pathname st.
Proof. unfold navigate. cbn. by destruct (currentPage st). Qed.

(** A call made without a current page puts its markup in at once. *)
Lemma navigate_enters path st :
  currentPage st = None ->
  exists r, route_for routes path = Some r
            /\ innerHTML (navigate routes path st) = html r
            /\ opacity (navigate routes path st) = Some "1"%string
            /\ listeners (navigate routes path st)
               = listeners st ++ [AfterShow (started st) (MkPage (html r))]
            /\ currentPage (navigate routes path st) = None
            /\ pathname (navigate routes path st) = pathname st.
Proof.
  intros Hnone. destruct (route_for_some path) as [r Hr]. exists r.
  unfold navigate. cbn. by rewrite Hnone, Hr.
Qed.

Lemma navigate_shape path st shows hides :
  queue st shows hides -> shape (navigate routes path st).
Proof.
  intros (Hl & Hs & Hh & Hnone).
  destruct (currentPage st) as [pg|] eqn:Hpage.
  - destruct (navigate_hides path st) as (H1 & H2 & H3 & H4 & H5);
      [by rewrite Hpage|].
    destruct (route_for_some path) as [r Hr]. rewrite Hr in H3.
    exists shows, (hides ++ [AfterHide (started st) (Some r)]). split.
    + split; [by rewrite H3, Hl, <- app_assoc|]. split; [done|]. split.
      { apply Forall_app. split; [done|]. constructor; [|done]. eauto. }
      rewrite H4, Hpage. done.
    + intros H. by apply app_eq_nil in H as [_ H].
  - destruct (navigate_enters path st Hpage) as (r & Hr & H1 & H2 & H3 & H4 & H5).
    specialize (Hnone eq_refl). subst hides. rewrite app_nil_r in Hl.
    exists (shows ++ [AfterShow (started st) (MkPage (html r))]), []. split.
    + split; [by rewrite H3, Hl, app_nil_r|]. split.
      { apply Forall_app. split; [done|]. by constructor. }
      done.
    + intros _. split; [done|]. intros k. rewrite last_snoc.
      intros [= <-]. by rewrite H1.
Qed.

Lemma navigate_aim st :
  aim routes (navigate routes (pathname st) st).
Proof.
  unfold aim, target. destruct (currentPage st) as [pg|] eqn:Hpage.
  - destruct (navigate_hides (pathname st) st) as (H1 & H2 & H3 & H4 & H5);
      [by rewrite Hpage|].
    rewrite H3, H5, last_snoc. cbn [dest].
    by destruct (route_for routes (pathname st)).
  - destruct (navigate_enters (pathname st) st Hpage)
      as (r & Hr & H1 & H2 & H3 & H4 & H5).
    by rewrite H3, H5, last_snoc, Hr.
Qed.

(** At a transition end every suspended call goes on: those that waited
    for a fade-in are over, those that waited for a fade-out put their
    markup in, one after the other, and wait for the fade-in. *)
Lemma transitionend_queue st shows hides :
  queue st shows hides ->
  (hides = [] ->
   opacity st = Some "1"%string
   /\ forall k, last shows = Some k -> innerHTML st = dest k) ->
  exists shows',
    listeners (transitionend st) = shows'
    /\ Forall (fun k => is_show k = true) shows'
    /\ length shows' = length hides
    /\ pathname (transitionend st) = pathname st
    /\ opacity (transitionend st) = Some "1"%string
    /\ match last hides with
       | Some k =>
           (exists k', last shows' = Some k' /\ dest k' = dest k)
           /\ innerHTML (transitionend st) = dest k
           /\ currentPage (transitionend st)
              = match last shows with
                | Some k => Some (MkPage (dest k))
                | None => currentPage st
                end
       | None =>
           innerHTML (transitionend st) = innerHTML st
           /\ currentPage (transitionend st)
              = match last shows with
                | Some k => Some (MkPage (innerHTML st))
                | None => currentPage st
                end
       end.
Proof.
  intros (Hl & Hs & Hh & Hnone) Hlast.
  unfold transitionend. cbn zeta. rewrite Hl, foldl_app.
  set (st0 := App _ _ _ _ _ _ [] _ _).
  destruct (resume_shows shows st0 Hs) as (S1 & S2 & S3 & S4 & S5).
  cbn zeta in S1, S2, S3, S4, S5.
  set (st1 := foldl (fun st k => resume k st) st0 shows) in *.
  destruct (resume_hides hides st1 Hh)
    as (T1 & T2 & T3 & shows' & T4 & T5 & T6 & T7).
  cbn zeta in T1, T2, T3, T4, T5, T6, T7.
  set (st2 := foldl (fun st k => resume k st) st1 hides) in *.
  rewrite S4 in T4. change (listeners st0 ++ shows') with shows' in T4.
  exists shows'. split; [done|]. split; [done|]. split; [done|].
  split; [by rewrite T1, S1|].
  destruct (last hides) as [kh|] eqn:Hkh.
  - destruct (T7 kh eq_refl) as (k' & Hk' & Hd & Hin & Hop).
    split; [done|]. split; [by exists k'|]. split; [done|].
    by rewrite T2, S5.
  - apply last_None in Hkh. subst hides.
    destruct (T3 eq_refl) as [Hin Hop]. destruct (Hlast eq_refl) as [Hop0 Hk].
    split; [by rewrite Hop, S3|]. split; [by rewrite Hin, S2|].
    rewrite T2, S5. destruct (last shows) as [k|]; [|done].
    change (currentPage st0) with (currentPage st).
    by rewrite (Hk k eq_refl).
Qed.

Lemma transitionend_shape st :
  shape st ->
  shape (transitionend st)
  /\ Forall (fun k => is_show k = true) (listeners (transitionend st)).
Proof.
  intros (shows & hides & Hq & Hlast).
  destruct (transitionend_queue st shows hides Hq Hlast)
    as (shows' & Hl & Hs & Hlen & Hp & Hop & Hend).
  split; [|by rewrite Hl].
  exists shows', []. split.
  - split; [by rewrite Hl, app_nil_r|]. done.
  - intros _. split; [done|]. intros k' Hk'.
    destruct (last hides) as [kh|] eqn:Hkh.
    + destruct Hend as ((k'' & Hk'' & Hd) & Hin & _).
      rewrite Hk' in Hk''. injection Hk'' as <-. by rewrite Hd.
    + apply last_None in Hkh. subst hides. cbn in Hlen.
      apply nil_length_inv in Hlen. rewrite Hlen in Hk'. discriminate Hk'.
Qed.

Lemma transitionend_aim st :
  shape st -> aim routes st -> aim routes (transitionend st).
Proof.
  intros (shows & hides & Hq & Hlast) Haim.
  destruct (transitionend_queue st shows hides Hq Hlast)
    as (shows' & Hl & Hs & Hlen & Hp & Hop & Hend).
  destruct Hq as (Hq & _).
  unfold aim, target in *. rewrite Hl, Hp. rewrite Hq in Haim.
  destruct (last hides) as [kh|] eqn:Hkh.
  - destruct Hend as ((k' & -> & Hd) & _). rewrite Hd.
    by rewrite last_app, Hkh in Haim.
  - apply last_None in Hkh. subst hides. cbn in Hlen.
    apply nil_length_inv in Hlen. rewrite Hlen. cbn [last].
    destruct Hend as [-> ->]. rewrite app_nil_r in Haim.
    destruct (Hlast eq_refl) as [_ Hk].
    destruct (last shows) as [k|] eqn:Hks.
    + rewrite (Hk k eq_refl). by rewrite Haim.
    + exact Haim.
Qed.

Lemma transitionend_shows st :
  Forall (fun k => is_show k = true) (listeners st) ->
  listeners (transitionend st) = [].
Proof.
  intros Hs. unfold transitionend. cbn zeta.
  set (st0 := App _ _ _ _ _ _ [] _ _).
  by destruct (resume_shows (listeners st) st0 Hs) as (_ & _ & _ & -> & _).
Qed.

Lemma end_or_call (i : input) : i = TransitionEnd \/ i <> TransitionEnd.
Proof. destruct i; [by right..|by left]. Qed.

(** Every input but a transition end is a [navigate] call or nothing. *)
Lemma step_calls st i :
  i <> TransitionEnd ->
  step routes url st i = st
  \/ exists path st',
       step routes url st i = navigate routes path st'
       /\ innerHTML st' = innerHTML st /\ opacity st' = opacity st
       /\ listeners st' = listeners st /\ currentPage st' = currentPage st
       /\ (stored_as_is url i -> path = pathname st').
Proof.
  intros Hi. destruct i as [anchor| | |]; cbn [step]; [| | |done].
  - unfold click. destruct anchor as [ [href|]|]; [|by left..].
    destruct (_ || _); [by left|]. unfold push.
    destruct (String.eqb href (pathname st)); [by left|].
    destruct (url (pathname st) href) as [stored|] eqn:Hurl; [|by left].
    right. exists href, (pushState stored st).
    split; [done|]. do 4 (split; [done|]).
    cbn [stored_as_is pushState pathname]. intros H.
    rewrite H in Hurl. by injection Hurl.
  - unfold go_back. destruct (back st) as [|p older]; [by left|].
    right. eexists p, _. split; [done|]. by cbn.
  - unfold go_forward. destruct (forward st) as [|p newer]; [by left|].
    right. eexists p, _. split; [done|]. by cbn.
Qed.

Lemma queue_same st st' shows hides :
  listeners st' = listeners st -> currentPage st' = currentPage st ->
  queue st shows hides -> queue st' shows hides.
Proof. intros Hl Hp (H1 & H2 & H3 & H4). by rewrite <- Hl, <- Hp in *. Qed.

Lemma step_shape st i : shape st -> shape (step routes url st i).
Proof.
  intros Hs. destruct (end_or_call i) as [->|Hi].
  - by apply transitionend_shape.
  - destruct (step_calls st i Hi)
      as [-> | (path & st' & -> & _ & _ & Hl & Hp & _)]; [done|].
    destruct Hs as (shows & hides & Hq & _).
    apply (navigate_shape path st' shows hides).
    by apply (queue_same st).
Qed.

Lemma boot_shape p : shape (boot routes p).
Proof. unfold boot. by apply (navigate_shape p _ [] []). Qed.

Lemma run_shape p inputs : shape (run routes url p inputs).
Proof.
  unfold run. induction inputs as [|i inputs IH] using rev_ind.
  - apply boot_shape.
  - rewrite foldl_app. cbn [foldl]. by apply step_shape.
Qed.

Lemma step_aim st i :
  shape st -> aim routes st -> stored_as_is url i ->
  aim routes (step routes url st i).
Proof.
  intros Hs Ha Hurl. destruct (end_or_call i) as [->|Hi].
  - by apply transitionend_aim.
  - destruct (step_calls st i Hi)
      as [-> | (path & st' & -> & _ & _ & _ & _ & Hp)]; [done|].
    rewrite (Hp Hurl). apply navigate_aim.
Qed.

Lemma run_aim p inputs :
  Forall (stored_as_is url) inputs -> aim routes (run routes url p inputs).
Proof.
  unfold run. induction inputs as [|i inputs IH] using rev_ind; intros Hall.
  - unfold boot. apply (navigate_aim (App p [] [] "" None None [] None 0)).
  - apply Forall_app in Hall as [Hall Hi]. apply Forall_cons in Hi as [Hi _].
    rewrite foldl_app. cbn [foldl].
    apply step_aim; [apply run_shape | by apply IH | done].
Qed.

(** A call that waits for a fade-out was made with a current page. *)
Lemma hide_has_page st call route :
  shape st -> AfterHide call route ∈ listeners st -> currentPage st <> None.
Proof.
  intros (shows & hides & (Hl & Hs & Hh & Hnone) & _) Hin Hpage.
  rewrite Hl, (Hnone Hpage), app_nil_r in Hin.
  by apply (proj1 (Forall_forall _ _) Hs) in Hin.
Qed.

Lemma rest_opacity st :
  shape st ->
  (forall call route, AfterHide call route ∉ listeners st) ->
  opacity st = Some "1"%string.
Proof.
  intros (shows & hides & (Hl & Hs & Hh & Hnone) & Hlast) Hno.
  destruct hides as [|k hides]; [by destruct (Hlast eq_refl)|].
  apply Forall_cons in Hh as [(call & r & ->) _].
  destruct (Hno call (Some r)). rewrite Hl. apply elem_of_app. right.
  by left.
Qed.

(** The transition end after the last call that waits for a fade-out:
    the markup of that call is in and the container fades in. *)
Lemma transitionend_last_hide st call r :
  shape st -> last (listeners st) = Some (AfterHide call (Some r)) ->
  innerHTML (transitionend st) = html r
  /\ opacity (transitionend st) = Some "1"%string
  /\ Forall (fun k => is_show k = true) (listeners (transitionend st)).
Proof.
  intros (shows & hides & Hq & Hlast) Hk.
  destruct (transitionend_queue st shows hides Hq Hlast)
    as (shows' & Hl & Hs & Hlen & Hp & Hop & Hend).
  destruct Hq as (Hq & Hshows & _). rewrite Hq in Hk.
  split; [|split; [done | by rewrite Hl] ].
  destruct hides as [|kh hides _] using rev_ind.
  - rewrite app_nil_r in Hk. apply last_Some_elem_of in Hk.
    by apply (proj1 (Forall_forall _ _) Hshows) in Hk.
  - rewrite app_assoc, last_snoc in Hk. injection Hk as ->.
    rewrite last_snoc in Hend. by destruct Hend as (_ & -> & _).
Qed.

End Rest.

Section Grounded.

Import Nav Settle.
Implicit Types (st : app) (k : listener) (ks : list listener).
Variable routes : list Route.
Variable url : string -> string -> option string.
Hypothesis Hroutes : routes <> [].

Lemma route_for_elem p r : route_for routes p = Some r -> r ∈ routes.
Proof.
  unfold route_for, resolve.
  destruct (find _ routes) as [r'|] eqn:Hfind.
  - intros [= <-]. apply find_some in Hfind as [Hin _].
    by apply list_elem_of_In.
  - intros H. by apply list_elem_of_lookup_2 in H.
Qed.

Lemma shows_no_hide ks call route :
  Forall (fun k => is_show k = true) ks -> AfterHide call route ∉ ks.
Proof.
  intros Hks Hin. rewrite Forall_forall in Hks. by apply Hks in Hin.
Qed.

Lemma navigate_grounded path st shows hides :
  queue st shows hides ->
  (currentPage st <> None -> exists r, r ∈ routes /\ innerHTML st = html r) ->
  (forall call r, AfterHide call (Some r) ∈ listeners st -> r ∈ routes) ->
  grounded routes (navigate routes path st).
Proof.
  intros (Hl & Hs & Hh & Hnone) Hin Hfor.
  destruct (currentPage st) as [pg|] eqn:Hpage.
  - destruct (navigate_hides routes path st) as (H1 & H2 & H3 & H4 & H5);
      [by rewrite Hpage|].
    split; [|split; [|done] ].
    + rewrite H1. by apply Hin.
    + rewrite H3. intros call r' [Hk|Hk]%elem_of_app; [by apply (Hfor call)|].
      apply list_elem_of_singleton in Hk. injection Hk as _ Hk.
      by apply (route_for_elem path).
  - destruct (navigate_enters routes Hroutes path st Hpage)
      as (r & Hr & H1 & H2 & H3 & H4 & H5).
    specialize (Hnone eq_refl). subst hides. rewrite app_nil_r in Hl.
    split; [|split].
    + exists r. split; [by apply (route_for_elem path) | done].
    + rewrite H3, Hl. intros call r' [Hk|Hk]%elem_of_app;
        [by apply shows_no_hide in Hk|].
      by apply list_elem_of_singleton in Hk.
    + rewrite H3, Hl. intros (call & route & [Hk|Hk]%elem_of_app);
        [by apply shows_no_hide in Hk|].
      by apply list_elem_of_singleton in Hk.
Qed.

Lemma resumes_markup ks st :
  (forall call r, AfterHide call (Some r) ∈ ks -> r ∈ routes) ->
  (exists r, r ∈ routes /\ innerHTML st = html r) ->
  exists r, r ∈ routes
            /\ innerHTML (foldl (fun st k => resume k st) st ks) = html r.
Proof.
  revert st. induction ks as [|k ks IH]; intros st Hks Hst; [done|].
  cbn [foldl]. apply IH.
  - intros call r Hin. apply (Hks call). by right.
  - destruct k as [call [r|]|call pg]; cbn; [|done..].
    exists r. split; [|done]. apply (Hks call). by left.
Qed.

Lemma transitionend_grounded st :
  shape st -> grounded routes st -> grounded routes (transitionend st).
Proof.
  intros Hs (Hin & Hfor & Hop).
  destruct (transitionend_shape st Hs) as (_ & Hshows).
  split; [|split].
  - unfold transitionend. cbn zeta. by apply resumes_markup.
  - intros call r Hk. by apply (shows_no_hide _ _ _ Hshows) in Hk.
  - intros (call & route & Hk). by apply (shows_no_hide _ _ _ Hshows) in Hk.
Qed.

Lemma step_grounded st i :
  shape st -> grounded routes st -> grounded routes (step routes url st i).
Proof.
  intros Hs Hg. destruct (end_or_call i) as [->|Hi].
  - by apply transitionend_grounded.
  - destruct (step_calls routes url st i Hi)
      as [-> | (path & st' & -> & Hin' & _ & Hl & Hp & _)]; [done|].
    destruct Hs as (shows & hides & Hq & _). destruct Hg as (Hin & Hfor & _).
    apply (navigate_grounded path st' shows hides).
    + by apply (queue_same st).
    + intros _. by rewrite Hin'.
    + by rewrite Hl.
Qed.

Lemma run_grounded p inputs : grounded routes (run routes url p inputs).
Proof.
  unfold run. induction inputs as [|i inputs IH] using rev_ind.
  - unfold boot. apply (navigate_grounded p _ [] []); [done|done|].
    intros call r Hk. by apply elem_of_nil in Hk.
  - rewrite foldl_app. cbn [foldl].
    apply step_grounded; [apply (run_shape routes url Hroutes) | done].
Qed.

(** While a call waits for a fade-out nothing but a transition end
    changes the markup. *)
Lemma step_keeps_markup st i call route :
  shape st -> AfterHide call route ∈ listeners st -> i <> TransitionEnd ->
  innerHTML (step routes url st i) = innerHTML st.
Proof.
  intros Hs Hin Hi. pose proof (hide_has_page st call route Hs Hin) as Hpage.
  destruct (step_calls routes url st i Hi)
    as [-> | (path & st' & -> & Hin' & _ & _ & Hp & _)]; [done|].
  destruct (navigate_hides routes path st') as [-> _]; [by rewrite Hp|].
  done.
Qed.

End Grounded.

(** * The claims *)

(** C1: a sweep with one new character per real span registers, for every
    real span and whatever text it shows, a hide timer that carries the
    character of the same index, due at [startDelay + i * charStagger]; when
    that timer fires the span has [opacity] "0" and its text is the new
    character.  When nothing else was pending and the transform leaves text
    alone, the new character is there once the event loop has run the
    timers, in any order. *)
Theorem sweep_swaps_text_while_hidden
  k options newChars transform w w1 sid :
  prepared k (el w) = true -> settled w = true ->
  length newChars = length (querySelectorAll REAL (el w)) ->
  scrambleSweep options (Some newChars) transform w = (w1, sid) ->
  forall i r, querySelectorAll REAL (el w) !! i = Some r ->
    exists c, newChars !! i = Some c
      /\ (due w (sweep_base options i * 1000), SweepHideReal r (Some c))
         ∈ timers w1
      /\ (forall order n t0,
           timers (fires order w1) !! n = Some (t0, SweepHideReal r (Some c)) ->
           text_at r (fire n (fires order w1)) = Some c
           /\ style_at r "opacity" (fire n (fires order w1))
              = Some (Keyword "0"))
      /\ (timers w = [] ->
          (forall e, textContent (transform e) = textContent e) ->
          text_at r (run_all w1) = Some c
          /\ forall order, timers (fires order w1) = [] ->
               text_at r (fires order w1) = Some c).
Proof.
  intros Hp Hw Hlen Hs i r Hr.
  destruct (lookup_lt_is_Some_2 newChars i) as [c Hc].
  { rewrite Hlen. apply lookup_lt_is_Some_1. eauto. }
  exists c. split; [done|].
  destruct (session_real_lookup k w Hp _ _ Hr) as (ix & Hix & ->).
  split; [|split].
  - rewrite (session_timers_eq _ _ _ _ _ _ _ Hp Hs).
    apply elem_of_app. right.
    pose proof (session_timers_hide options (Some newChars) transform sid k
                  (clock w) 0 _ _ _ Hix) as Hin.
    cbn [new_char Nat.add] in Hin. by rewrite Hc in Hin.
  - intros order n t0 Hn.
    assert (Hsome : is_Some (get [ix; k] (el (fires order w1)))).
    { apply fires_keeps_spans;
        [exact (session_settled _ _ _ _ _ _ _ Hp Hw Hs) | done |].
      apply (session_real_some _ _ _ _ _ _ _ Hp Hs).
      apply list_elem_of_lookup. eauto. }
    destruct Hsome as [e He].
    pose proof (fire_get_target _ _ _ _ Hn) as Hget.
    cbn [task_target] in Hget. rewrite He in Hget.
    cbn [fmap option_fmap option_map task_effect] in Hget.
    unfold text_at, style_at. rewrite Hget. cbn. split.
    + by rewrite textContent_set_textContent.
    + by rewrite get_style_set_textContent, get_style_set_style.
  - intros Hquiet Htext.
    assert (Hdone : forall order, timers (fires order w1) = [] ->
                    text_at [ix; k] (fires order w1) = Some c).
    { intros order. by apply (quiet_text_done _ _ _ _ _ _ _ Hp Hquiet Hs Htext
                                order i). }
    split; [|done]. destruct (run_all_fires w1) as [order Heq].
    rewrite Heq. apply Hdone. rewrite <- Heq. apply run_all_done.
Qed.

(** C2: the function a sweep returns only sets the flag.  Every restore
    timer of the session stays in the queue with the time it was registered
    for, and one that fires after the cancellation makes its real span
    visible again ([opacity] "1") without calling the transform; before the
    cancellation it does call it. *)
Theorem cancel_skips_transform_keeps_restore
  k options newChars transform w w1 sid :
  prepared k (el w) = true -> settled w = true ->
  scrambleSweep options newChars transform w = (w1, sid) ->
  (forall i r, querySelectorAll REAL (el w) !! i = Some r ->
     (due w (sweep_restore options i k * 1000), SweepRestore sid r transform)
     ∈ timers w1)
  /\ (forall order n t0 r tr,
        timers (fires order w1) !! n = Some (t0, SweepRestore sid r tr) ->
        calls (fire n (fires order w1)) = calls (fires order w1) ++ [Call sid r])
  /\ forall before,
       let w2 := fires before w1 in
       timers (cancel sid w2) = timers w2
       /\ el (cancel sid w2) = el w2
       /\ calls (cancel sid w2) = calls w2
       /\ clock (cancel sid w2) = clock w2
       /\ forall after n t0 r tr,
            let w3 := fires after (cancel sid w2) in
            timers w3 !! n = Some (t0, SweepRestore sid r tr) ->
            (exists e, get r (el w3) = Some e
                       /\ get r (el (fire n w3))
                          = Some (set_style "opacity" (Keyword "1") e))
            /\ style_at r "opacity" (fire n w3) = Some (Keyword "1")
            /\ calls (fire n w3) = calls w3.
Proof.
  intros Hp Hw Hs. split; [|split].
  - intros i r (ix & Hix & ->)%(session_real_lookup k w Hp).
    rewrite (session_timers_eq _ _ _ _ _ _ _ Hp Hs).
    apply elem_of_app. right.
    apply (session_timers_restore options newChars transform sid k (clock w) 0
             _ _ _ Hix).
  - intros order n t0 r tr Hn. rewrite (fire_calls _ _ _ _ Hn).
    cbn [task_calls]. by rewrite (session_flag_before _ _ _ _ _ _ _ Hp Hs).
  - intros before w2. do 4 (split; [reflexivity|]).
    intros after n t0 r tr w3 Hn.
    pose proof (session_flag_after _ _ _ _ _ _ _ Hp Hs before after) as Hflag.
    fold w2 in Hflag. fold w3 in Hflag.
    assert (Hsome : is_Some (get r (el w3))).
    { assert (Hin : (t0, SweepRestore sid r tr) ∈ timers w1).
      { apply (fires_timers_subset before).
        change (timers (fires before w1)) with (timers (cancel sid w2)).
        apply (fires_timers_subset after). apply list_elem_of_lookup. eauto. }
      destruct (session_restore_is_real _ _ _ _ _ _ _ Hp Hw Hs _ _ _ _ Hin
                  eq_refl eq_refl) as (_ & ix & Hix & ->).
      pose proof (session_settled _ _ _ _ _ _ _ Hp Hw Hs) as Hw1.
      apply fires_keeps_spans;
        [by apply cancel_settled, fires_settled | done |].
      change (el (cancel sid w2)) with (el (fires before w1)).
      apply fires_keeps_spans; [done|done|].
      by apply (session_real_some _ _ _ _ _ _ _ Hp Hs). }
    destruct Hsome as [e He].
    pose proof (fire_get_target _ _ _ _ Hn) as Hget.
    cbn [task_target] in Hget. rewrite He in Hget.
    cbn [fmap option_fmap option_map task_effect] in Hget.
    rewrite Hflag in Hget.
    split; [eauto|]. split.
    + unfold style_at. rewrite Hget. cbn. apply get_style_set_style.
    + rewrite (fire_calls _ _ _ _ Hn). cbn [task_calls].
      by rewrite Hflag, app_nil_r.
Qed.

(** C3, as the code has it: the transform is applied to every fake span
    inside the sweep call itself, once, right after the span got its new
    decoy and before any timer of the call can fire; the timers of the call
    apply the transform to real spans only. *)
Theorem sweep_transforms_fakes_in_the_call
  k options newChars transform w w1 sid :
  prepared k (el w) = true -> settled w = true ->
  scrambleSweep options newChars transform w = (w1, sid) ->
  calls w1
  = calls w
    ++ flat_map (fun ix => map (Call sid) (cell_fakes k ix)) (cells k (el w))
  /\ (forall m ix j, cells k (el w) !! m = Some ix -> j < k ->
        exists e, get [ix; j] (el w) = Some e
          /\ get [ix; j] (el w1)
             = Some (transform
                       (set_textContent
                          (sweep_glyph (entropy w (draws w + k * m + j))) e)))
  /\ forall order,
       exists later,
         calls (fires order w1) = calls w1 ++ later
         /\ Forall (fun c => session c = sid ->
                             exists ix, ix ∈ cells k (el w) /\ target c = [ix; k])
              later.
Proof.
  intros Hp Hw Hs. split; [|split].
  - exact (session_calls _ _ _ _ _ _ _ Hp Hs).
  - intros m ix j Hix Hj.
    assert (Hmem : ix ∈ cells k (el w)) by (apply list_elem_of_lookup; eauto).
    destruct (cells_fake_some _ _ _ _ Hmem Hj) as [e He]. exists e.
    split; [done|].
    rewrite (session_el _ _ _ _ _ _ _ Hp Hs).
    rewrite (get_swept_fake _ _ _ _ _ _ m ix j (cells_NoDup _ _) Hix Hj).
    by rewrite He.
  - intros order. apply fires_calls_from.
    intros x s r tr Hx Hsnd. cbn. intros ->.
    by destruct (session_restore_is_real _ _ _ _ _ _ _ Hp Hw Hs _ _ _ _ Hx Hsnd
                   eq_refl) as [_ ?].
Qed.

(** C10: a cell without a new character (no [newChars], or an index past
    its end) gets a hide timer that carries none; the call leaves the real
    span as it is, the hide timer sets [opacity] "0" and nothing else, the
    restore timer sets [opacity] "1" and hands the span to the transform
    unless cancelled.  From a quiet start and with a transform that leaves
    text alone, the text of the span is the same at every moment of the
    sweep. *)
Theorem sweep_without_new_char_keeps_text
  k options newChars transform w w1 sid i r :
  prepared k (el w) = true -> settled w = true ->
  scrambleSweep options newChars transform w = (w1, sid) ->
  querySelectorAll REAL (el w) !! i = Some r ->
  (newChars = None \/ exists cs, newChars = Some cs /\ length cs <= i) ->
  (due w (sweep_base options i * 1000), SweepHideReal r None) ∈ timers w1
  /\ get r (el w1) = get r (el w)
  /\ (forall order n t0,
        timers (fires order w1) !! n = Some (t0, SweepHideReal r None) ->
        exists e, get r (el (fires order w1)) = Some e
          /\ get r (el (fire n (fires order w1)))
             = Some (set_style "opacity" (Keyword "0") e))
  /\ (forall order n t0,
        timers (fires order w1) !! n = Some (t0, SweepRestore sid r transform) ->
        exists e, get r (el (fires order w1)) = Some e
          /\ get r (el (fire n (fires order w1)))
             = Some (if is_cancelled sid (fires order w1)
                     then set_style "opacity" (Keyword "1") e
                     else transform (set_style "opacity" (Keyword "1") e)))
  /\ (timers w = [] ->
      (forall e, textContent (transform e) = textContent e) ->
      forall order, text_at r (fires order w1) = text_at r w).
Proof.
  intros Hp Hw Hs Hr Hnone.
  assert (Hc : new_char newChars i = None).
  { destruct Hnone as [->|(cs & -> & Hlen)]; [done|].
    by apply lookup_ge_None. }
  destruct (session_real_lookup k w Hp _ _ Hr) as (ix & Hix & ->).
  assert (Hmem : ix ∈ cells k (el w)) by (apply list_elem_of_lookup; eauto).
  assert (Hsome : forall order, is_Some (get [ix; k] (el (fires order w1)))).
  { intros order. apply fires_keeps_spans;
      [exact (session_settled _ _ _ _ _ _ _ Hp Hw Hs) | done |].
    exact (session_real_some _ _ _ _ _ _ _ Hp Hs _ Hmem). }
  split; [|split; [|split; [|split]]].
  - rewrite (session_timers_eq _ _ _ _ _ _ _ Hp Hs).
    apply elem_of_app. right.
    pose proof (session_timers_hide options newChars transform sid k
                  (clock w) 0 _ _ _ Hix) as Hin.
    cbn [Nat.add] in Hin. by rewrite Hc in Hin.
  - by rewrite (session_el _ _ _ _ _ _ _ Hp Hs), get_swept_real.
  - intros order n t0 Hn. destruct (Hsome order) as [e He]. exists e.
    split; [done|]. pose proof (fire_get_target _ _ _ _ Hn) as Hget.
    cbn [task_target] in Hget. by rewrite He in Hget.
  - intros order n t0 Hn. destruct (Hsome order) as [e He]. exists e.
    split; [done|]. pose proof (fire_get_target _ _ _ _ Hn) as Hget.
    cbn [task_target] in Hget. by rewrite He in Hget.
  - intros Hquiet Htext order.
    by apply (quiet_text_kept _ _ _ _ _ _ _ Hp Hquiet Hs Htext order i).
Qed.

(** C3 as the spec has it fails: right after the hover sweep over "HI" has
    returned, the transform has been called on the first fake span of the
    first cell while the restore timer of that cell is pending, and
    cancelling at once does not take the call back. *)
Lemma fakes_transformed_before_restore :
  ~ fakes_wait_for_restore 0 2 (fst Sample.hover)
  /\ ~ cancel_spares_fakes 0 2 (fst Sample.hover).
Proof.
  split.
  - intros H. apply (H [] 0 0).
    + lia.
    + change (fires [] (fst Sample.hover)) with (fst Sample.hover).
      rewrite hover_calls. by left.
    + exact hover_restore_pending.
  - intros H. apply (H [] [] 0 0).
    + lia.
    + exact hover_restore_pending.
    + change (calls (fires [] (cancel 0 (fires [] (fst Sample.hover)))))
        with (calls (fst Sample.hover)).
      rewrite hover_calls. by left.
Qed.

(** C1 on "HI" swept to "XY": the second real span reads "Y" when the event
    loop is done. *)
Lemma sweep_swaps_text_while_hidden_witness :
  prepared 2 (el Sample.hi) = true /\ settled Sample.hi = true
  /\ text_at [1; 2] (run_all (fst Sample.to_xy)) = Some [89%N].
Proof.
  split; [exact hi_prepared|]. split; [exact hi_settled|].
  destruct (sweep_swaps_text_while_hidden 2 no_options [[88]; [89]]%N
              Sample.blacken Sample.hi (fst Sample.to_xy) (snd Sample.to_xy)
              hi_prepared hi_settled ltac:(vm_compute; reflexivity)
              (surjective_pairing _) 1 [1; 2] ltac:(vm_compute; reflexivity))
    as (c & Hc & _ & _ & Hrun).
  assert (c = [89%N]) as -> by (vm_compute in Hc; congruence).
  destruct (Hrun ltac:(vm_compute; reflexivity) (textContent_set_style _ _))
    as [Hdone _].
  exact Hdone.
Defined.

(** C2 on the hover sweep over "HI": one timer fires, the sweep is
    cancelled, then the restore timer of the first cell fires. *)
Lemma cancel_skips_transform_keeps_restore_witness :
  prepared 2 (el Sample.hi) = true /\ settled Sample.hi = true
  /\ style_at [0; 2] "opacity"
       (fire 4 (cancel 0 (fires [0] (fst Sample.hover))))
     = Some (Keyword "1")
  /\ calls (fire 4 (cancel 0 (fires [0] (fst Sample.hover))))
     = calls (cancel 0 (fires [0] (fst Sample.hover))).
Proof.
  split; [exact hi_prepared|]. split; [exact hi_settled|].
  destruct (cancel_skips_transform_keeps_restore 2 no_options None
              Sample.blacken Sample.hi (fst Sample.hover) (snd Sample.hover)
              hi_prepared hi_settled (surjective_pairing _))
    as (_ & _ & Hcancel).
  destruct (Hcancel [0]) as (_ & _ & _ & _ & Hafter).
  destruct (Hafter [] 4 (due Sample.hi (sweep_restore no_options 0 2 * 1000))
              [0; 2] Sample.blacken ltac:(vm_compute; reflexivity))
    as (_ & Hstyle & Hcalls).
  split; [exact Hstyle | exact Hcalls].
Defined.

(** C3, as the code has it, on the hover sweep over "HI". *)
Lemma sweep_transforms_fakes_in_the_call_witness :
  prepared 2 (el Sample.hi) = true /\ settled Sample.hi = true
  /\ calls (fst Sample.hover)
     = calls Sample.hi
       ++ flat_map (fun ix => map (Call (snd Sample.hover)) (cell_fakes 2 ix))
            (cells 2 (el Sample.hi)).
Proof.
  split; [exact hi_prepared|]. split; [exact hi_settled|].
  destruct (sweep_transforms_fakes_in_the_call 2 no_options None
              Sample.blacken Sample.hi (fst Sample.hover) (snd Sample.hover)
              hi_prepared hi_settled (surjective_pairing _))
    as (Hcalls & _).
  exact Hcalls.
Defined.

(** C10 on the hover sweep over "HI", three timers into the sweep. *)
Lemma sweep_without_new_char_keeps_text_witness :
  prepared 2 (el Sample.hi) = true /\ settled Sample.hi = true
  /\ querySelectorAll REAL (el Sample.hi) !! 0 = Some [0; 2]
  /\ text_at [0; 2] (fires [0; 0; 0] (fst Sample.hover))
     = text_at [0; 2] Sample.hi.
Proof.
  split; [exact hi_prepared|]. split; [exact hi_settled|].
  split; [vm_compute; reflexivity|].
  destruct (sweep_without_new_char_keeps_text 2 no_options None
              Sample.blacken Sample.hi (fst Sample.hover) (snd Sample.hover)
              0 [0; 2] hi_prepared hi_settled (surjective_pairing _)
              ltac:(vm_compute; reflexivity) (or_introl eq_refl))
    as (_ & _ & _ & _ & Hkept).
  exact (Hkept ltac:(vm_compute; reflexivity) (textContent_set_style _ _)
           [0; 0; 0]).
Defined.

(** C4: after [scramblePrepare(el, k)] every character wrapper of the
    splitter holds exactly one span of class [scramble-real], whose children
    are the children the wrapper had, and exactly [k] spans of class
    [scramble-fake]. *)
Theorem prepare_makes_cells k w char :
  char ∈ snd (splitText (el w)) ->
  exists c0 real,
    get char (fst (splitText (el w))) = Some c0
    /\ query_from char REAL (el (scramblePrepare k w)) = [char ++ [k]]
    /\ get (char ++ [k]) (el (scramblePrepare k w)) = Some real
    /\ has_class REAL real = true
    /\ kids real = kids c0
    /\ length (query_from char FAKE (el (scramblePrepare k w))) = k.
Proof.
  intros Hchar.
  destruct (scramblePrepare_cell k w char Hchar) as (u & n & Hu & Hget).
  pose proof (char_wrapper_cell k (entropy w) n u) as Hcell.
  assert (Hat : get char (el (scramblePrepare k w))
                = Some (prepared_cell k (entropy w) n (char_wrapper u))).
  { specialize (Hget []). by rewrite app_nil_r in Hget. }
  exists (char_wrapper u), (real_span (kids (char_wrapper u))).
  split; [done|]. split; [|split; [|split; [|split] ] ].
  - unfold query_from. by rewrite Hat, (cell_reals _ _ Hcell).
  - rewrite Hget. cbn [get]. by rewrite prepared_cell_real.
  - reflexivity.
  - reflexivity.
  - unfold query_from.
    by rewrite Hat, (cell_fake_refs _ _ Hcell), !length_map, length_seq.
Qed.




(** C6: over the route table of the application, [Router.resolve] returns
    a route of the table whose path is the argument, the only such route, or
    nothing when no route has that path; and [App.navigate] then goes on
    with the first route, home. *)
Theorem resolve_exact_or_home homeContent aboutContent workContent p :
  let routes := Nav.app_routes homeContent aboutContent workContent in
  match Nav.resolve routes p with
  | Some r =>
      r ∈ routes /\ Nav.path r = p
      /\ (forall r', r' ∈ routes -> Nav.path r' = p -> r' = r)
      /\ Nav.route_for routes p = Some r
  | None =>
      (forall r, r ∈ routes -> Nav.path r <> p)
      /\ Nav.route_for routes p = Some (Nav.MkRoute "/" "HOME" homeContent)
      /\ Nav.innerHTML (Nav.boot routes p) = homeContent
  end.
Proof.
  intros routes.
  pose proof (resolve_spec routes p
                (app_routes_NoDup homeContent aboutContent workContent)) as H.
  unfold Nav.boot, Nav.navigate, Nav.route_for. cbn [Nav.currentPage].
  destruct (Nav.resolve routes p) as [r|].
  - destruct H as (Hin & Hp & Huniq). done.
  - done.
Qed.

(** C7: [Router.push] with the current path changes nothing, whatever
    [onNavigate] is: no history entry is pushed and the callback, which
    could change the state, is not run. *)
Theorem push_current_path_is_noop url onNavigate st :
  Nav.push url onNavigate (Nav.pathname st) st = st.
Proof. unfold Nav.push. by rewrite String.eqb_refl. Qed.

(** C8, as the code has it: in every run of the application over a table
    of routes that is not empty, the container holds the markup of one route
    of the table.  A [navigate] call made while there is a current page
    leaves the markup, sets the opacity of the container to 0 and waits for
    a transition end; while a call waits, the opacity is 0 and no click or
    history move changes the markup; at the transition end the calls that
    waited go on in the order they were made, the markup of the last is in
    the container, the opacity is 1 and all calls wait for the fade-in.
    A call made while there is no current page puts its markup in at
    once. *)
Theorem navigation_waits_for_transition_end routes url p inputs :
  routes <> [] ->
  let st := Nav.run routes url p inputs in
  (exists r, r ∈ routes /\ Nav.innerHTML st = Nav.html r)
  /\ (forall path,
        Nav.currentPage st <> None ->
        Nav.innerHTML (Nav.navigate routes path st) = Nav.innerHTML st
        /\ Nav.opacity (Nav.navigate routes path st) = Some "0"%string
        /\ Nav.listeners (Nav.navigate routes path st)
           = Nav.listeners st
             ++ [Nav.AfterHide (Nav.started st) (Nav.route_for routes path)])
  /\ ((exists call route, Nav.AfterHide call route ∈ Nav.listeners st) ->
      Nav.currentPage st <> None
      /\ Nav.opacity st = Some "0"%string
      /\ forall i, i <> Nav.TransitionEnd ->
           Nav.innerHTML (Nav.step routes url st i) = Nav.innerHTML st)
  /\ (forall call r,
        last (Nav.listeners st) = Some (Nav.AfterHide call (Some r)) ->
        Nav.innerHTML (Nav.step routes url st Nav.TransitionEnd) = Nav.html r
        /\ Nav.opacity (Nav.step routes url st Nav.TransitionEnd)
           = Some "1"%string
        /\ Forall (fun k => Settle.is_show k = true)
             (Nav.listeners (Nav.step routes url st Nav.TransitionEnd)))
  /\ (forall path,
        Nav.currentPage st = None ->
        exists r, Nav.route_for routes path = Some r
                  /\ Nav.innerHTML (Nav.navigate routes path st) = Nav.html r
                  /\ Nav.opacity (Nav.navigate routes path st)
                     = Some "1"%string).
Proof.
  intros Hroutes st.
  pose proof (run_shape routes url Hroutes p inputs) as Hs.
  destruct (run_grounded routes url Hroutes p inputs) as (Hin & _ & Hop).
  fold st in Hs, Hin, Hop.
  split; [done|]. split; [|split; [|split] ].
  - intros path Hpage.
    by destruct (navigate_hides routes path st Hpage) as (? & ? & ? & _).
  - intros (call & route & Hk). split; [by apply (hide_has_page st call route)|].
    split; [apply Hop; eauto|]. intros i Hi.
    by apply (step_keeps_markup routes url st i call route).
  - intros call r Hlast. cbn [Nav.step].
    by apply (transitionend_last_hide st call r).
  - intros path Hpage.
    destruct (navigate_enters routes Hroutes path st Hpage)
      as (r & Hr & H1 & H2 & _).
    by exists r.
Qed.

(** C8 as the spec has it fails: on the route table of the application two
    clicks in a row leave two calls suspended at once, and a click before
    the first page has faded in replaces its markup at opacity 1. *)
Lemma navigation_is_not_serialized :
  ~ Settle.serialized (Nav.app_routes "H" "A" "W") Sample.as_is "/"
  /\ ~ Settle.hides_before_injecting (Nav.app_routes "H" "A" "W")
         Sample.as_is "/".
Proof.
  split.
  - intros H.
    specialize (H [Nav.TransitionEnd; Nav.Click (Some (Some "/about"));
                   Nav.Click (Some (Some "/work"))]).
    vm_compute in H. lia.
  - intros H.
    specialize (H [] (Nav.Click (Some (Some "/about")))).
    cbn zeta in H. vm_compute in H.
    by discriminate H.
Qed.

(** C8, as the code has it, on a click on ABOUT while HOME is the current
    page. *)
Lemma navigation_waits_for_transition_end_witness :
  let st := Nav.run (Nav.app_routes "H" "A" "W") Sample.as_is "/"
              [Nav.TransitionEnd; Nav.Click (Some (Some "/about"))] in
  Nav.app_routes "H" "A" "W" <> []
  /\ Nav.innerHTML st = "H"%string
  /\ Nav.opacity st = Some "0"%string
  /\ Nav.innerHTML (Nav.step (Nav.app_routes "H" "A" "W") Sample.as_is st
                      Nav.TransitionEnd) = "A"%string
  /\ Nav.opacity (Nav.step (Nav.app_routes "H" "A" "W") Sample.as_is st
                    Nav.TransitionEnd) = Some "1"%string.
Proof.
  intros st.
  assert (Hroutes : Nav.app_routes "H" "A" "W" <> []) by done.
  destruct (navigation_waits_for_transition_end (Nav.app_routes "H" "A" "W")
              Sample.as_is "/"
              [Nav.TransitionEnd; Nav.Click (Some (Some "/about"))] Hroutes)
    as (_ & _ & Hwait & Hend & _).
  fold st in Hwait, Hend.
  destruct Hwait as (_ & Hop & _).
  { exists 1, (Some (Nav.MkRoute "/about" "ABOUT" "A")). vm_compute. left. }
  destruct (Hend 1 (Nav.MkRoute "/about" "ABOUT" "A") ltac:(vm_compute; reflexivity))
    as (Hin & Hop1 & _).
  split; [done|]. split; [by vm_compute|]. done.
Defined.

(** C9: whatever double [Math.random] returns, the index computed from it
    is inside [SCRAMBLE_CHARS], so the decoy is one code unit of that
    string; this is the text of every fake span [scramblePrepare] inserts,
    and the text a sweep assigns to a fake span before it hands the span to
    the transform. *)
Theorem decoys_in_glyph_set :
  (forall d, exists c,
      c ∈ SCRAMBLE_CHARS /\ random_glyph d = Some c
      /\ prepare_glyph d = [c] /\ sweep_glyph d = [c])
  /\ (forall k w,
        Forall (fun fake =>
                  exists c, c ∈ SCRAMBLE_CHARS
                            /\ text_at fake (scramblePrepare k w) = Some [c])
          (flat_map (fun char => query_from char FAKE (el (scramblePrepare k w)))
             (snd (splitText (el w)))))
  /\ (forall sid transform fake w, exists c,
        c ∈ SCRAMBLE_CHARS
        /\ el (rerandomize sid transform fake w)
           = modify (fun e => if is_cancelled sid w
                              then set_textContent [c] e
                              else transform (set_textContent [c] e))
               fake (el w)).
Proof.
  assert (Hglyph : forall d, exists c,
             c ∈ SCRAMBLE_CHARS /\ random_glyph d = Some c
             /\ prepare_glyph d = [c] /\ sweep_glyph d = [c]).
  { intros d. destruct (random_glyph_some d) as (c & Hc & Hin). exists c.
    unfold prepare_glyph, sweep_glyph. by rewrite Hc. }
  split; [exact Hglyph|]. split.
  - intros k w. apply Forall_forall. intros fake Hfake%list_elem_of_In.
    apply in_flat_map in Hfake
        as (char & Hchar%list_elem_of_In & Hfake%list_elem_of_In).
    destruct (scramblePrepare_cell k w char Hchar) as (u & n & Hu & Hget).
    assert (Hat : get char (el (scramblePrepare k w))
                  = Some (prepared_cell k (entropy w) n (char_wrapper u))).
    { specialize (Hget []). by rewrite app_nil_r in Hget. }
    unfold query_from in Hfake.
    rewrite Hat, (cell_fake_refs _ _ (char_wrapper_cell k _ n u)), map_map
      in Hfake.
    apply list_elem_of_fmap in Hfake as (j & -> & Hj%elem_of_seq).
    destruct (prepared_cell_fake k (entropy w) n (char_wrapper u) j) as [d' Hd'];
      [lia|].
    destruct (Hglyph d') as (g & Hg & _ & Hpg & _). exists g. split; [done|].
    unfold text_at. rewrite Hget. cbn [get]. rewrite Hd', Hpg. reflexivity.
  - intros sid transform fake w.
    destruct (Hglyph (entropy w (draws w))) as (c & Hc & _ & _ & Hsg).
    exists c. split; [done|].
    unfold rerandomize, Math_random, is_cancelled, apply_transform, with_calls,
      with_el.
    cbn [el timers cancelled entropy draws calls clock]. rewrite Hsg.
    destruct (cancelled w !! sid) as [[|]|];
      cbn [el]; by rewrite ?modify_compose.
Qed.

(** C4 on "HI" with two fakes: the cell of "I". *)
Lemma prepare_makes_cells_witness :
  [1] ∈ snd (splitText (Sample.text_span [72; 73]%N))
  /\ exists c0 real,
       get [1] (fst (splitText (Sample.text_span [72; 73]%N))) = Some c0
       /\ query_from [1] REAL (el Sample.hi) = [[1; 2]]
       /\ get [1; 2] (el Sample.hi) = Some real
       /\ has_class REAL real = true
       /\ kids real = kids c0
       /\ length (query_from [1] FAKE (el Sample.hi)) = 2.
Proof.
  assert (Hin : [1] ∈ snd (splitText (Sample.text_span [72; 73]%N))).
  { apply (list_elem_of_lookup_2 _ 1). vm_compute. reflexivity. }
  split; [exact Hin|].
  exact (prepare_makes_cells 2
           (Sample.fresh (Sample.text_span [72; 73]%N) Sample.zeros) [1] Hin).
Defined.

(** * More of the code *)

(** ** Cancelling is per sweep call *)

Section PerCall.

Implicit Types (w : world).

Lemma is_cancelled_cancel_ne sid sid' w :
  sid <> sid' -> is_cancelled sid' (cancel sid w) = is_cancelled sid' w.
Proof.
  intros Hne. unfold is_cancelled, cancel. cbn.
  by rewrite list_lookup_insert_ne.
Qed.

Lemma task_effect_cancel_ne sid t w e :
  (forall r tr, t <> SweepRestore sid r tr) ->
  task_effect t (cancel sid w) e = task_effect t w e.
Proof.
  intros Ht. destruct t as [f|f|r d|r c|s r tr]; try reflexivity.
  cbn [task_effect]. rewrite is_cancelled_cancel_ne; [done|].
  intros ->. by destruct (Ht r tr).
Qed.

Lemma task_calls_cancel_ne sid t w :
  (forall r tr, t <> SweepRestore sid r tr) ->
  task_calls t (cancel sid w) = task_calls t w.
Proof.
  intros Ht. destruct t as [f|f|r d|r c|s r tr]; try reflexivity.
  cbn [task_calls]. rewrite is_cancelled_cancel_ne; [done|].
  intros ->. by destruct (Ht r tr).
Qed.

Lemma fire_cancel_commute sid n w :
  (forall t0 r tr, timers w !! n <> Some (t0, SweepRestore sid r tr)) ->
  fire n (cancel sid w) = cancel sid (fire n w).
Proof.
  intros Hn. destruct (timers w !! n) as [[t0 t]|] eqn:Hlook.
  - assert (Ht : forall r tr, t <> SweepRestore sid r tr).
    { intros r tr ->. by destruct (Hn t0 r tr). }
    rewrite (fire_eq n (cancel sid w) t0 t Hlook), (fire_eq n w t0 t Hlook).
    rewrite !run_task_eq. unfold cancel, with_cancelled.
    cbn [el timers cancelled entropy draws calls clock]. f_equal.
    + apply modify_ext. intros e.
      apply (task_effect_cancel_ne sid t (World _ _ (cancelled w) _ _ _ _) e Ht).
    + f_equal.
      apply (task_calls_cancel_ne sid t (World _ _ (cancelled w) _ _ _ _) Ht).
  - by rewrite (fire_none n (cancel sid w) Hlook), (fire_none n w Hlook).
Qed.

Lemma sweep_cell_cancelled options newChars transform sid i real s :
  cancelled (fst (sweep_cell options newChars transform sid i real s))
  = cancelled (fst s).
Proof.
  destruct s as [w m]. unfold sweep_cell, sweep_body. cbn [fst].
  set (fakes := query_from _ _ _). clearbody fakes.
  unfold setTimeout, with_timers. cbn [cancelled].
  unfold forEach. generalize 0.
  assert (Hre : forall fs w0,
             cancelled (foldl (fun w fake => rerandomize sid transform fake w)
                          w0 fs) = cancelled w0).
  { induction fs as [|f fs IH]; intros w0; [done|]. cbn [foldl].
    rewrite IH. unfold rerandomize, Math_random, apply_transform.
    cbn. by destruct (is_cancelled _ _). }
  intros n. etransitivity; [|apply (Hre fakes w)].
  apply (forEach_from_invariant
           (fun w' => cancelled w'
                      = cancelled (foldl (fun w fake =>
                                            rerandomize sid transform fake w)
                                     w fakes))).
  - intros fi fake w' Hw'. by unfold flash_fake, setTimeout, with_timers.
  - reflexivity.
Qed.

(** A sweep call adds its own flag, unset, and leaves the others. *)
Lemma scrambleSweep_cancelled options newChars transform w :
  cancelled (fst (scrambleSweep options newChars transform w))
  = cancelled w ++ [false]
  /\ snd (scrambleSweep options newChars transform w) = length (cancelled w).
Proof.
  split; [|done]. unfold scrambleSweep, forEach. cbn [fst].
  apply (forEach_from_invariant
           (fun s => cancelled (fst s) = cancelled w ++ [false])).
  - intros i x s Hs. by rewrite sweep_cell_cancelled.
  - reflexivity.
Qed.

End PerCall.

(** ** What keeps an element prepared *)

Section Upkeep.

Implicit Types (w : world) (e : HTMLElement) (f : HTMLElement -> HTMLElement).

Lemma textContent_kids e e' : kids e = kids e' -> textContent e = textContent e'.
Proof. destruct e, e'. cbn. by intros ->. Qed.

Lemma gentle_text f : gentle f -> forall e, textContent (f e) = textContent e.
Proof. intros Hf e. apply textContent_kids. by destruct (Hf e). Qed.

Lemma gentle_keeps_spans f : gentle f -> keeps_spans f.
Proof.
  intros Hf cls s. destruct (Hf s) as [Hc Hk]. unfold is_span, has_class.
  by rewrite Hc, Hk.
Qed.

Lemma gentle_set_style prop v : gentle (set_style prop v).
Proof. by intros [a ks]. Qed.

Lemma gentle_compose f g : gentle f -> gentle g -> gentle (fun e => f (g e)).
Proof.
  intros Hf Hg e. destruct (Hf (g e)) as [-> ->]. apply Hg.
Qed.

Lemma gentle_id : gentle no_transform.
Proof. by intros e. Qed.

Lemma keeps_spans_set_textContent c : keeps_spans (set_textContent c).
Proof.
  intros cls [a ks]. unfold is_span, has_class. cbn.
  intros [-> _]%andb_prop. by destruct c.
Qed.

Lemma keeps_spans_compose f g :
  keeps_spans f -> keeps_spans g -> keeps_spans (fun e => f (g e)).
Proof. intros Hf Hg cls s Hs. by apply Hf, Hg. Qed.

Lemma forallb_intro {A} (P : A -> bool) (l : list A) :
  (forall i x, l !! i = Some x -> P x = true) -> forallb P l = true.
Proof.
  intros H. apply forallb_forall. intros x Hx%list_elem_of_In.
  apply list_elem_of_lookup in Hx as [i Hi]. by apply (H i).
Qed.

Lemma is_cell_intro k c :
  length (kids c) = S k ->
  (forall j n, j < k -> kids c !! j = Some n -> is_span FAKE n = true) ->
  (forall n, kids c !! k = Some n -> is_span REAL n = true) ->
  has_class REAL c = false -> has_class FAKE c = false ->
  is_cell k c = true.
Proof.
  intros Hlen Hf Hr Hcr Hcf. unfold is_cell.
  rewrite Hlen, Nat.eqb_refl, Hcr, Hcf. cbn. rewrite !andb_true_r.
  apply andb_true_intro. split; apply forallb_intro.
  - intros j n [Hn Hj]%lookup_take_Some. by apply (Hf j).
  - intros j n Hn. rewrite lookup_drop in Hn.
    assert (j = 0) as ->.
    { apply lookup_lt_Some in Hn. lia. }
    rewrite Nat.add_0_r in Hn. by apply Hr.
Qed.

Lemma modify_one f j e :
  modify f [j] e = El (attrs_of e) (alter (under f) j (kids e)).
Proof. by destruct e. Qed.

(** A cell stays a cell when one of its spans stays a span. *)
Lemma is_cell_modify k c f j :
  is_cell k c = true -> keeps_spans f -> is_cell k (modify f [j] c) = true.
Proof.
  intros Hc Hf. pose proof (is_cell_kids _ _ Hc) as (Hlen & Hfk & Hrl & Hcr & Hcf).
  rewrite modify_one. apply is_cell_intro; cbn [kids attrs_of].
  - by rewrite length_alter.
  - intros i n Hi Hn. rewrite list_lookup_alter in Hn.
    destruct (cell_fake_span _ _ _ Hc Hi) as (s & Hs & Hspan).
    case_decide; subst.
    + assert (Hn' : under f <$> Some (inr s) = Some n)
        by (rewrite <- Hs; exact Hn).
      injection Hn' as <-. by apply Hf.
    + assert (Hn' : Some (inr s) = Some n) by (rewrite <- Hs; exact Hn).
      by injection Hn' as <-.
  - intros n Hn. rewrite list_lookup_alter in Hn.
    destruct (cell_real_span _ _ Hc) as (s & Hs & Hspan).
    case_decide; subst.
    + assert (Hn' : under f <$> Some (inr s) = Some n)
        by (rewrite <- Hs; exact Hn).
      injection Hn' as <-. by apply Hf.
    + assert (Hn' : Some (inr s) = Some n) by (rewrite <- Hs; exact Hn).
      by injection Hn' as <-.
  - by destruct c.
  - by destruct c.
Qed.

Lemma cells_from_alter k i (F : node -> node) ix (ks : list node) :
  (forall n, ks !! ix = Some n -> cell_flag k (F n) = cell_flag k n) ->
  (forall s, exists s', F (inl s) = inl s') ->
  cells_from k i (alter F ix ks) = cells_from k i ks.
Proof.
  intros Hflag Hl. revert i ix Hflag.
  induction ks as [|n ks IH]; intros i [|ix] Hflag; try reflexivity.
  - change (alter F 0 (n :: ks)) with (F n :: ks).
    specialize (Hflag n eq_refl). destruct n as [s|c].
    + by destruct (Hl s) as [s' ->].
    + cbn in Hflag. destruct (F (inr c)) as [s'|c'] eqn:HF; cbn in Hflag |- *.
      * by rewrite <- Hflag.
      * by rewrite Hflag.
  - change (alter F (S ix) (n :: ks)) with (n :: alter F ix ks).
    destruct n as [s|c]; cbn; rewrite (IH (S i) ix); try done.
Qed.

(** Writing to a span of a cell keeps the element prepared, with the same
    cells. *)
Lemma prepared_modify k e ix j f :
  prepared k e = true -> ix ∈ cells k e -> keeps_spans f ->
  prepared k (modify f [ix; j] e) = true
  /\ cells k (modify f [ix; j] e) = cells k e.
Proof.
  intros Hp (c & Hkid & Hcell)%cells_spec Hf.
  rewrite modify_cons. unfold prepared, cells. cbn [kids]. split.
  - apply forallb_intro. intros i n Hn. rewrite list_lookup_alter in Hn.
    case_decide as Hi.
    + subst i.
      assert (Hn' : under (modify f [j]) <$> Some (inr c) = Some n)
        by (rewrite <- Hkid; exact Hn).
      injection Hn' as <-.
      change (is_cell k (modify f [j] c) || is_plain (modify f [j] c) = true).
      by rewrite (is_cell_modify _ _ _ _ Hcell Hf).
    + by apply (forallb_lookup _ _ i _ Hp).
  - apply cells_from_alter; [|by eauto].
    intros n Hn.
    assert (Hn' : Some (inr c) = Some n) by (rewrite <- Hkid; exact Hn).
    injection Hn' as <-.
    change (is_cell k (modify f [j] c) = is_cell k c).
    by rewrite (is_cell_modify _ _ _ _ Hcell Hf).
Qed.

Lemma upkept_modify k ixs w ix j f :
  upkept k ixs w -> ix ∈ ixs -> keeps_spans f ->
  upkept k ixs (with_el (modify f [ix; j]) w).
Proof.
  intros [Hp Hc] Hix Hf. rewrite <- Hc in Hix.
  destruct (prepared_modify k (el w) ix j f Hp Hix Hf) as [Hp' Hc'].
  split; [done|]. cbn [with_el el]. by rewrite Hc'.
Qed.

(** The characters of a prepared element, cell by cell. *)
Lemma prepared_chars k w :
  prepared k (el w) = true ->
  scrambleGetChars w
  = map (fun ix => default [] (text_at [ix; k] w)) (cells k (el w)).
Proof.
  intros Hp. unfold scrambleGetChars.
  change "scramble-real"%string with REAL.
  rewrite (prepared_reals _ _ Hp), map_map. apply map_ext. intros ix.
  unfold text_at. by destruct (get [ix; k] (el w)).
Qed.

End Upkeep.

(** ** A sweep keeps the element prepared *)

Section Lasting.

Implicit Types (w : world) (e : HTMLElement) (f : HTMLElement -> HTMLElement).
Variable k : nat.
Variable ixs : list nat.

Lemma rerandomized_upkeeps transform ent n fakes e :
  keeps_spans transform ->
  Forall (fun fake => exists ix j, fake = [ix; j] /\ ix ∈ ixs) fakes ->
  prepared k e = true /\ cells k e = ixs ->
  prepared k (rerandomized transform ent n fakes e) = true
  /\ cells k (rerandomized transform ent n fakes e) = ixs.
Proof.
  intros Ht. revert n e.
  induction fakes as [|fake fakes IH]; intros n e Hf [Hp Hc]; [done|].
  apply Forall_cons in Hf as [(ix & j & -> & Hix) Hf]. cbn [rerandomized].
  apply IH; [done|]. rewrite <- Hc in Hix.
  destruct (prepared_modify k e ix j (set_textContent (sweep_glyph (ent n)))
              Hp Hix (keeps_spans_set_textContent _)) as [Hp1 Hc1].
  rewrite <- Hc1 in Hix.
  destruct (prepared_modify k _ ix j transform Hp1 Hix Ht) as [Hp2 Hc2].
  split; [done|]. by rewrite Hc2, Hc1.
Qed.

Lemma cell_fakes_within ix :
  ix ∈ ixs ->
  Forall (fun fake => exists ix j, fake = [ix; j] /\ ix ∈ ixs) (cell_fakes k ix).
Proof.
  intros Hix. apply Forall_forall. intros fake Hfake.
  unfold cell_fakes in Hfake. apply list_elem_of_fmap in Hfake as (j & -> & _).
  eauto.
Qed.

Lemma swept_upkeeps transform ent n cs e :
  keeps_spans transform -> Forall (fun ix => ix ∈ ixs) cs ->
  prepared k e = true /\ cells k e = ixs ->
  prepared k (swept transform ent k n cs e) = true
  /\ cells k (swept transform ent k n cs e) = ixs.
Proof.
  intros Ht. revert n e.
  induction cs as [|ix cs IH]; intros n e Hcs He; [done|].
  apply Forall_cons in Hcs as [Hix Hcs]. cbn [swept].
  apply IH; [done|]. apply rerandomized_upkeeps; [done| |done].
  by apply cell_fakes_within.
Qed.

Lemma task_effect_keeps_spans t w :
  match t with SweepRestore _ _ tr => keeps_spans tr | _ => True end ->
  keeps_spans (task_effect t w).
Proof.
  pose proof (fun prop v => gentle_keeps_spans _ (gentle_set_style prop v))
    as Hstyle.
  intros Ht cls sp Hsp.
  destruct t as [fk|fk|r d|r [c|]|s r tr]; cbn [task_effect].
  - by apply Hstyle, Hstyle.
  - by apply Hstyle.
  - by apply Hstyle, Hstyle.
  - by apply keeps_spans_set_textContent, Hstyle.
  - by apply Hstyle.
  - destruct (is_cancelled s w); [by apply Hstyle|]. by apply Ht, Hstyle.
Qed.

Lemma fire_upkept n w :
  (forall x, x ∈ timers w -> cell_task k ixs (snd x)) ->
  upkept k ixs w -> upkept k ixs (fire n w).
Proof.
  intros Htasks [Hp Hc]. destruct (timers w !! n) as [[t0 t]|] eqn:Hn.
  - destruct (Htasks (t0, t)) as [(ix & j & Hix & Htarget) Htr].
    { apply list_elem_of_lookup. eauto. }
    cbn [snd] in Htarget, Htr.
    rewrite (fire_eq n w t0 t Hn), run_task_eq. unfold upkept.
    cbn [el timers cancelled entropy draws calls clock]. rewrite Htarget.
    rewrite <- Hc in Hix.
    set (w' := World _ _ _ _ _ _ _).
    destruct (prepared_modify k (el w) ix j _ Hp Hix
                (task_effect_keeps_spans t w' Htr)) as [Hp' Hc'].
    split; [exact Hp'|]. by rewrite <- Hc.
  - by rewrite (fire_none n w Hn).
Qed.

Lemma fires_upkept order w :
  (forall x, x ∈ timers w -> cell_task k ixs (snd x)) ->
  upkept k ixs w -> upkept k ixs (fires order w).
Proof.
  revert w. induction order as [|n order IH]; intros w Htasks Hw; [done|].
  rewrite fires_cons. apply IH; [|by apply fire_upkept].
  intros x Hx. apply Htasks. rewrite fire_timers in Hx.
  by apply list_elem_of_delete_inv in Hx.
Qed.

Lemma session_cell_task newChars transform sid t :
  keeps_spans transform ->
  session_task k ixs newChars transform sid t -> cell_task k ixs t.
Proof.
  intros Ht Hs. destruct t as [fk|fk|r d|r c|s r tr]; cbn in Hs.
  - destruct Hs as (ix & j & Hix & _ & ->). split; [|done]. by exists ix, j.
  - destruct Hs as (ix & j & Hix & _ & ->). split; [|done]. by exists ix, j.
  - done.
  - destruct Hs as (m & ix & Hm & -> & _). split; [|done]. exists ix, k.
    split; [|done]. apply list_elem_of_lookup. eauto.
  - destruct Hs as (-> & -> & ix & Hix & ->). split; [|done]. by exists ix, k.
Qed.

End Lasting.

Section RoundTrip.

Implicit Types (e : HTMLElement).
Variable k : nat.
Variable options : ScrambleOptions.
Variable newChars : option (list jsstring).
Variable transform : HTMLElement -> HTMLElement.
Variables (w w1 : world) (sid : nat).
Hypothesis Hprepared : prepared k (el w) = true.
Hypothesis Hquiet : timers w = [].
Hypothesis Hsweep : scrambleSweep options newChars transform w = (w1, sid).
Hypothesis Hgentle : gentle transform.

Lemma quiet_upkept order : upkept k (cells k (el w)) (fires order w1).
Proof.
  apply fires_upkept.
  - intros x Hx.
    apply (session_cell_task k _ newChars transform sid);
      [by apply gentle_keeps_spans|].
    by apply (quiet_only_session k options newChars transform w w1 sid).
  - unfold upkept.
    rewrite (session_el _ _ _ _ _ _ _ Hprepared Hsweep).
    apply swept_upkeeps; [by apply gentle_keeps_spans| |done].
    by apply Forall_forall.
Qed.

Lemma quiet_chars_done order :
  timers (fires order w1) = [] ->
  scrambleGetChars (fires order w1)
  = overwrite newChars (scrambleGetChars w).
Proof.
  intros Hdone. destruct (quiet_upkept order) as [Hp Hc].
  rewrite (prepared_chars k _ Hp), Hc, (prepared_chars k _ Hprepared).
  unfold overwrite. apply list_eq. intros i.
  rewrite list_lookup_fmap, list_lookup_imap, list_lookup_fmap.
  destruct (cells k (el w) !! i) as [ix|] eqn:Hix; [|done].
  cbn [fmap option_fmap option_map]. f_equal.
  assert (Hr : querySelectorAll REAL (el w) !! i = Some [ix; k]).
  { by rewrite (prepared_reals _ _ Hprepared), list_lookup_fmap, Hix. }
  destruct (new_char newChars i) as [c|] eqn:Hnew; cbn [default].
  - by rewrite (quiet_text_done k options newChars transform w w1 sid
                  Hprepared Hquiet Hsweep (gentle_text _ Hgentle)
                  order i _ c Hr Hnew Hdone).
  - by rewrite (quiet_text_kept k options newChars transform w w1 sid
                  Hprepared Hquiet Hsweep (gentle_text _ Hgentle)
                  order i _ Hr Hnew).
Qed.

End RoundTrip.

(** ** The clock of the navigation bar *)

Section Clock.

Implicit Types (w : world) (cs cur : list jsstring).

Lemma overwrite_lookup nc cur i :
  overwrite nc cur !! i = (fun c => default c (new_char nc i)) <$> cur !! i.
Proof. unfold overwrite. by rewrite list_lookup_imap. Qed.

Lemma overwrite_none cur : overwrite None cur = cur.
Proof.
  apply list_eq. intros i. rewrite overwrite_lookup.
  by destruct (cur !! i).
Qed.

Lemma overwrite_some cs cur :
  overwrite (Some cs) cur = take (length cur) cs ++ drop (length cs) cur.
Proof.
  apply list_eq. intros i. rewrite overwrite_lookup. cbn [new_char].
  destruct (decide (i < length cs)) as [Hi|Hi].
  - destruct (lookup_lt_is_Some_2 cs i Hi) as [c Hc]. rewrite Hc.
    destruct (decide (i < length cur)) as [Hj|Hj].
    + destruct (lookup_lt_is_Some_2 cur i Hj) as [c' Hc']. rewrite Hc'.
      rewrite lookup_app_l by (rewrite length_take; lia).
      by rewrite lookup_take_lt.
    + rewrite (lookup_ge_None_2 cur i) by lia.
      symmetry. apply lookup_ge_None_2.
      rewrite length_app, length_take, length_drop. lia.
  - rewrite (lookup_ge_None_2 cs i) by lia.
    rewrite lookup_app_r by (rewrite length_take; lia).
    rewrite length_take, lookup_drop.
    destruct (decide (length cs <= length cur)) as [Hle|Hle].
    + replace (length cs + (i - length cur `min` length cs)) with i by lia.
      by destruct (cur !! i).
    + rewrite (lookup_ge_None_2 cur i) by lia.
      symmetry. apply lookup_ge_None_2. lia.
Qed.

Lemma overwrite_full cs cur :
  length cs = length cur -> overwrite (Some cs) cur = cs.
Proof.
  intros H. rewrite overwrite_some.
  rewrite (take_ge cs) by lia. rewrite (drop_ge cur) by lia.
  apply app_nil_r.
Qed.

Lemma overwrite_prefix cs cur :
  cs `prefix_of` cur -> overwrite (Some cs) cur = cur.
Proof.
  intros [r ->]. rewrite overwrite_some, drop_app_length.
  rewrite take_ge; [done|]. rewrite length_app. lia.
Qed.

Lemma some_differs_spec i cs cur :
  Chrome.some_differs i cs cur = false
  <-> forall j c, cs !! j = Some c -> cur !! (i + j) = Some c.
Proof.
  revert i. induction cs as [|c0 cs IH]; intros i; cbn [Chrome.some_differs].
  - split; [|done]. by intros _ j c.
  - rewrite orb_false_iff, negb_false_iff, bool_decide_eq_true, IH. split.
    + intros [H0 H] [|j] c Hc.
      * injection Hc as <-. by rewrite Nat.add_0_r.
      * rewrite Nat.add_succ_r. by apply (H j).
    + intros H. split.
      * specialize (H 0 c0 eq_refl). by rewrite Nat.add_0_r in H.
      * intros j c Hc. specialize (H (S j) c Hc).
        by rewrite Nat.add_succ_r in H.
Qed.

Lemma some_differs_prefix cs cur :
  Chrome.some_differs 0 cs cur = false <-> cs `prefix_of` cur.
Proof.
  rewrite some_differs_spec. split.
  - intros H. exists (drop (length cs) cur).
    apply list_eq. intros i.
    destruct (decide (i < length cs)) as [Hi|Hi].
    + destruct (lookup_lt_is_Some_2 cs i Hi) as [c Hc].
      rewrite lookup_app_l by done. rewrite Hc. by apply (H i).
    + rewrite lookup_app_r by lia. rewrite lookup_drop. f_equal. lia.
  - intros [r ->] j c Hc. cbn. by apply lookup_app_l_Some.
Qed.

Lemma run_all_quiet w : timers w = [] -> run_all w = w.
Proof. intros H. unfold run_all. by rewrite H. Qed.

Lemma sweep_changes options nc tr w :
  fst (scrambleSweep options nc tr w) <> w.
Proof.
  intros H. pose proof (scrambleSweep_cancelled options nc tr w) as [Hc _].
  rewrite H in Hc. apply (f_equal length) in Hc.
  rewrite length_app in Hc. cbn in Hc. lia.
Qed.

Lemma sweep_cell_registers options nc tr sid i real s :
  is_cancelled sid (fst s) = false ->
  is_cancelled sid (fst (sweep_cell options nc tr sid i real s)) = false
  /\ length (timers (fst s))
     < length (timers (fst (sweep_cell options nc tr sid i real s))).
Proof.
  destruct s as [w m]. cbn [fst]. intros Hc. unfold sweep_cell. cbn [fst].
  rewrite sweep_body_eq by done. cbn [fst timers]. split; [done|].
  unfold cell_timers. rewrite !length_app. cbn [length]. lia.
Qed.

Lemma sweep_cells_register options nc tr sid reals i s :
  is_cancelled sid (fst s) = false ->
  length (timers (fst s)) + length reals
  <= length (timers (fst (forEach_from (sweep_cell options nc tr sid) i reals s))).
Proof.
  revert i s. induction reals as [|real reals IH]; intros i s Hc;
    cbn [forEach_from length]; [lia|].
  destruct (sweep_cell_registers options nc tr sid i real s Hc) as [Hc' Hlt].
  specialize (IH (S i) _ Hc'). lia.
Qed.

(** A sweep over an element with real spans registers timers. *)
Lemma sweep_registers options nc tr w :
  querySelectorAll REAL (el w) <> [] ->
  length (timers w) < length (timers (fst (scrambleSweep options nc tr w))).
Proof.
  intros Hreals. unfold scrambleSweep, forEach. cbn [fst el with_cancelled].
  change "scramble-real"%string with REAL.
  pose proof (sweep_cells_register options nc tr (length (cancelled w))
                (querySelectorAll REAL (el w)) 0
                (with_cancelled (fun flags => flags ++ [false]) w, 0)) as H.
  cbn [fst with_cancelled timers] in H.
  destruct (querySelectorAll REAL (el w)) as [|r rs]; [done|].
  cbn [length] in H. unfold with_cancelled in H |- *.
  assert (Hc : is_cancelled (length (cancelled w))
                 (World (el w) (timers w) (cancelled w ++ [false]) (entropy w)
                    (draws w) (calls w) (clock w)) = false).
  { unfold is_cancelled. cbn. by rewrite lookup_app_r, Nat.sub_diag. }
  specialize (H Hc). lia.
Qed.

Lemma clock_tick_idle nextText w :
  Chrome.clock_tick nextText w = w
  <-> Chrome.next_chars nextText `prefix_of` scrambleGetChars w.
Proof.
  rewrite <- some_differs_prefix. unfold Chrome.clock_tick.
  destruct (Chrome.some_differs _ _ _); split; try done.
  intros H. by apply sweep_changes in H.
Qed.

End Clock.

(** ** What [scramblePrepare] establishes *)

Section Prepared.

Implicit Types (w : world) (t : jsstring) (ns : list (node * bool)).
Variable k : nat.
Variable ent : nat -> unit_double.

Lemma spread_plain t :
  Forall (fun c => Chrome.is_high c = false) t ->
  Chrome.spread t = map (fun c => [c]) t.
Proof.
  induction t as [|c t IH]; intros Ht; [done|].
  apply Forall_cons in Ht as [Hc Ht]. cbn [Chrome.spread]. rewrite Hc.
  cbn [andb]. rewrite (IH Ht). by destruct t.
Qed.

Lemma next_chars_plain t :
  Forall (fun c => plain_unit c = true) t ->
  Chrome.next_chars t
  = map (fun c => [c]) (List.filter (fun c => negb (is_whitespace c)) t).
Proof.
  intros Ht. unfold Chrome.next_chars. rewrite spread_plain.
  - induction t as [|c t IH]; [done|].
    apply Forall_cons in Ht as [Hc Ht]. cbn [map List.filter].
    rewrite (IH Ht). unfold plain_unit in Hc.
    apply andb_prop in Hc as [_ Hc].
    destruct (N.eqb_spec c 32) as [->|Hne].
    + done.
    + rewrite orb_false_r in Hc. rewrite Hc.
      rewrite bool_decide_eq_false_2; [done|]. by intros [= ->].
  - eapply Forall_impl; [exact Ht|]. intros c Hc. unfold plain_unit in Hc.
    apply andb_prop in Hc as [Hc _]. by apply negb_true_iff in Hc.
Qed.

End Prepared.

(** ** The hover effect of a link *)

Section HoverRun.

Import Chrome Hover.
Implicit Types (w : world) (l : link) (e : HTMLElement).
Variable k : nat.
Variable ixs : list nat.

Lemma gentle_highlight : gentle highlight.
Proof. apply gentle_set_style. Qed.

Lemma hover_cell_task b t : hover_task k ixs b t -> cell_task k ixs t.
Proof.
  destruct t as [fk|fk|r d|r c|s r tr]; cbn; intros H.
  - destruct H as (ix & j & Hix & _ & ->). split; [|done]. by exists ix, j.
  - destruct H as (ix & j & Hix & _ & ->). split; [|done]. by exists ix, j.
  - done.
  - destruct H as (_ & ix & Hix & ->). split; [|done]. by exists ix, k.
  - destruct H as (_ & -> & ix & Hix & ->).
    split; [by exists ix, k|]. apply gentle_keeps_spans, gentle_highlight.
Qed.

Lemma hover_task_mono b b' t :
  b <= b' -> hover_task k ixs b t -> hover_task k ixs b' t.
Proof.
  intros Hb. destruct t as [fk|fk|r d|r c|s r tr]; cbn; try done.
  intros (Hs & H). split; [lia|done].
Qed.

Lemma session_hover_task sid t :
  session_task k ixs None highlight sid t -> hover_task k ixs (S sid) t.
Proof.
  destruct t as [fk|fk|r d|r c|s r tr]; cbn; try done.
  - intros (m & ix & Hm & -> & ->). split; [done|]. exists ix.
    split; [|done]. apply list_elem_of_lookup. eauto.
  - intros (-> & -> & H). split; [lia|done].
Qed.

Lemma hover_task_length b t : hover_task k ixs b t -> length (task_target t) = 2.
Proof.
  intros [(ix & j & _ & ->) _]%hover_cell_task. done.
Qed.

(** *** The three events keep the invariant *)

Lemma mouseenter_inv l :
  hover_inv k ixs l -> tame (page l) -> hover_inv k ixs (mouseenter l).
Proof.
  destruct l as [w c]. intros ([Hp Hc] & Htasks & _ & _) Htame.
  cbn [page cancelSweep] in *. unfold mouseenter. cbn [page].
  rewrite (scrambleSweep_prepared k _ _ _ w Hp). rewrite Hc.
  split; [|split; [|split] ]; cbn [page cancelSweep].
  - unfold upkept. cbn [el].
    apply swept_upkeeps;
      [apply gentle_keeps_spans, gentle_highlight|by apply Forall_forall|done].
  - cbn [timers cancelled]. rewrite length_app. cbn [length].
    intros x [Hx|Hx]%elem_of_app.
    + apply (hover_task_mono (length (cancelled w))); [lia|by apply Htasks].
    + rewrite Nat.add_1_r. apply session_hover_task.
      by apply session_timers_tasks in Hx.
  - intros x s r tr Hx Hsnd. cbn [page cancelSweep timers] in *.
    apply elem_of_app in Hx as [Hx|Hx].
    + left. pose proof (Htasks x Hx) as Ht. rewrite Hsnd in Ht.
      destruct Ht as (Hs & _). pose proof (Htame x s r tr Hx Hsnd) as Hcan.
      unfold is_cancelled in *. cbn [cancelled].
      by rewrite lookup_app_l.
    + right. apply session_timers_tasks in Hx. rewrite Hsnd in Hx.
      destruct Hx as (-> & _). done.
  - intros s [= <-]. cbn [cancelled]. rewrite length_app. cbn. lia.
Qed.

Lemma elapse_inv order l : hover_inv k ixs l -> hover_inv k ixs (elapse order l).
Proof.
  destruct l as [w c]. intros (Hup & Htasks & Hleash & Hc).
  cbn [page cancelSweep] in *. unfold elapse. cbn [page cancelSweep].
  split; [|split; [|split] ]; cbn [page cancelSweep].
  - apply fires_upkept; [|done]. intros x Hx.
    by eapply hover_cell_task, Htasks.
  - intros x Hx%fires_timers_subset. rewrite fires_cancelled.
    by apply Htasks.
  - intros x s r tr Hx%fires_timers_subset Hsnd. cbn [page cancelSweep] in *.
    unfold is_cancelled. rewrite fires_cancelled.
    by apply (Hleash x s r tr).
  - intros s Hs. rewrite fires_cancelled. by apply Hc.
Qed.

Lemma elapse_tame order w : tame w -> tame (fires order w).
Proof.
  intros Ht x s r tr Hx%fires_timers_subset Hsnd.
  unfold is_cancelled. rewrite fires_cancelled. by apply (Ht x s r tr).
Qed.

Lemma paint_fields (rs : list ref) w :
  let w' := foldl (fun w r =>
                     with_el (modify (set_style "color" GREY) r) w) w rs in
  timers w' = timers w /\ cancelled w' = cancelled w /\ calls w' = calls w.
Proof.
  revert w. induction rs as [|r rs IH]; intros w; [done|]. cbn [foldl].
  destruct (IH (with_el (modify (set_style "color" GREY) r) w))
    as (-> & -> & ->). done.
Qed.

Lemma paint_upkept (rs : list ref) w :
  Forall (fun r => exists ix j, r = [ix; j] /\ ix ∈ ixs) rs ->
  upkept k ixs w ->
  upkept k ixs (foldl (fun w r =>
                         with_el (modify (set_style "color" GREY) r) w) w rs).
Proof.
  revert w. induction rs as [|r rs IH]; intros w Hrs Hw; [done|].
  apply Forall_cons in Hrs as [(ix & j & -> & Hix) Hrs]. cbn [foldl].
  apply IH; [done|]. apply upkept_modify; [done..|].
  apply gentle_keeps_spans, gentle_set_style.
Qed.

Lemma paint_other (rs : list ref) w q :
  q ∉ rs -> Forall (fun r => length r = length q) rs ->
  get q (el (foldl (fun w r =>
                      with_el (modify (set_style "color" GREY) r) w) w rs))
  = get q (el w).
Proof.
  revert w. induction rs as [|r rs IH]; intros w Hq Hrs; [done|].
  apply not_elem_of_cons in Hq as [Hne Hq].
  apply Forall_cons in Hrs as [Hr Hrs]. cbn [foldl].
  rewrite IH by done. cbn [with_el el]. by apply get_modify_level.
Qed.

Lemma paint_grey (rs : list ref) w q :
  q ∈ rs -> Forall (fun r => length r = length q) rs ->
  is_Some (get q (el w)) ->
  style_at q "color"
    (foldl (fun w r => with_el (modify (set_style "color" GREY) r) w) w rs)
  = Some GREY.
Proof.
  revert w. induction rs as [|r rs IH]; intros w Hq Hrs Hsome.
  - by apply elem_of_nil in Hq.
  - apply Forall_cons in Hrs as [Hr Hrs]. cbn [foldl].
    destruct (decide (q ∈ rs)) as [Hin|Hnotin].
    + apply IH; [done..|]. cbn [with_el el].
      by apply get_is_Some_modify_level.
    + apply elem_of_cons in Hq as [->|Hq]; [|done].
      unfold style_at. rewrite paint_other by done. cbn [with_el el].
      rewrite get_modify_same. destruct Hsome as [e ->]. cbn.
      apply get_style_set_style.
Qed.

Lemma mouseleave_inv l :
  hover_inv k ixs l ->
  hover_inv k ixs (mouseleave l) /\ tame (page (mouseleave l))
  /\ reals_are k ixs GREY (page (mouseleave l))
  /\ calls (page (mouseleave l)) = calls (page l)
  /\ forall ix j, j < k ->
       get [ix; j] (el (page (mouseleave l))) = get [ix; j] (el (page l)).
Proof.
  destruct l as [w c]. intros ([Hp Hc] & Htasks & Hleash & Hbound).
  cbn [page cancelSweep] in *. unfold mouseleave. cbn [page cancelSweep].
  set (w0 := match c with Some sid => cancel sid w | None => w end).
  assert (Hel : el w0 = el w) by (subst w0; by destruct c).
  assert (Hts : timers w0 = timers w) by (subst w0; by destruct c).
  assert (Hcalls : calls w0 = calls w) by (subst w0; by destruct c).
  assert (Hlen : length (cancelled w0) = length (cancelled w)).
  { subst w0. destruct c; [|done]. cbn. by rewrite length_insert. }
  assert (Htame : tame w0).
  { intros x s r tr Hx Hsnd. rewrite Hts in Hx.
    destruct (Hleash x s r tr Hx Hsnd) as [Hcan|Hcur];
      cbn [page cancelSweep] in *.
    - subst w0. destruct c as [sid|]; [|done].
      unfold is_cancelled, cancel in *. cbn.
      destruct (decide (sid = s)) as [->|Hne].
      + rewrite list_lookup_insert_eq; [done|].
        destruct (cancelled w !! s) eqn:E; [|done].
        by apply lookup_lt_Some in E.
      + by rewrite list_lookup_insert_ne.
    - subst c w0. unfold is_cancelled, cancel. cbn.
      rewrite list_lookup_insert_eq; [done|]. by apply Hbound. }
  change "scramble-real"%string with REAL.
  rewrite Hel, (prepared_reals _ _ Hp), Hc.
  set (rs := map (fun i => [i; k]) ixs).
  assert (Hrs : Forall (fun r => exists ix j, r = [ix; j] /\ ix ∈ ixs) rs).
  { apply Forall_forall. intros r (ix & -> & Hix)%list_elem_of_fmap. eauto. }
  assert (Hrs2 : forall q : ref, length q = 2 ->
                           Forall (fun r => length r = length q) rs).
  { intros q Hq. apply Forall_forall.
    intros r (ix & -> & Hix)%list_elem_of_fmap. by rewrite Hq. }
  destruct (paint_fields rs w0) as (Hpt & Hpc & Hpl). cbn zeta in Hpt, Hpc, Hpl.
  change (Keyword "#8A8A8A") with GREY.
  split; [|split; [|split; [|split] ] ].
  - split; [|split; [|split] ]; cbn [page cancelSweep].
    + apply paint_upkept; [done|]. split; by rewrite Hel.
    + rewrite Hpt, Hpc, Hts, Hlen. exact Htasks.
    + intros x s r tr Hx Hsnd. left. cbn [page] in *.
      rewrite Hpt in Hx. unfold is_cancelled. rewrite Hpc.
      by apply (Htame x s r tr).
    + intros s Hs. rewrite Hpc, Hlen. by apply Hbound.
  - intros x s r tr Hx Hsnd. rewrite Hpt in Hx.
    unfold is_cancelled. rewrite Hpc. by apply (Htame x s r tr).
  - intros ix Hix. apply paint_grey.
    + apply list_elem_of_fmap. eauto.
    + by apply Hrs2.
    + rewrite Hel. apply (cells_real_some k). by rewrite Hc.
  - by rewrite Hpl.
  - intros ix j Hj. rewrite paint_other, Hel; [done| |by apply Hrs2].
    intros (ix' & [= -> ->] & _)%list_elem_of_fmap. lia.
Qed.

(** *** Colours while timers fire *)

Lemma keeps_color_opacity v : keeps_color (set_style "opacity" v).
Proof. intros [a ks]. unfold get_style. cbn. by rewrite lookup_insert_ne. Qed.

Lemma keeps_color_display v : keeps_color (set_style "display" v).
Proof. intros [a ks]. unfold get_style. cbn. by rewrite lookup_insert_ne. Qed.

Lemma fire_color n w t0 t q :
  timers w !! n = Some (t0, t) -> length (task_target t) = length q ->
  (task_target t = q -> keeps_color (task_effect t w)) ->
  style_at q "color" (fire n w) = style_at q "color" w.
Proof.
  intros Hn Hlen Hkeep. unfold style_at.
  destruct (decide (task_target t = q)) as [Heq|Hne].
  - rewrite <- Heq, (fire_get_target n w t0 t Hn).
    destruct (get (task_target t) (el w)) as [e|]; [|done]. cbn.
    by apply Hkeep.
  - by rewrite (fire_get_other n w t0 t q Hn Hlen Hne).
Qed.

Lemma fire_fake_color b n w ix j v :
  (forall x, x ∈ timers w -> hover_task k ixs b (snd x)) -> j < k ->
  style_at [ix; j] "color" w = Some v ->
  style_at [ix; j] "color" (fire n w) = Some v.
Proof.
  intros Htasks Hj Hv. destruct (timers w !! n) as [[t0 t]|] eqn:Hn.
  - rewrite (fire_color n w t0 t _ Hn); [done| |].
    + eapply hover_task_length, (Htasks (t0, t)).
      apply list_elem_of_lookup. eauto.
    + intros Htarget. assert (Ht : hover_task k ixs b t).
      { apply (Htasks (t0, t)). apply list_elem_of_lookup. eauto. }
      intros e.
      destruct t as [fk|fk|r d|r c|s r tr]; cbn in Ht, Htarget |- *.
      * by rewrite keeps_color_opacity, keeps_color_display.
      * by rewrite keeps_color_display.
      * done.
      * destruct Ht as (_ & ix' & _ & ->). injection Htarget as _ ->. lia.
      * destruct Ht as (_ & _ & ix' & _ & ->). injection Htarget as _ ->. lia.
  - by rewrite (fire_none n w Hn).
Qed.

Lemma fire_real_color b n w ix v :
  (forall x, x ∈ timers w -> hover_task k ixs b (snd x)) -> tame w ->
  style_at [ix; k] "color" w = Some v ->
  style_at [ix; k] "color" (fire n w) = Some v.
Proof.
  intros Htasks Htame Hv. destruct (timers w !! n) as [[t0 t]|] eqn:Hn.
  - assert (Hin : (t0, t) ∈ timers w) by (apply list_elem_of_lookup; eauto).
    rewrite (fire_color n w t0 t _ Hn); [done| |].
    + eapply hover_task_length, (Htasks (t0, t) Hin).
    + intros Htarget. pose proof (Htasks (t0, t) Hin) as Ht.
      intros e.
      destruct t as [fk|fk|r d|r c|s r tr]; cbn in Ht, Htarget |- *.
      * by rewrite keeps_color_opacity, keeps_color_display.
      * by rewrite keeps_color_display.
      * done.
      * destruct Ht as (-> & _). by rewrite keeps_color_opacity.
      * rewrite (Htame (t0, SweepRestore s r tr) s r tr Hin eq_refl).
        by rewrite keeps_color_opacity.
  - by rewrite (fire_none n w Hn).
Qed.

Lemma fire_tame_calls n w : tame w -> calls (fire n w) = calls w.
Proof.
  intros Htame. destruct (timers w !! n) as [[t0 t]|] eqn:Hn.
  - rewrite (fire_calls n w t0 t Hn).
    destruct t as [fk|fk|r d|r c|s r tr]; cbn [task_calls];
      try apply app_nil_r.
    rewrite (Htame (t0, SweepRestore s r tr) s r tr); [apply app_nil_r| |done].
    apply list_elem_of_lookup. eauto.
  - by rewrite (fire_none n w Hn).
Qed.

Lemma fires_step_tasks b n w :
  (forall x, x ∈ timers w -> hover_task k ixs b (snd x)) ->
  forall x, x ∈ timers (fire n w) -> hover_task k ixs b (snd x).
Proof.
  intros H x Hx. apply H. rewrite fire_timers in Hx.
  by apply list_elem_of_delete_inv in Hx.
Qed.

Lemma fire_tame n w : tame w -> tame (fire n w).
Proof. intros H. apply (elapse_tame [n] w H). Qed.

Lemma fires_fakes b order w v :
  (forall x, x ∈ timers w -> hover_task k ixs b (snd x)) ->
  fakes_are k ixs v w -> fakes_are k ixs v (fires order w).
Proof.
  revert w. induction order as [|n order IH]; intros w Htasks Hv; [done|].
  rewrite fires_cons. apply IH; [by apply fires_step_tasks|].
  intros ix j Hix Hj. apply (fire_fake_color b); [done..|]. by apply Hv.
Qed.

Lemma fires_reals b order w v :
  (forall x, x ∈ timers w -> hover_task k ixs b (snd x)) -> tame w ->
  reals_are k ixs v w ->
  reals_are k ixs v (fires order w) /\ calls (fires order w) = calls w.
Proof.
  revert w. induction order as [|n order IH]; intros w Htasks Htame Hv; [done|].
  rewrite fires_cons.
  destruct (IH (fire n w)) as [Hr Hc];
    [by apply fires_step_tasks|by apply fire_tame| |].
  - intros ix Hix. apply (fire_real_color b); [done..|]. by apply Hv.
  - split; [done|]. by rewrite Hc, fire_tame_calls.
Qed.

(** *** Runs of events *)

Lemma quiet_link_inv w :
  prepared k (el w) = true -> cells k (el w) = ixs -> timers w = [] ->
  hover_inv k ixs (Link w None) /\ tame w.
Proof.
  intros Hp Hc Hq. split; [split; [done|split; [|split] ]|].
  - intros x Hx. cbn [page] in Hx. rewrite Hq in Hx.
    by apply elem_of_nil in Hx.
  - intros x s r tr Hx. cbn [page] in Hx. rewrite Hq in Hx.
    by apply elem_of_nil in Hx.
  - done.
  - intros x s r tr Hx. rewrite Hq in Hx. by apply elem_of_nil in Hx.
Qed.

Lemma run_inv evs l inside :
  hover_inv k ixs l -> (inside = false -> tame (page l)) ->
  no_reentry inside evs = true ->
  hover_inv k ixs (foldl handle l evs).
Proof.
  revert l inside. induction evs as [|ev evs IH]; intros l inside Hinv Ht Hev;
    [done|].
  cbn [foldl]. destruct ev as [| |order]; cbn [no_reentry handle] in *.
  - apply andb_prop in Hev as [Hin%negb_true_iff Hev].
    apply (IH _ true); [|done|done]. by apply mouseenter_inv, Ht.
  - destruct (mouseleave_inv l Hinv) as (Hinv' & Htame & _).
    by apply (IH _ false).
  - apply (IH _ inside); [by apply elapse_inv| |done].
    intros Hin. by apply elapse_tame, Ht.
Qed.

End HoverRun.

Section HoverColours.

Import Chrome Hover.
Implicit Types (w : world) (l : link) (e : HTMLElement).
Variable k : nat.
Variable ixs : list nat.

Lemma prepared_fakes_from (ks : list node) i r :
  forallb (fun n => match n with
                    | inl _ => true
                    | inr c => is_cell k c || is_plain c
                    end) ks = true ->
  r ∈ select_in (has_class FAKE) (querySelectorAll FAKE) ks i ->
  exists ix j, ix ∈ cells_from k i ks /\ j < k /\ r = [ix; j].
Proof.
  revert i. induction ks as [|[s|c] ks IH]; intros i H Hr; cbn in *.
  - by apply elem_of_nil in Hr.
  - by apply IH.
  - apply andb_prop in H as [Hc Hks].
    destruct (is_cell k c) eqn:Hcell.
    + destruct (is_cell_kids _ _ Hcell) as (_ & _ & _ & _ & Hnf).
      rewrite Hnf, (cell_fake_refs _ _ Hcell) in Hr. cbn in Hr.
      apply elem_of_app in Hr as [Hr|Hr].
      * apply list_elem_of_fmap in Hr as (p & -> & Hp).
        apply list_elem_of_fmap in Hp as (j & -> & Hj).
        apply elem_of_seq in Hj. exists i, j. split; [by left|]. split; [lia|done].
      * destruct (IH _ Hks Hr) as (ix & j & Hix & Hj & ->).
        exists ix, j. split; [by right|done].
    + cbn in Hc. destruct (is_plain_select _ Hc) as (_ & Hnf & _ & Hq).
      rewrite Hnf, Hq in Hr. cbn in Hr. by apply IH.
Qed.

Lemma prepared_fakes e r :
  prepared k e = true -> r ∈ querySelectorAll FAKE e ->
  exists ix j, ix ∈ cells k e /\ j < k /\ r = [ix; j].
Proof.
  intros Hp Hr. rewrite querySelectorAll_kids in Hr.
  by apply (prepared_fakes_from _ 0).
Qed.

Lemma mouseenter_black l :
  hover_inv k ixs l -> fakes_are k ixs BLACK (page (mouseenter l)).
Proof.
  destruct l as [w c]. intros ([Hp Hc] & _). cbn [page] in *.
  unfold mouseenter. cbn [page].
  rewrite (scrambleSweep_prepared k _ _ _ w Hp), Hc. cbn [page].
  intros ix j Hix Hj. unfold style_at. cbn [el].
  apply list_elem_of_lookup in Hix as [m Hm].
  assert (Hnd : NoDup ixs) by (rewrite <- Hc; apply cells_NoDup).
  rewrite (get_swept_fake highlight (entropy w) k (draws w) ixs (el w) m ix j
             Hnd Hm Hj).
  destruct (cells_fake_some k (el w) ix j) as [e ->]; [|done|].
  { rewrite Hc. apply list_elem_of_lookup. eauto. }
  cbn. apply get_style_set_style.
Qed.

Lemma run_black evs l inside :
  hover_inv k ixs l -> (inside = false -> tame (page l)) ->
  no_reentry inside evs = true ->
  fakes_are k ixs BLACK (page l) ->
  fakes_are k ixs BLACK (page (foldl handle l evs)).
Proof.
  revert l inside.
  induction evs as [|ev evs IH]; intros l inside Hinv Ht Hev Hb; [done|].
  cbn [foldl]. destruct ev as [| |order]; cbn [no_reentry handle] in *.
  - apply andb_prop in Hev as [Hin%negb_true_iff Hev].
    apply (IH _ true); [by apply mouseenter_inv, Ht|done|done|].
    by apply mouseenter_black.
  - destruct (mouseleave_inv k ixs l Hinv) as (Hinv' & Htame & _ & _ & Hget).
    apply (IH _ false); [done..|].
    intros ix j Hix Hj. unfold style_at. rewrite Hget by done.
    by apply Hb.
  - apply (IH _ inside); [by apply elapse_inv| |done|].
    + intros Hin. by apply elapse_tame, Ht.
    + destruct l as [w c]. destruct Hinv as (_ & Htasks & _).
      cbn [elapse page] in *. by apply (fires_fakes k ixs _ order w BLACK Htasks).
Qed.

End HoverColours.

Example reentry_blackens :
  style_at [0; 2] "color"
    (run_all (Chrome.page
                (foldl Chrome.handle (Chrome.Link Sample.hi None)
                   [Chrome.Enter; Chrome.Enter; Chrome.Leave])))
  = Some Hover.BLACK.
Proof. by vm_compute. Qed.

(** ** The order in which [run_all] runs the callbacks *)

Section Schedule.

Import Order.
Implicit Types (w : world) (ts : list (Q * task)).

Lemma earliest_from_spec (pre : list (Q * task)) ts b db tb :
  pre !! b = Some (db, tb) ->
  (forall j x, pre !! j = Some x -> (db <= fst x)%Q) ->
  (forall j x, j < b -> pre !! j = Some x -> ~ (fst x <= db)%Q) ->
  exists d t,
    (pre ++ ts) !! earliest_from (length pre) (b, db) ts = Some (d, t)
    /\ forall j x, j < earliest_from (length pre) (b, db) ts ->
         (pre ++ ts) !! j = Some x -> ~ (fst x <= d)%Q.
Proof.
  revert pre b db tb. induction ts as [|[due t] ts IH];
    intros pre b db tb Hb Hmin Hfirst.
  - cbn [earliest_from fst]. rewrite app_nil_r. eauto.
  - cbn [earliest_from snd].
    replace (pre ++ (due, t) :: ts) with ((pre ++ [(due, t)]) ++ ts)
      by (by rewrite <- app_assoc).
    replace (S (length pre)) with (length (pre ++ [(due, t)]))
      by (rewrite length_app; cbn; lia).
    destruct (Qle_bool db due) eqn:Hle.
    + apply Qle_bool_iff in Hle. apply (IH _ b db tb).
      * by apply lookup_app_l_Some.
      * intros j x [Hx|[_ Hx] ]%lookup_app_Some; [by apply (Hmin j)|].
        destruct (j - length pre) as [|?]; [|done].
        by injection Hx as <-.
      * intros j x Hj Hx. apply (Hfirst j x Hj).
        apply lookup_lt_Some in Hb.
        by rewrite lookup_app_l in Hx by lia.
    + assert (Hlt : (due < db)%Q).
      { apply Qnot_le_lt. intros H%Qle_bool_iff. congruence. }
      apply (IH _ (length pre) due t).
      * by rewrite lookup_app_r, Nat.sub_diag.
      * intros j x [Hx|[_ Hx] ]%lookup_app_Some.
        -- apply Qlt_le_weak. eapply Qlt_le_trans; [exact Hlt|].
           by apply (Hmin j).
        -- destruct (j - length pre) as [|?]; [|done].
           injection Hx as <-. apply Qle_refl.
      * intros j x Hj Hx Hle'. rewrite lookup_app_l in Hx by done.
        apply (Qlt_not_le _ _ Hlt). eapply Qle_trans; [|exact Hle'].
        by apply (Hmin j).
Qed.

(** The timer [run_all] takes next: no timer registered before it is due
    as early. *)
Lemma earliest_spec ts :
  ts <> [] ->
  exists d t,
    ts !! earliest ts = Some (d, t)
    /\ forall j x, j < earliest ts -> ts !! j = Some x -> ~ (fst x <= d)%Q.
Proof.
  destruct ts as [|[d0 t0] ts]; [done|]. intros _. unfold earliest.
  apply (earliest_from_spec [(d0, t0)] ts 0 d0 t0).
  - done.
  - intros [|j] x Hx; [|done]. injection Hx as <-. apply Qle_refl.
  - intros j x Hj. lia.
Qed.

Lemma filter_delete_out {A} (P : A -> bool) (l : list A) i x :
  l !! i = Some x -> P x = false ->
  List.filter P (delete i l) = List.filter P l.
Proof.
  revert i. induction l as [|y l IH]; intros [|i] Hi Hx; try done.
  - cbn in Hi. injection Hi as ->.
    change (delete 0 (x :: l)) with l. cbn [List.filter]. by rewrite Hx.
  - change (delete (S i) (y :: l)) with (y :: delete i l).
    cbn [List.filter]. by rewrite (IH i).
Qed.

Lemma filter_delete_first {A} (P : A -> bool) (l : list A) i x :
  l !! i = Some x -> P x = true ->
  (forall j y, j < i -> l !! j = Some y -> P y = false) ->
  List.filter P l = x :: List.filter P (delete i l).
Proof.
  revert i. induction l as [|y l IH]; intros [|i] Hi Hx Hfirst; try done.
  - cbn in Hi. injection Hi as ->.
    change (delete 0 (x :: l)) with l. cbn [List.filter]. by rewrite Hx.
  - change (delete (S i) (y :: l)) with (y :: delete i l).
    cbn [List.filter]. rewrite (Hfirst 0 y) by (done || lia).
    apply (IH i); [done..|].
    intros j z Hj Hz. apply (Hfirst (S j) z); [lia|done].
Qed.

Lemma timely_filter (P : Q * task -> bool) ts i j x y :
  timely (List.filter P ts) -> j < i ->
  ts !! j = Some y -> ts !! i = Some x -> P y = true -> P x = true ->
  (fst y <= fst x)%Q.
Proof.
  revert i j. induction ts as [|z ts IH]; intros i j Ht Hji Hy Hx Py Px;
    [done|].
  destruct i as [|i]; [lia|]. cbn in Hx. destruct j as [|j].
  - injection Hy as ->. cbn in Ht. rewrite Py in Ht. destruct Ht as [Hall _].
    rewrite Forall_forall in Hall. apply Hall.
    apply list_elem_of_In, filter_In. split; [|done].
    apply list_elem_of_In, list_elem_of_lookup. eauto.
  - cbn in Hy, Ht. apply (IH i j); [|lia|done..].
    destruct (P z); [by destruct Ht|done].
Qed.

Lemma played_cancelled w w' l e :
  cancelled w = cancelled w' -> played w l e = played w' l e.
Proof.
  intros Hc. unfold played. revert e.
  induction l as [|[d t] l IH]; intros e; [done|]. cbn [foldl snd].
  rewrite IH. f_equal.
  destruct t as [fk|fk|r d'|r c|s r tr]; try done.
  cbn [task_effect]. unfold is_cancelled. by rewrite Hc.
Qed.

Lemma iter_fire_aimed n w q :
  length (timers w) = n -> settled w = true -> length q = 2 ->
  timely (aimed q (timers w)) ->
  get q (el (Nat.iter n (fun w => fire (earliest (timers w)) w) w))
  = played w (aimed q (timers w)) <$> get q (el w).
Proof.
  revert w. induction n as [|n IH]; intros w Hlen Hset Hq Htimely.
  - apply nil_length_inv in Hlen. rewrite Hlen. cbn.
    by destruct (get q (el w)).
  - rewrite Nat.iter_succ_r.
    destruct (earliest_spec (timers w)) as (d & t & Hn & Hfirst).
    { intros H. by rewrite H in Hlen. }
    set (i := earliest (timers w)) in *.
    destruct (settled_lookup w i d t Hset Hn) as [Htl _].
    assert (Hts' : timers (fire i w) = delete i (timers w))
      by apply fire_timers.
    assert (Hlen' : length (timers (fire i w)) = n).
    { rewrite Hts', length_delete; [|by eauto]. lia. }
    assert (Hcan : cancelled (fire i w) = cancelled w)
      by apply fire_cancelled.
    destruct (decide (task_target t = q)) as [Heq|Hne].
    + assert (Haimed : aimed q (timers w)
                       = (d, t) :: aimed q (timers (fire i w))).
      { rewrite Hts'. apply filter_delete_first; [done| |].
        - cbn. by apply bool_decide_eq_true.
        - intros j y Hj Hy. apply bool_decide_eq_false. intros Hyq.
          apply (Hfirst j y Hj Hy).
          apply (timely_filter _ (timers w) i j (d, t) y Htimely Hj Hy Hn);
            cbn; by apply bool_decide_eq_true. }
      rewrite IH; [|done|by apply fire_settled|done|].
      * rewrite Haimed. subst q. rewrite (fire_get_target i w d t Hn).
        destruct (get (task_target t) (el w)) as [e|]; [|done].
        cbn [fmap option_fmap option_map]. f_equal.
        by rewrite (played_cancelled (fire i w) w _ _ Hcan).
      * rewrite Haimed in Htimely. by destruct Htimely.
    + assert (Haimed : aimed q (timers (fire i w)) = aimed q (timers w)).
      { rewrite Hts'. apply (filter_delete_out _ _ i (d, t)); [done|].
        cbn. by apply bool_decide_eq_false. }
      rewrite IH; [|done|by apply fire_settled|done|by rewrite Haimed].
      rewrite Haimed, (fire_get_other i w d t q Hn) by congruence.
      destruct (get q (el w)); [|done]. cbn. f_equal.
      by apply played_cancelled.
Qed.

(** [run_all] runs the callbacks that write to one span in the order of
    their registration when that is the order in which they are due. *)
Lemma run_all_aimed w q :
  settled w = true -> length q = 2 -> timely (aimed q (timers w)) ->
  get q (el (run_all w)) = played w (aimed q (timers w)) <$> get q (el w).
Proof. intros. by apply iter_fire_aimed. Qed.

End Schedule.

(** ** The timers of a sweep, span by span *)

Section SweepOrder.

Import Order.
Implicit Types (w : world) (q : ref) (fakes : list ref).

Lemma due_mono (clk x y : Q) :
  (x <= y)%Q ->
  (clk + (if Qle_bool 0 x then x else 0)
   <= clk + (if Qle_bool 0 y then y else 0))%Q.
Proof.
  intros Hxy. apply Qplus_le_r.
  destruct (Qle_bool 0 x) eqn:Hx, (Qle_bool 0 y) eqn:Hy.
  - done.
  - apply Qle_bool_iff in Hx.
    assert (Qle_bool 0 y = true) as Hy'
        by (apply Qle_bool_iff; by eapply Qle_trans).
    congruence.
  - by apply Qle_bool_iff.
  - apply Qle_refl.
Qed.

Lemma later_by (x d : Q) : (0 <= d)%Q -> (x * 1000 <= (x + d) * 1000)%Q.
Proof.
  intros Hd. apply Qmult_le_compat_r; [|done].
  rewrite <- (Qplus_0_r x) at 1. by apply Qplus_le_r.
Qed.

Lemma of_nat_nonneg n : (0 <= of_nat n)%Q.
Proof. unfold of_nat, Qle. cbn. lia. Qed.

Lemma aimed_app q (l1 l2 : list (Q * task)) :
  aimed q (l1 ++ l2) = aimed q l1 ++ aimed q l2.
Proof. unfold aimed. apply List.filter_app. Qed.

Lemma aimed_flash_none q clk b s d fi fakes :
  q ∉ fakes -> aimed q (flash_timers clk b s d fi fakes) = [].
Proof.
  revert fi. induction fakes as [|f fakes IH]; intros fi Hq; [done|].
  apply not_elem_of_cons in Hq as [Hne Hq].
  cbn [flash_timers]. unfold aimed in *. cbn [List.filter snd task_target].
  rewrite bool_decide_eq_false_2 by congruence. by apply IH.
Qed.

Lemma aimed_flash q clk b s d fi fakes :
  NoDup fakes -> q ∈ fakes -> (0 <= d)%Q ->
  exists d1 d2,
    aimed q (flash_timers clk b s d fi fakes)
    = [(d1, ShowFake q); (d2, HideFake q)]
    /\ (d1 <= d2)%Q.
Proof.
  intros Hnd Hq Hd. revert fi.
  induction fakes as [|f fakes IH]; intros fi;
    [by apply elem_of_nil in Hq|].
  apply NoDup_cons in Hnd as [Hf Hnd]. cbn [flash_timers].
  destruct (decide (f = q)) as [->|Hne].
  - eexists _, _. split.
    + unfold aimed. cbn [List.filter snd task_target].
      rewrite bool_decide_eq_true_2 by done.
      fold (aimed q (flash_timers clk b s d (S fi) fakes)).
      by rewrite aimed_flash_none.
    + by apply due_mono, later_by.
  - apply elem_of_cons in Hq as [->|Hq]; [done|].
    destruct (IH Hnd Hq (S fi)) as (d1 & d2 & Heq & Hle).
    exists d1, d2. split; [|done].
    unfold aimed in *. cbn [List.filter snd task_target].
    by rewrite bool_decide_eq_false_2 by congruence.
Qed.

Variable options : ScrambleOptions.
Variable newChars : option (list jsstring).
Variable transform : HTMLElement -> HTMLElement.
Variables (sid k : nat) (clk : Q).
Hypothesis Hstagger : (0 <= default (16 # 1000) (fakeStagger options))%Q.
Hypothesis Hduration : (0 <= default (12 # 100) (fakeDuration options))%Q.

Lemma aimed_cell_real i n real fakes :
  real ∉ fakes ->
  exists dh dr,
    aimed real (cell_timers clk options newChars transform sid i n real fakes)
    = [(dh, SweepHideReal real (new_char newChars i));
       (dr, SweepRestore sid real transform)]
    /\ (dh <= dr)%Q.
Proof.
  intros Hreal. eexists _, _. split.
  - unfold cell_timers. rewrite !aimed_app, aimed_flash_none by done.
    unfold aimed. cbn [List.filter snd task_target app].
    by rewrite bool_decide_eq_true_2.
  - apply due_mono. unfold sweep_restore. rewrite <- Qplus_assoc.
    apply later_by.
    rewrite <- (Qplus_0_r 0). apply Qplus_le_compat; [|done].
    apply Qmult_le_0_compat; [apply of_nat_nonneg|done].
Qed.

Lemma aimed_cell_fake i n real fakes q :
  NoDup fakes -> q ∈ fakes -> real ∉ fakes ->
  exists d1 d2,
    aimed q (cell_timers clk options newChars transform sid i n real fakes)
    = [(d1, ShowFake q); (d2, HideFake q)]
    /\ (d1 <= d2)%Q.
Proof.
  intros Hnd Hq Hreal.
  destruct (aimed_flash q clk (sweep_base options n)
              (default (16 # 1000) (fakeStagger options))
              (default (12 # 100) (fakeDuration options)) 0 fakes
              Hnd Hq Hduration) as (d1 & d2 & Heq & Hle).
  exists d1, d2. split; [|done].
  unfold cell_timers. rewrite !aimed_app, Heq.
  unfold aimed. cbn [List.filter snd task_target app].
  rewrite !bool_decide_eq_false_2; [done|intros ->; done..].
Qed.

Lemma aimed_cell_none i n real fakes q :
  q <> real -> q ∉ fakes ->
  aimed q (cell_timers clk options newChars transform sid i n real fakes) = [].
Proof.
  intros Hne Hq. unfold cell_timers.
  rewrite !aimed_app, aimed_flash_none by done.
  unfold aimed. cbn [List.filter snd task_target app].
  by rewrite !bool_decide_eq_false_2 by congruence.
Qed.

Lemma real_not_fake i : [i; k] ∉ cell_fakes k i.
Proof.
  intros (j & [= ->] & Hj%elem_of_seq)%list_elem_of_fmap. lia.
Qed.

Lemma aimed_session_none n ixs ix j :
  ix ∉ ixs ->
  aimed [ix; j] (session_timers clk options newChars transform sid k n ixs)
  = [].
Proof.
  revert n. induction ixs as [|i ixs IH]; intros n Hix; [done|].
  apply not_elem_of_cons in Hix as [Hne Hix]. cbn [session_timers].
  rewrite aimed_app, IH by done. rewrite aimed_cell_none; [done| |].
  - congruence.
  - intros (j' & [= -> _] & _)%list_elem_of_fmap. done.
Qed.

Lemma aimed_session_real n ixs m ix :
  NoDup ixs -> ixs !! m = Some ix ->
  exists dh dr,
    aimed [ix; k] (session_timers clk options newChars transform sid k n ixs)
    = [(dh, SweepHideReal [ix; k] (new_char newChars (n + m)));
       (dr, SweepRestore sid [ix; k] transform)]
    /\ (dh <= dr)%Q.
Proof.
  revert n m. induction ixs as [|i ixs IH]; intros n m Hnd Hm; [done|].
  apply NoDup_cons in Hnd as [Hi Hnd]. cbn [session_timers].
  rewrite aimed_app. destruct m as [|m].
  - injection Hm as ->.
    destruct (aimed_cell_real n n [ix; k] (cell_fakes k ix)
                (real_not_fake ix)) as (dh & dr & Heq & Hle).
    exists dh, dr. split; [|done].
    by rewrite Heq, aimed_session_none, Nat.add_0_r.
  - cbn in Hm. destruct (IH (S n) m Hnd Hm) as (dh & dr & Heq & Hle).
    exists dh, dr. split; [|done].
    rewrite Heq, aimed_cell_none.
    + by rewrite Nat.add_succ_r.
    + intros [= ->]. apply Hi, list_elem_of_lookup. eauto.
    + intros (j' & [= -> _] & _)%list_elem_of_fmap.
      apply Hi, list_elem_of_lookup. eauto.
Qed.

Lemma aimed_session_fake n ixs ix j :
  NoDup ixs -> ix ∈ ixs -> j < k ->
  exists d1 d2,
    aimed [ix; j] (session_timers clk options newChars transform sid k n ixs)
    = [(d1, ShowFake [ix; j]); (d2, HideFake [ix; j])]
    /\ (d1 <= d2)%Q.
Proof.
  revert n. induction ixs as [|i ixs IH]; intros n Hnd Hix Hj;
    [by apply elem_of_nil in Hix|].
  apply NoDup_cons in Hnd as [Hi Hnd]. cbn [session_timers].
  rewrite aimed_app. destruct (decide (i = ix)) as [->|Hne].
  - destruct (aimed_cell_fake n n [ix; k] (cell_fakes k ix) [ix; j])
      as (d1 & d2 & Heq & Hle).
    + apply cell_fakes_NoDup.
    + apply list_elem_of_fmap. exists j. split; [done|].
      apply elem_of_seq. lia.
    + apply real_not_fake.
    + exists d1, d2. split; [|done]. by rewrite Heq, aimed_session_none.
  - apply elem_of_cons in Hix as [->|Hix]; [done|].
    destruct (IH (S n) Hnd Hix Hj) as (d1 & d2 & Heq & Hle).
    exists d1, d2. split; [|done]. rewrite Heq, aimed_cell_none; [done| |].
    + intros [= -> ->]. lia.
    + intros (j' & [= -> _] & _)%list_elem_of_fmap. done.
Qed.

End SweepOrder.

Lemma keeps_style_set_style prop prop' v :
  prop <> prop' -> Order.keeps_style prop (set_style prop' v).
Proof.
  intros Hne [a ks]. unfold get_style. cbn. by rewrite lookup_insert_ne.
Qed.

Lemma keeps_style_id prop : Order.keeps_style prop no_transform.
Proof. by intros e. Qed.

Example negative_duration_ends_dirty :
  let options := Options None None (Some (-1)%Q) None None None in
  let w' := run_all (fst (scrambleSweep options None no_transform Sample.hi)) in
  style_at [1; 2] "opacity" w' = Some (Keyword "0")
  /\ style_at [0; 1] "display" w' = Some (Keyword "block")
  /\ timers w' = [].
Proof. by vm_compute. Qed.

(** ** A reveal in closed form *)

Section RevealCall.

Import Order.
Implicit Types (w : world) (e : HTMLElement) (fakes : list ref).
Variable k : nat.
Variable options : ScrambleOptions.

Lemma reveal_flash_all baseDelay fakeStagger fakeDuration fi fakes w :
  forEach_from (fun fi fake w =>
                  flash_fake (baseDelay + (of_nat fi + 1) * fakeStagger)%Q
                    fakeDuration fake w) fi fakes w
  = with_timers (fun ts => ts ++ reveal_flashes (clock w) baseDelay
                                   fakeStagger fakeDuration fi fakes) w.
Proof.
  revert fi w. induction fakes as [|fake rest IH]; intros fi w;
    cbn [forEach_from reveal_flashes].
  - destruct w. unfold with_timers. cbn. by rewrite app_nil_r.
  - rewrite IH. unfold flash_fake, setTimeout, with_timers. cbn.
    by rewrite <- !app_assoc.
Qed.

Lemma prepared_kids e e' :
  kids e = kids e' -> prepared k e = prepared k e' /\ cells k e = cells k e'.
Proof. unfold prepared, cells. by intros ->. Qed.

Lemma query_first_real ixs w ix :
  upkept k ixs w -> ix ∈ ixs ->
  query_first [ix] REAL (el w) = Some [ix; k]
  /\ query_from [ix] FAKE (el w) = cell_fakes k ix.
Proof.
  intros [Hp Hc] Hix. rewrite <- Hc in Hix.
  apply cells_spec in Hix as (c & Hkid & Hcell). unfold query_first.
  by rewrite (query_cell_real _ _ _ _ Hkid Hcell),
    (query_cell_fakes _ _ _ _ Hkid Hcell).
Qed.

Lemma hide_reals_eq ixs cs i w :
  upkept k ixs w -> Forall (fun ix => ix ∈ ixs) cs ->
  forEach_from (fun _ char w =>
                  match query_first char "scramble-real" (el w) with
                  | Some real =>
                      with_el (modify (set_style "opacity" (Keyword "0")) real)
                        w
                  | None => w
                  end) i (map (fun ix => [ix]) cs) w
  = with_el (fun e =>
               foldl (fun e ix =>
                        modify (set_style "opacity" (Keyword "0")) [ix; k] e)
                 e cs) w.
Proof.
  revert i w. induction cs as [|ix cs IH]; intros i w Hup Hcs.
  - by destruct w.
  - apply Forall_cons in Hcs as [Hix Hcs]. cbn [map forEach_from foldl].
    change "scramble-real"%string with REAL.
    destruct (query_first_real ixs w ix Hup Hix) as [-> _].
    rewrite IH; [done| |done]. apply upkept_modify; [done..|].
    apply gentle_keeps_spans, gentle_set_style.
Qed.

Lemma reveal_cells_eq ixs cs n w :
  upkept k ixs w -> Forall (fun ix => ix ∈ ixs) cs ->
  forEach_from
    (fun i char w =>
       match query_first char "scramble-real" (el w) with
       | Some real =>
           let fakes := query_from char "scramble-fake" (el w) in
           let baseDelay :=
             (default 0%Q (startDelay options)
              + of_nat i * default (5 # 100) (charStagger options))%Q in
           let w :=
             forEach (fun fi fake w =>
                        let fakeDelay :=
                          (baseDelay
                           + (of_nat fi + 1)
                             * default (16 # 1000) (fakeStagger options))%Q in
                        flash_fake fakeDelay
                          (default (16 # 100) (fakeDuration options)) fake w)
               fakes w in
           setTimeout (RevealReal real (default (3 # 10) (revealDuration options)))
             (baseDelay * 1000)%Q w
       | None => w
       end) n (map (fun ix => [ix]) cs) w
  = with_timers (fun ts => ts ++ reveal_timers (clock w) options k n cs) w.
Proof.
  revert n w. induction cs as [|ix cs IH]; intros n w Hup Hcs.
  - destruct w. unfold with_timers. cbn. by rewrite app_nil_r.
  - apply Forall_cons in Hcs as [Hix Hcs]. cbn [map forEach_from].
    change "scramble-real"%string with REAL.
    change "scramble-fake"%string with FAKE.
    destruct (query_first_real ixs w ix Hup Hix) as [-> ->].
    cbn zeta. unfold forEach. rewrite reveal_flash_all.
    rewrite IH; [|done|done].
    unfold setTimeout, with_timers, sweep_base.
    cbn [el timers cancelled entropy draws calls clock reveal_timers].
    by rewrite <- !app_assoc.
Qed.

Lemma foldl_hide_upkeeps ixs cs e :
  Forall (fun ix => ix ∈ ixs) cs ->
  prepared k e = true /\ cells k e = ixs ->
  prepared k (foldl (fun e ix =>
                       modify (set_style "opacity" (Keyword "0")) [ix; k] e)
                e cs) = true
  /\ cells k (foldl (fun e ix =>
                       modify (set_style "opacity" (Keyword "0")) [ix; k] e)
                e cs) = ixs.
Proof.
  revert e. induction cs as [|ix cs IH]; intros e Hcs [He1 He2]; [done|].
  apply Forall_cons in Hcs as [Hix Hcs]. cbn [foldl].
  rewrite <- He2 in Hix.
  destruct (prepared_modify k e ix k (set_style "opacity" (Keyword "0"))
              He1 Hix (gentle_keeps_spans _ (gentle_set_style _ _)))
    as [H1 H2].
  apply IH; [done|]. split; [done|]. by rewrite H2.
Qed.

(** [scrambleReveal] on a prepared element. *)
Lemma scrambleReveal_prepared w :
  prepared k (el w) = true ->
  scrambleReveal options w
  = World (hidden k (cells k (el w)) (el w))
      (timers w ++ reveal_timers (clock w) options k 0 (cells k (el w)))
      (cancelled w) (entropy w) (draws w) (calls w) (clock w).
Proof.
  intros Hp. unfold scrambleReveal. cbn zeta.
  change "scramble-real"%string with REAL.
  rewrite (prepared_reals _ _ Hp), map_map.
  change (fun x : nat => parentElement [x; k]) with (fun x : nat => [x]).
  set (w1 := with_el (set_style "opacity" (Keyword "1")) w).
  assert (Hup : upkept k (cells k (el w)) w1).
  { destruct (prepared_kids (el w1) (el w)) as [Hp1 Hc1].
    - subst w1. cbn. by destruct (el w).
    - split; [by rewrite Hp1|done]. }
  assert (Hall : Forall (fun ix => ix ∈ cells k (el w)) (cells k (el w)))
    by by apply Forall_forall.
  unfold forEach. rewrite (hide_reals_eq _ _ _ _ Hup Hall).
  rewrite (reveal_cells_eq (cells k (el w))); [done| |done].
  unfold upkept. cbn [with_el el]. by apply foldl_hide_upkeeps.
Qed.

End RevealCall.

Section RevealOrder.

Import Order.
Implicit Types (w : world) (e : HTMLElement) (q : ref) (fakes : list ref).

Lemma aimed_reveal_flashes_none q clk b s d fi fakes :
  q ∉ fakes -> aimed q (reveal_flashes clk b s d fi fakes) = [].
Proof.
  revert fi. induction fakes as [|f fakes IH]; intros fi Hq; [done|].
  apply not_elem_of_cons in Hq as [Hne Hq].
  cbn [reveal_flashes]. unfold aimed in *. cbn [List.filter snd task_target].
  rewrite bool_decide_eq_false_2 by congruence. by apply IH.
Qed.

Lemma aimed_reveal_flashes q clk b s d fi fakes :
  NoDup fakes -> q ∈ fakes -> (0 <= d)%Q ->
  exists d1 d2,
    aimed q (reveal_flashes clk b s d fi fakes)
    = [(d1, ShowFake q); (d2, HideFake q)]
    /\ (d1 <= d2)%Q.
Proof.
  intros Hnd Hq Hd. revert fi.
  induction fakes as [|f fakes IH]; intros fi;
    [by apply elem_of_nil in Hq|].
  apply NoDup_cons in Hnd as [Hf Hnd]. cbn [reveal_flashes].
  destruct (decide (f = q)) as [->|Hne].
  - eexists _, _. split.
    + unfold aimed. cbn [List.filter snd task_target].
      rewrite bool_decide_eq_true_2 by done.
      fold (aimed q (reveal_flashes clk b s d (S fi) fakes)).
      by rewrite aimed_reveal_flashes_none.
    + by apply due_mono, later_by.
  - apply elem_of_cons in Hq as [->|Hq]; [done|].
    destruct (IH Hnd Hq (S fi)) as (d1 & d2 & Heq & Hle).
    exists d1, d2. split; [|done].
    unfold aimed in *. cbn [List.filter snd task_target].
    by rewrite bool_decide_eq_false_2 by congruence.
Qed.

Variable k : nat.
Variable options : ScrambleOptions.
Variable clk : Q.

Lemma aimed_reveal_none n ixs ix j :
  ix ∉ ixs -> aimed [ix; j] (reveal_timers clk options k n ixs) = [].
Proof.
  revert n. induction ixs as [|i ixs IH]; intros n Hix; [done|].
  apply not_elem_of_cons in Hix as [Hne Hix]. cbn [reveal_timers].
  rewrite !aimed_app, IH by done. rewrite aimed_reveal_flashes_none.
  - unfold aimed. cbn [List.filter snd task_target app].
    by rewrite bool_decide_eq_false_2 by congruence.
  - intros (j' & [= -> _] & _)%list_elem_of_fmap. done.
Qed.

Lemma aimed_reveal_real n ixs ix :
  NoDup ixs -> ix ∈ ixs ->
  exists d,
    aimed [ix; k] (reveal_timers clk options k n ixs)
    = [(d, RevealReal [ix; k] (default (3 # 10) (revealDuration options)))].
Proof.
  revert n. induction ixs as [|i ixs IH]; intros n Hnd Hix;
    [by apply elem_of_nil in Hix|].
  apply NoDup_cons in Hnd as [Hi Hnd]. cbn [reveal_timers].
  rewrite !aimed_app.
  rewrite aimed_reveal_flashes_none.
  2:{ intros (j' & [= -> ->] & Hj%elem_of_seq)%list_elem_of_fmap. lia. }
  destruct (decide (i = ix)) as [->|Hne].
  - eexists. rewrite aimed_reveal_none by done.
    unfold aimed. cbn [List.filter snd task_target app].
    by rewrite bool_decide_eq_true_2.
  - apply elem_of_cons in Hix as [->|Hix]; [done|].
    destruct (IH (S n) Hnd Hix) as [d Heq]. exists d. rewrite Heq.
    unfold aimed. cbn [List.filter snd task_target app].
    by rewrite bool_decide_eq_false_2 by congruence.
Qed.

Lemma aimed_reveal_fake n ixs ix j :
  NoDup ixs -> ix ∈ ixs -> j < k ->
  (0 <= default (16 # 100) (fakeDuration options))%Q ->
  exists d1 d2,
    aimed [ix; j] (reveal_timers clk options k n ixs)
    = [(d1, ShowFake [ix; j]); (d2, HideFake [ix; j])]
    /\ (d1 <= d2)%Q.
Proof.
  intros Hnd Hix Hj Hd. revert n Hnd Hix.
  induction ixs as [|i ixs IH]; intros n Hnd Hix;
    [by apply elem_of_nil in Hix|].
  apply NoDup_cons in Hnd as [Hi Hnd]. cbn [reveal_timers].
  rewrite !aimed_app.
  assert (Hreal : forall d rd, aimed [ix; j] [(d, RevealReal [i; k] rd)] = []).
  { intros d rd. unfold aimed. cbn [List.filter snd task_target].
    rewrite bool_decide_eq_false_2; [done|]. intros [= -> ->]. lia. }
  rewrite Hreal. destruct (decide (i = ix)) as [->|Hne].
  - destruct (aimed_reveal_flashes [ix; j] clk (sweep_base options n)
                (default (16 # 1000) (fakeStagger options))
                (default (16 # 100) (fakeDuration options)) 0
                (cell_fakes k ix)) as (d1 & d2 & Heq & Hle).
    + apply cell_fakes_NoDup.
    + apply list_elem_of_fmap. exists j. split; [done|].
      apply elem_of_seq. lia.
    + done.
    + exists d1, d2. split; [|done].
      by rewrite Heq, aimed_reveal_none.
  - apply elem_of_cons in Hix as [->|Hix]; [done|].
    destruct (IH (S n) Hnd Hix) as (d1 & d2 & Heq & Hle).
    exists d1, d2. split; [|done]. rewrite Heq, aimed_reveal_flashes_none.
    + done.
    + intros (j' & [= -> _] & _)%list_elem_of_fmap. done.
Qed.

Lemma reveal_flashes_targets b s d fi ix x :
  x ∈ reveal_flashes clk b s d fi (cell_fakes k ix) ->
  cosmetic (snd x) = true /\ length (task_target (snd x)) = 2.
Proof.
  unfold cell_fakes. generalize (seq 0 k). intros js. revert fi.
  induction js as [|j js IH]; intros fi Hx; [by apply elem_of_nil in Hx|].
  cbn [map reveal_flashes] in Hx.
  apply elem_of_cons in Hx as [->|Hx]; [done|].
  apply elem_of_cons in Hx as [->|Hx]; [done|]. by apply (IH (S fi)).
Qed.

Lemma reveal_timers_targets n ixs x :
  x ∈ reveal_timers clk options k n ixs ->
  cosmetic (snd x) = true /\ length (task_target (snd x)) = 2.
Proof.
  revert n. induction ixs as [|i ixs IH]; intros n Hx;
    [by apply elem_of_nil in Hx|].
  cbn [reveal_timers] in Hx.
  apply elem_of_app in Hx as [Hx|Hx];
    [by apply reveal_flashes_targets in Hx|].
  apply elem_of_app in Hx as [Hx|Hx]; [|by apply (IH (S n))].
  apply list_elem_of_singleton in Hx as ->. done.
Qed.

Lemma reveal_timers_settled n ixs e cs ent d log t :
  settled (World e (reveal_timers clk options k n ixs) cs ent d log t) = true.
Proof.
  unfold settled. cbn [timers]. apply forallb_forall.
  intros x Hx%list_elem_of_In%reveal_timers_targets. destruct Hx as [Hc ->].
  cbn. by destruct (snd x).
Qed.

Lemma get_set_style_child prop v i p e :
  get (i :: p) (set_style prop v e) = get (i :: p) e.
Proof. by destruct e. Qed.

Lemma foldl_hide_other (cs : list nat) e q :
  length q = 2 -> q ∉ map (fun ix => [ix; k]) cs ->
  get q (foldl (fun e ix =>
                  modify (set_style "opacity" (Keyword "0")) [ix; k] e) e cs)
  = get q e.
Proof.
  intros Hq. revert e. induction cs as [|i cs IH]; intros e Hcs; [done|].
  cbn [map] in Hcs. apply not_elem_of_cons in Hcs as [Hne Hcs].
  cbn [foldl]. rewrite IH by done. apply get_modify_level; [by rewrite Hq|done].
Qed.

Lemma foldl_hide_real (cs : list nat) e ix :
  NoDup cs -> ix ∈ cs ->
  get [ix; k] (foldl (fun e ix =>
                        modify (set_style "opacity" (Keyword "0")) [ix; k] e)
                 e cs)
  = set_style "opacity" (Keyword "0") <$> get [ix; k] e.
Proof.
  intros Hnd. revert e. induction cs as [|i cs IH]; intros e Hix;
    [by apply elem_of_nil in Hix|].
  apply NoDup_cons in Hnd as [Hi Hnd]. cbn [foldl].
  destruct (decide (i = ix)) as [->|Hne].
  - rewrite foldl_hide_other; [apply get_modify_same|done|].
    intros (i' & [= ->] & Hi')%list_elem_of_fmap. done.
  - apply elem_of_cons in Hix as [->|Hix]; [done|].
    rewrite (IH Hnd _ Hix). f_equal. apply get_modify_level; [done|].
    congruence.
Qed.

Lemma get_hidden_real ixs e ix :
  NoDup ixs -> ix ∈ ixs ->
  get [ix; k] (hidden k ixs e)
  = set_style "opacity" (Keyword "0") <$> get [ix; k] e.
Proof.
  intros Hnd Hix. unfold hidden.
  by rewrite foldl_hide_real, get_set_style_child.
Qed.

Lemma get_hidden_fake ixs e ix j :
  j < k -> get [ix; j] (hidden k ixs e) = get [ix; j] e.
Proof.
  intros Hj. unfold hidden. rewrite foldl_hide_other, get_set_style_child;
    [done..|].
  intros (i' & [= -> ->] & _)%list_elem_of_fmap. lia.
Qed.

Lemma hidden_shown ixs e :
  get_style "opacity" (hidden k ixs e) = Some (Keyword "1").
Proof.
  unfold hidden, get_style.
  assert (H : forall cs e0,
             attrs_of (foldl (fun e ix =>
                                modify (set_style "opacity" (Keyword "0"))
                                  [ix; k] e) e0 cs) = attrs_of e0).
  { induction cs as [|i cs IH]; intros e0; [done|]. cbn [foldl].
    by rewrite IH, attrs_modify_cons. }
  rewrite H. destruct e as [a ks]. cbn. by rewrite lookup_insert_eq.
Qed.

End RevealOrder.

(** ** The application comes to rest on the page of the address *)

Example empty_table_shows_nothing :
  Nav.innerHTML (Nav.boot [] "/") = ""%string
  /\ Nav.listeners (Nav.boot [] "/") = []
  /\ Nav.currentPage (Nav.boot [] "/") = None.
Proof. done. Qed.

(** ** Every real span is handed to the transform once *)

Section Once.

Import Order.
Implicit Types (w : world).

Lemma flat_map_delete_perm {A B} (f : A -> list B) (l : list A) n x :
  l !! n = Some x -> f x ++ flat_map f (delete n l) ≡ₚ flat_map f l.
Proof.
  revert n. induction l as [|y l IH]; intros [|n] Hn; try done.
  - cbn in Hn. injection Hn as ->. done.
  - change (delete (S n) (y :: l)) with (y :: delete n l). cbn [flat_map].
    rewrite <- (IH n Hn). rewrite !app_assoc. f_equiv.
    apply Permutation_app_comm.
Qed.

Lemma task_calls_cancelled t w w' :
  cancelled w = cancelled w' -> task_calls t w = task_calls t w'.
Proof.
  intros Hc. destruct t as [fk|fk|r d|r c|s r tr]; try done.
  cbn. unfold is_cancelled. by rewrite Hc.
Qed.

Lemma fire_pending_calls n w :
  exists now, calls (fire n w) = calls w ++ now
              /\ now ++ pending_calls (fire n w) ≡ₚ pending_calls w.
Proof.
  destruct (timers w !! n) as [ [t0 t]|] eqn:Hn.
  - exists (task_calls t w). split; [by apply (fire_calls n w t0 t)|].
    unfold pending_calls. rewrite fire_timers.
    assert (Heq : flat_map (fun dt => task_calls (snd dt) (fire n w))
                    (delete n (timers w))
                  = flat_map (fun dt => task_calls (snd dt) w)
                      (delete n (timers w))).
    { apply flat_map_ext. intros x.
      apply task_calls_cancelled, fire_cancelled. }
    rewrite Heq.
    apply (flat_map_delete_perm (fun dt => task_calls (snd dt) w)
             (timers w) n (t0, t) Hn).
  - exists []. rewrite (fire_none n w Hn). by rewrite app_nil_r.
Qed.

Lemma fires_pending_calls order w :
  exists later, calls (fires order w) = calls w ++ later
                /\ later ++ pending_calls (fires order w) ≡ₚ pending_calls w.
Proof.
  revert w. induction order as [|n order IH]; intros w.
  - exists []. by rewrite app_nil_r.
  - rewrite fires_cons. destruct (fire_pending_calls n w) as (now & Hc & Hp).
    destruct (IH (fire n w)) as (later & Hc' & Hp').
    exists (now ++ later). rewrite Hc', Hc, <- !app_assoc. split; [done|].
    by rewrite Hp'.
Qed.

Lemma flash_no_calls clk b s d fi fakes w :
  flat_map (fun dt => task_calls (snd dt) w) (flash_timers clk b s d fi fakes)
  = [].
Proof.
  revert fi. induction fakes as [|f fakes IH]; intros fi; [done|].
  cbn [flash_timers flat_map snd task_calls app]. apply IH.
Qed.

Lemma session_pending_calls clk options newChars transform sid k n ixs w :
  is_cancelled sid w = false ->
  flat_map (fun dt => task_calls (snd dt) w)
    (session_timers clk options newChars transform sid k n ixs)
  = map (fun ix => Call sid [ix; k]) ixs.
Proof.
  intros Hc. revert n. induction ixs as [|ix ixs IH]; intros n; [done|].
  cbn [session_timers map]. rewrite flat_map_app, IH. unfold cell_timers.
  rewrite !flat_map_app, flash_no_calls.
  cbn [flat_map snd task_calls app]. by rewrite Hc.
Qed.

End Once.

(** ** How long the timers of a call are pending *)

(** ** Cancelling does not stop a sweep *)

Section CancelledRun.

Implicit Types (e : HTMLElement).
Variable k : nat.
Variable options : ScrambleOptions.
Variable newChars : option (list jsstring).
Variable transform : HTMLElement -> HTMLElement.
Variables (w w1 : world) (sid : nat).
Hypothesis Hprepared : prepared k (el w) = true.
Hypothesis Hquiet : timers w = [].
Hypothesis Hsweep : scrambleSweep options newChars transform w = (w1, sid).
Hypothesis Hgentle : gentle transform.

Lemma fires_only_session order w' :
  only_session k (cells k (el w)) newChars transform sid w' ->
  only_session k (cells k (el w)) newChars transform sid (fires order w').
Proof. intros H x Hx%fires_timers_subset. by apply H. Qed.

(** The characters once the real spans have gone all the way. *)
Lemma progress_chars_done w' :
  upkept k (cells k (el w)) w' ->
  (forall i ix, cells k (el w) !! i = Some ix ->
     text_progress newChars i [ix; k] w w') ->
  timers w' = [] ->
  scrambleGetChars w' = overwrite newChars (scrambleGetChars w).
Proof.
  intros [Hp Hc] Hprog Hdone.
  rewrite (prepared_chars k _ Hp), Hc, (prepared_chars k _ Hprepared).
  unfold overwrite. apply list_eq. intros i.
  rewrite list_lookup_fmap, list_lookup_imap, list_lookup_fmap.
  destruct (cells k (el w) !! i) as [ix|] eqn:Hix; [|done].
  cbn [fmap option_fmap option_map]. f_equal.
  specialize (Hprog i ix Hix). unfold text_progress in Hprog.
  destruct (new_char newChars i) as [c|] eqn:Hnew; cbn [default].
  - destruct Hprog as [->|[_ [t0 Hin] ] ]; [done|].
    rewrite Hdone in Hin. by apply elem_of_nil in Hin.
  - by rewrite Hprog.
Qed.

Lemma cancelled_chars_done before after :
  let w3 := fires after (cancel sid (fires before w1)) in
  timers w3 = [] ->
  upkept k (cells k (el w)) w3
  /\ scrambleGetChars w3 = overwrite newChars (scrambleGetChars w).
Proof.
  intros w3 Hdone.
  pose proof (quiet_only_session k options newChars transform w w1 sid
                Hprepared Hquiet Hsweep) as Honly.
  assert (Hset : settled w = true) by (unfold settled; by rewrite Hquiet).
  pose proof (session_settled k options newChars transform w w1 sid
                Hprepared Hset Hsweep) as Hset1.
  set (w2 := fires before w1) in *.
  assert (Honly2 : only_session k (cells k (el w)) newChars transform sid
                     (cancel sid w2)).
  { intros x Hx. by apply (fires_only_session before w1 Honly). }
  assert (Hset2 : settled (cancel sid w2) = true)
    by by apply cancel_settled, fires_settled.
  assert (Hup : upkept k (cells k (el w)) w3).
  { apply fires_upkept.
    - intros x Hx.
      apply (session_cell_task k _ newChars transform sid);
        [by apply gentle_keeps_spans|]. by apply Honly2.
    - apply (quiet_upkept k options newChars transform w w1 sid
               Hprepared Hquiet Hsweep Hgentle before). }
  split; [done|]. apply progress_chars_done; [done| |done].
  intros i ix Hix.
  assert (Hmem : ix ∈ cells k (el w)) by (apply list_elem_of_lookup; eauto).
  apply (fires_text_progress k newChars transform sid (cells k (el w))
           (cells_NoDup k (el w)) (gentle_text _ Hgentle) after w
           (cancel sid w2) i ix Honly2 Hset2 Hix).
  - change (el (cancel sid w2)) with (el w2).
    apply fires_keeps_spans; [done|done|].
    by apply (session_real_some k options newChars transform w w1 sid).
  - apply (quiet_text_progress k options newChars transform w w1 sid
             Hprepared Hquiet Hsweep (gentle_text _ Hgentle) before i).
    by rewrite (prepared_reals _ _ Hprepared), list_lookup_fmap, Hix.
Qed.

End CancelledRun.

(** * Further properties *)

(** X1: cancelling is per sweep call.  The function a sweep returns commutes
    with every timer except the restore timers of its own call; once set,
    the flag stays set whatever fires and whatever sweep is started later;
    and every sweep call starts with its own flag unset. *)
Theorem cancel_is_per_call sid w :
  (forall n,
      (forall t0 r tr, timers w !! n <> Some (t0, SweepRestore sid r tr)) ->
      fire n (cancel sid w) = cancel sid (fire n w))
  /\ (forall order,
        cancelled (fires order (cancel sid w)) = cancelled (cancel sid w))
  /\ forall options newChars transform,
       let next := scrambleSweep options newChars transform (cancel sid w) in
       is_cancelled (snd next) (fst next) = false
       /\ (sid < length (cancelled w) -> is_cancelled sid (fst next) = true).
Proof.
  split; [|split].
  - intros n. apply fire_cancel_commute.
  - intros order. apply fires_cancelled.
  - intros options newChars transform next.
    destruct (scrambleSweep_cancelled options newChars transform (cancel sid w))
      as [Hc Hs].
    fold next in Hc, Hs. unfold is_cancelled. rewrite Hc, Hs. split.
    + by rewrite lookup_app_r, Nat.sub_diag.
    + intros Hlt. unfold cancel. cbn.
      rewrite lookup_app_l by (by rewrite length_insert).
      by rewrite list_lookup_insert_eq.
Qed.

(** X2: a sweep is a round trip for the characters.  Started on a prepared
    element with no timer pending and with a transform that only styles, a
    sweep keeps the element prepared, with the same cells, whatever timers
    have fired; once all have fired, in any order, [scrambleGetChars] reads
    the new characters where there were some and the old ones elsewhere, so
    as many new characters as there are cells are read back as they were
    given. *)
Theorem sweep_round_trip k options newChars transform w :
  prepared k (el w) = true -> timers w = [] -> gentle transform ->
  let w1 := fst (scrambleSweep options newChars transform w) in
  (forall order,
      prepared k (el (fires order w1)) = true
      /\ cells k (el (fires order w1)) = cells k (el w))
  /\ (forall order,
        timers (fires order w1) = [] ->
        scrambleGetChars (fires order w1)
        = overwrite newChars (scrambleGetChars w))
  /\ scrambleGetChars (run_all w1) = overwrite newChars (scrambleGetChars w)
  /\ forall cs,
       newChars = Some cs -> length cs = length (scrambleGetChars w) ->
       scrambleGetChars (run_all w1) = cs.
Proof.
  intros Hp Hq Hg w1.
  destruct (scrambleSweep options newChars transform w) as [w1' sid] eqn:Hs.
  cbn [fst] in w1. subst w1.
  assert (Hall : scrambleGetChars (run_all w1')
                 = overwrite newChars (scrambleGetChars w)).
  { destruct (run_all_fires w1') as [order Ho].
    pose proof (run_all_done w1') as Hd. rewrite Ho in Hd |- *.
    by apply (quiet_chars_done k options newChars transform w w1' sid). }
  split; [|split; [|split] ].
  - intros order.
    apply (quiet_upkept k options newChars transform w w1' sid Hp Hq Hs Hg).
  - intros order.
    by apply (quiet_chars_done k options newChars transform w w1' sid).
  - exact Hall.
  - intros cs -> Hlen. rewrite Hall. by apply overwrite_full.
Qed.

Lemma sweep_round_trip_witness :
  scrambleGetChars (run_all (fst Sample.to_xy)) = [[88]; [89]]%N.
Proof.
  destruct (sweep_round_trip 2 no_options (Some [[88]; [89]]%N) Sample.blacken
              Sample.hi) as (_ & _ & _ & H).
  - by vm_compute.
  - by vm_compute.
  - apply gentle_set_style.
  - by apply H.
Defined.

(** X3: on an element with real spans the clock tick registers no timer
    exactly when the new characters are a prefix of the characters on
    display, and then it changes nothing at all; otherwise it sweeps with the
    new characters.  So a shorter text of the same beginning does not
    show. *)
Theorem clock_tick_idle_iff_prefix nextText w :
  querySelectorAll REAL (el w) <> [] ->
  (Chrome.next_chars nextText `prefix_of` scrambleGetChars w
   <-> timers (Chrome.clock_tick nextText w) = timers w)
  /\ (Chrome.next_chars nextText `prefix_of` scrambleGetChars w ->
      Chrome.clock_tick nextText w = w)
  /\ (~ Chrome.next_chars nextText `prefix_of` scrambleGetChars w ->
      Chrome.clock_tick nextText w
      = fst (scrambleSweep no_options (Some (Chrome.next_chars nextText))
               no_transform w)).
Proof.
  intros Hreals.
  assert (Hidle : Chrome.next_chars nextText `prefix_of` scrambleGetChars w ->
                  Chrome.clock_tick nextText w = w) by apply clock_tick_idle.
  assert (Hsweep : ~ Chrome.next_chars nextText `prefix_of` scrambleGetChars w ->
                   Chrome.clock_tick nextText w
                   = fst (scrambleSweep no_options
                            (Some (Chrome.next_chars nextText)) no_transform w)).
  { rewrite <- some_differs_prefix. unfold Chrome.clock_tick.
    by destruct (Chrome.some_differs _ _ _). }
  split; [|done]. split; [by intros ->%Hidle|].
  intros Htimers.
  destruct (decide (Chrome.next_chars nextText `prefix_of` scrambleGetChars w))
    as [|Hno]; [done|].
  rewrite (Hsweep Hno) in Htimers.
  pose proof (sweep_registers no_options (Some (Chrome.next_chars nextText))
                no_transform w Hreals) as Hlt.
  rewrite Htimers in Hlt. lia.
Qed.

(** X3 on "HI": the shorter text "H" does not show. *)
Lemma clock_tick_idle_iff_prefix_witness :
  querySelectorAll REAL (el Sample.hi) <> []
  /\ Chrome.clock_tick [72]%N Sample.hi = Sample.hi.
Proof.
  assert (Hreals : querySelectorAll REAL (el Sample.hi) <> [])
    by (vm_compute; discriminate).
  split; [exact Hreals|].
  destruct (clock_tick_idle_iff_prefix [72]%N Sample.hi Hreals) as (_ & H & _).
  apply H. vm_compute. by exists [[73]%N].
Defined.

(** X4: the clock settles.  On a prepared element with no timer pending,
    once the timers of a tick have fired the element is prepared and quiet
    again and shows the new characters over the old ones; with as many
    characters as cells it shows the new text; a second tick with the same
    text then does nothing, unless the text has more characters than there
    are cells, in which case every tick sweeps again. *)
Theorem clock_tick_settles k nextText w :
  prepared k (el w) = true -> timers w = [] ->
  let next := Chrome.next_chars nextText in
  let w' := run_all (Chrome.clock_tick nextText w) in
  timers w' = [] /\ prepared k (el w') = true
  /\ scrambleGetChars w'
     = take (length (scrambleGetChars w)) next
       ++ drop (length next) (scrambleGetChars w)
  /\ (length next = length (scrambleGetChars w) -> scrambleGetChars w' = next)
  /\ (length next <= length (scrambleGetChars w) ->
      Chrome.clock_tick nextText w' = w')
  /\ (length (scrambleGetChars w) < length next ->
      Chrome.clock_tick nextText w' <> w').
Proof.
  intros Hp Hq next w'.
  assert (Hw' : timers w' = [] /\ prepared k (el w') = true
                /\ scrambleGetChars w' = overwrite (Some next) (scrambleGetChars w)).
  { subst w'. unfold Chrome.clock_tick. fold next.
    destruct (Chrome.some_differs 0 next (scrambleGetChars w)) eqn:Hd.
    - split; [apply run_all_done|].
      destruct (scrambleSweep no_options (Some next) no_transform w)
        as [w1 sid] eqn:Hs. cbn [fst].
      destruct (run_all_fires w1) as [order Ho].
      pose proof (run_all_done w1) as Hdone. rewrite Ho in Hdone |- *. split.
      + apply (quiet_upkept k no_options (Some next) no_transform w w1 sid
                 Hp Hq Hs gentle_id).
      + by apply (quiet_chars_done k no_options (Some next) no_transform w w1
                    sid Hp Hq Hs gentle_id).
    - rewrite (run_all_quiet w Hq). do 2 (split; [done|]).
      symmetry. by apply overwrite_prefix, some_differs_prefix. }
  destruct Hw' as (Ht & Hp' & Hc). rewrite overwrite_some in Hc.
  do 3 (split; [done|]). split; [|split].
  - intros Hlen. rewrite Hc.
    rewrite (take_ge next) by lia. rewrite (drop_ge (scrambleGetChars w)) by lia.
    apply app_nil_r.
  - intros Hlen. apply clock_tick_idle. fold next. rewrite Hc.
    rewrite take_ge by done. by apply prefix_app_r.
  - intros Hlen Hidle. apply clock_tick_idle in Hidle. fold next in Hidle.
    apply prefix_length in Hidle. rewrite Hc in Hidle.
    rewrite length_app, length_take, length_drop in Hidle. lia.
Qed.

Lemma clock_tick_settles_witness :
  scrambleGetChars (run_all (Chrome.clock_tick [88; 32; 89]%N Sample.hi))
  = [[88]; [89]]%N.
Proof.
  destruct (clock_tick_settles 2 [88; 32; 89]%N Sample.hi)
    as (_ & _ & _ & H & _).
  - by vm_compute.
  - by vm_compute.
  - by apply H.
Defined.

(** X6: the clock does not sweep a text it has just prepared.  For a text
    without surrogate pairs whose only whitespace is the space, the
    characters [scrambleGetChars] reads from the prepared element are the
    characters the tick computes from the same text, and the tick leaves
    the element as it is. *)
Theorem clock_idle_after_prepare k a t ent :
  Forall (fun c => plain_unit c = true) t ->
  let w := scramblePrepare k (Sample.fresh (El a [inl t]) ent) in
  scrambleGetChars w = Chrome.next_chars t /\ Chrome.clock_tick t w = w.
Proof.
  intros Ht w.
  assert (Hchars : scrambleGetChars w = Chrome.next_chars t).
  { subst w.
    destruct (scramblePrepare_text_eq k a t (Sample.fresh (El a [inl t]) ent)
                eq_refl) as [d ->].
    change (split_node (inl t)) with (map split_char t).
    rewrite prepared_text_chars. symmetry.
    by apply next_chars_plain. }
  split; [done|]. apply clock_tick_idle. by rewrite Hchars.
Qed.

Lemma clock_idle_after_prepare_witness :
  Chrome.clock_tick [66; 32; 79]%N Sample.b_o = Sample.b_o.
Proof.
  destruct (clock_idle_after_prepare 2 (Attrs "span" "nav_location" false ∅)
              [66; 32; 79]%N Sample.mixed) as [_ H].
  - by repeat constructor.
  - exact H.
Defined.

(** X7: leaving a link resets its real spans for good.  Take a prepared
    link with no timer pending and let the pointer enter and leave and
    timers fire in between, in any way in which the pointer does not enter
    twice without leaving.  After a [mouseleave], whatever timers fire then,
    every real span has the colour [#8A8A8A], and the transform is not
    called again. *)
Theorem hover_leave_resets_reals k w evs order :
  prepared k (el w) = true -> timers w = [] ->
  Hover.no_reentry false evs = true ->
  let l := foldl Chrome.handle (Chrome.Link w None) evs in
  let l' := Chrome.elapse order (Chrome.mouseleave l) in
  (forall r, r ∈ querySelectorAll REAL (el (Chrome.page l')) ->
     style_at r "color" (Chrome.page l') = Some Hover.GREY)
  /\ calls (Chrome.page l') = calls (Chrome.page l).
Proof.
  intros Hp Hq Hev l l'.
  destruct (quiet_link_inv k (cells k (el w)) w Hp eq_refl Hq) as [Hinv0 Htame0].
  assert (Hinv : Hover.hover_inv k (cells k (el w)) l).
  { by apply (run_inv k _ evs _ false). }
  destruct (mouseleave_inv k _ l Hinv) as (Hinv1 & Htame1 & Hgrey & Hcalls & _).
  pose proof (elapse_inv k _ order _ Hinv1) as ([Hp' Hc'] & _).
  destruct Hinv1 as (_ & Htasks1 & _).
  destruct (fires_reals k _ _ order _ Hover.GREY Htasks1 Htame1 Hgrey)
    as [Hgrey' Hcalls'].
  subst l'. split.
  - intros r Hr. rewrite (prepared_reals _ _ Hp') in Hr.
    apply list_elem_of_fmap in Hr as (ix & -> & Hix).
    apply Hgrey'. by rewrite <- Hc'.
  - unfold Chrome.elapse. cbn [Chrome.page]. by rewrite Hcalls'.
Qed.

Lemma hover_leave_resets_reals_witness :
  style_at [1; 2] "color"
    (Chrome.page
       (foldl Chrome.handle (Chrome.Link Sample.hi None)
          [Chrome.Enter; Chrome.Wait [0; 0; 0; 0; 0; 0]; Chrome.Leave;
           Chrome.Wait [5; 4; 3; 2; 1; 0]]))
  = Some Hover.GREY.
Proof.
  destruct (hover_leave_resets_reals 2 Sample.hi
              [Chrome.Enter; Chrome.Wait [0; 0; 0; 0; 0; 0] ]
              [5; 4; 3; 2; 1; 0]) as [H _].
  - by vm_compute.
  - by vm_compute.
  - by vm_compute.
  - apply H. vm_compute. right. left.
Defined.

(** X8: the decoys stay black.  Once the pointer has entered a prepared link
    with no timer pending, every fake span has the colour [black] from then
    on: the sweep hands each fake to the transform in the call, and neither
    [mouseleave] nor any timer sets the colour of a fake back. *)
Theorem hover_fakes_stay_black k w evs :
  prepared k (el w) = true -> timers w = [] ->
  Hover.no_reentry true evs = true ->
  let l := foldl Chrome.handle (Chrome.mouseenter (Chrome.Link w None)) evs in
  forall f, f ∈ querySelectorAll FAKE (el (Chrome.page l)) ->
    style_at f "color" (Chrome.page l) = Some Hover.BLACK.
Proof.
  intros Hp Hq Hev l f Hf.
  destruct (quiet_link_inv k (cells k (el w)) w Hp eq_refl Hq) as [Hinv0 Htame0].
  pose proof (mouseenter_inv k _ _ Hinv0 Htame0) as Hinv1.
  pose proof (mouseenter_black k _ _ Hinv0) as Hblack1.
  assert (Hin : true = false -> Hover.tame
                  (Chrome.page (Chrome.mouseenter (Chrome.Link w None))))
    by done.
  pose proof (run_inv k _ evs _ true Hinv1 Hin Hev) as ([Hp' Hc'] & _).
  pose proof (run_black k _ evs _ true Hinv1 Hin Hev Hblack1) as Hblack.
  destruct (prepared_fakes k _ f Hp' Hf) as (ix & j & Hix & Hj & ->).
  apply Hblack; [|done]. by rewrite <- Hc'.
Qed.

Lemma hover_fakes_stay_black_witness :
  style_at [0; 1] "color"
    (Chrome.page
       (foldl Chrome.handle (Chrome.mouseenter (Chrome.Link Sample.hi None))
          [Chrome.Wait [1; 1]; Chrome.Leave; Chrome.Wait [0; 0; 0]]))
  = Some Hover.BLACK.
Proof.
  apply (hover_fakes_stay_black 2 Sample.hi
           [Chrome.Wait [1; 1]; Chrome.Leave; Chrome.Wait [0; 0; 0] ]).
  - by vm_compute.
  - by vm_compute.
  - by vm_compute.
  - vm_compute. right. left.
Defined.

(** X9: a sweep ends clean.  On a prepared element with no timer pending,
    with a fake stagger and a fake duration that are not negative and a
    transform that leaves the opacity alone, the event loop runs the hide
    timer of every real span before its restore timer and the show timer of
    every fake span before its hide timer; when it is done every real span
    has opacity 1 and every fake span has display none. *)
Theorem sweep_ends_clean k options newChars transform w :
  prepared k (el w) = true -> timers w = [] ->
  Order.keeps_style "opacity" transform ->
  (0 <= default (16 # 1000) (fakeStagger options))%Q ->
  (0 <= default (12 # 100) (fakeDuration options))%Q ->
  let w' := run_all (fst (scrambleSweep options newChars transform w)) in
  (forall r, r ∈ querySelectorAll REAL (el w) ->
     style_at r "opacity" w' = Some (Keyword "1"))
  /\ (forall f, f ∈ querySelectorAll FAKE (el w) ->
        style_at f "display" w' = Some (Keyword "none")).
Proof.
  intros Hp Hq Hkeep Hfs Hfd w'.
  destruct (scrambleSweep options newChars transform w) as [w1 sid] eqn:Hs.
  cbn [fst] in w'. subst w'.
  assert (Hset : settled w = true) by (unfold settled; by rewrite Hq).
  pose proof (session_settled k options newChars transform w w1 sid Hp Hset Hs)
    as Hset1.
  pose proof (session_timers_eq k options newChars transform w w1 sid Hp Hs)
    as Hts.
  rewrite Hq, app_nil_l in Hts.
  pose proof (session_el k options newChars transform w w1 sid Hp Hs)
    as Hel.
  pose proof (session_flag_before k options newChars transform w w1 sid
                Hp Hs []) as Hflag.
  cbn [fires foldl] in Hflag.
  split.
  - intros r Hr. rewrite (prepared_reals _ _ Hp) in Hr.
    apply list_elem_of_fmap in Hr as (ix & -> & Hix).
    pose proof Hix as [m Hm]%list_elem_of_lookup.
    destruct (aimed_session_real options newChars transform sid k (clock w)
                Hfs Hfd 0 _ m ix (cells_NoDup k (el w)) Hm)
      as (dh & dr & Heq & Hle).
    rewrite <- Hts in Heq. unfold style_at.
    rewrite (run_all_aimed w1 [ix; k] Hset1 eq_refl).
    + rewrite Heq, Hel, get_swept_real.
      destruct (cells_real_some k (el w) ix Hix) as [e ->]. cbn [fmap option_fmap option_map mbind option_bind].
      unfold Order.played. cbn [foldl snd task_effect]. rewrite Hflag.
      rewrite Hkeep. apply get_style_set_style.
    + rewrite Heq. cbn. split; [|done]. by repeat constructor.
  - intros f Hf.
    destruct (prepared_fakes k _ f Hp Hf) as (ix & j & Hix & Hj & ->).
    pose proof Hix as [m Hm]%list_elem_of_lookup.
    destruct (aimed_session_fake options newChars transform sid k (clock w)
                Hfd 0 _ ix j (cells_NoDup k (el w)) Hix Hj)
      as (d1 & d2 & Heq & Hle).
    rewrite <- Hts in Heq. unfold style_at.
    rewrite (run_all_aimed w1 [ix; j] Hset1 eq_refl).
    + rewrite Heq, Hel.
      rewrite (get_swept_fake transform (entropy w) k (draws w) _ (el w) m ix j
                 (cells_NoDup k (el w)) Hm Hj).
      destruct (cells_fake_some k (el w) ix j Hix Hj) as [e ->].
      cbn [fmap option_fmap option_map mbind option_bind].
      unfold Order.played. cbn [foldl snd task_effect].
      apply get_style_set_style.
    + rewrite Heq. cbn. split; [|done]. by repeat constructor.
Qed.

Lemma sweep_ends_clean_witness :
  style_at [1; 2] "opacity" (run_all (fst Sample.to_xy)) = Some (Keyword "1")
  /\ style_at [0; 1] "display" (run_all (fst Sample.to_xy))
     = Some (Keyword "none").
Proof.
  destruct (sweep_ends_clean 2 no_options (Some [[88]; [89]]%N) Sample.blacken
              Sample.hi) as [Hr Hf].
  - by vm_compute.
  - by vm_compute.
  - by apply keeps_style_set_style.
  - by vm_compute.
  - by vm_compute.
  - split.
    + apply Hr. vm_compute. right. left.
    + apply Hf. vm_compute. right. left.
Defined.

(** X10: what a reveal does to the styles.  On a prepared element with no
    timer pending, right after the call the element has opacity 1 and every
    real span opacity 0; when the event loop is done every real span has
    opacity 1 with the transition [opacity revealDuration ease] and, for a
    fake duration that is not negative, every fake span has display none. *)
Theorem reveal_ends_clean k options w :
  prepared k (el w) = true -> timers w = [] ->
  (0 <= default (16 # 100) (fakeDuration options))%Q ->
  let w0 := scrambleReveal options w in
  let w' := run_all w0 in
  get_style "opacity" (el w0) = Some (Keyword "1")
  /\ (forall r, r ∈ querySelectorAll REAL (el w) ->
        style_at r "opacity" w0 = Some (Keyword "0")
        /\ style_at r "opacity" w' = Some (Keyword "1")
        /\ style_at r "transition" w'
           = Some (OpacityEase (default (3 # 10) (revealDuration options))))
  /\ (forall f, f ∈ querySelectorAll FAKE (el w) ->
        style_at f "display" w' = Some (Keyword "none")).
Proof.
  intros Hp Hq Hfd w0 w'. subst w' w0.
  rewrite (scrambleReveal_prepared k options w Hp), Hq, app_nil_l.
  set (ixs := cells k (el w)).
  set (w0 := World _ _ _ _ _ _ _).
  assert (Hset : settled w0 = true) by apply reveal_timers_settled.
  assert (Hnd : NoDup ixs) by apply cells_NoDup.
  split; [apply hidden_shown|]. split.
  - intros r Hr. rewrite (prepared_reals _ _ Hp) in Hr.
    apply list_elem_of_fmap in Hr as (ix & -> & Hix).
    destruct (cells_real_some k (el w) ix Hix) as [e He].
    assert (Hget : get [ix; k] (el w0)
                   = Some (set_style "opacity" (Keyword "0") e)).
    { subst w0. cbn [el]. by rewrite get_hidden_real, He. }
    destruct (aimed_reveal_real k options (clock w) 0 ixs ix Hnd Hix)
      as [d Heq].
    assert (Hrun : get [ix; k] (el (run_all w0))
                   = Some (task_effect
                             (RevealReal [ix; k]
                                (default (3 # 10) (revealDuration options)))
                             w0 (set_style "opacity" (Keyword "0") e))).
    { rewrite (run_all_aimed w0 [ix; k] Hset eq_refl).
      - subst w0. cbn [timers]. rewrite Heq. cbn [el] in Hget |- *.
        by rewrite Hget.
      - subst w0. cbn [timers]. rewrite Heq. cbn. split; [constructor|done]. }
    unfold style_at. rewrite Hget, Hrun.
    cbn [mbind option_bind task_effect]. split; [apply get_style_set_style|].
    split; [apply get_style_set_style|].
    rewrite keeps_style_set_style by done. apply get_style_set_style.
  - intros f Hf.
    destruct (prepared_fakes k _ f Hp Hf) as (ix & j & Hix & Hj & ->).
    destruct (cells_fake_some k (el w) ix j Hix Hj) as [e He].
    destruct (aimed_reveal_fake k options (clock w) 0 ixs ix j Hnd Hix Hj Hfd)
      as (d1 & d2 & Heq & Hle).
    unfold style_at. rewrite (run_all_aimed w0 [ix; j] Hset eq_refl).
    + subst w0. cbn [timers el]. rewrite Heq, get_hidden_fake, He by done.
      cbn [fmap option_fmap option_map mbind option_bind].
      unfold Order.played. cbn [foldl snd task_effect].
      apply get_style_set_style.
    + subst w0. cbn [timers]. rewrite Heq. cbn. split; [|done].
      by repeat constructor.
Qed.

Lemma reveal_ends_clean_witness :
  style_at [1; 2] "opacity" (scrambleReveal no_options Sample.hi)
  = Some (Keyword "0")
  /\ style_at [1; 2] "opacity" (run_all (scrambleReveal no_options Sample.hi))
     = Some (Keyword "1").
Proof.
  destruct (reveal_ends_clean 2 no_options Sample.hi) as (_ & Hr & _).
  - by vm_compute.
  - by vm_compute.
  - by vm_compute.
  - destruct (Hr [1; 2]) as (H0 & H1 & _); [|by split].
    vm_compute. right. left.
Defined.

(** X11: the application comes to rest on the page of the address.  With a
    route table that is not empty and clicks on links whose [href] the
    browser keeps as the path of the new address, whatever clicks, history
    moves and transition ends there have been: when no [navigate] call is
    suspended the container has opacity 1 and holds the markup of the route
    of [location.pathname] (home for an unknown path), which is the current
    page.  And two transition ends in a row leave no call suspended, whatever
    the links are. *)
Theorem app_rests_on_address routes url p inputs :
  routes <> [] ->
  let st := Nav.run routes url p inputs in
  (Forall (Settle.stored_as_is url) inputs ->
   Nav.listeners st = [] ->
   exists r, Nav.route_for routes (Nav.pathname st) = Some r
             /\ Nav.innerHTML st = Nav.html r
             /\ Nav.currentPage st = Some (Nav.MkPage (Nav.html r))
             /\ Nav.opacity st = Some "1"%string)
  /\ Nav.listeners
       (Nav.run routes url p (inputs ++ [Nav.TransitionEnd; Nav.TransitionEnd]))
     = [].
Proof.
  intros Hroutes st.
  pose proof (run_shape routes url Hroutes p inputs) as Hs. fold st in Hs.
  split.
  - intros Hurl Hl. pose proof (run_aim routes url Hroutes p inputs Hurl) as Ha.
    fold st in Ha. unfold Settle.aim, Settle.target in Ha. rewrite Hl in Ha.
    destruct (route_for_some routes Hroutes (Nav.pathname st)) as [r Hr].
    rewrite Hr in Ha. exists r. destruct Ha as (? & ?).
    do 3 (split; [done|]). apply rest_opacity; [done|].
    intros call route. rewrite Hl. apply not_elem_of_nil.
  - unfold Nav.run. rewrite foldl_app. cbn [foldl Nav.step].
    apply transitionend_shows. by apply transitionend_shape.
Qed.

Lemma app_rests_on_address_witness :
  Nav.innerHTML
    (Nav.run (Nav.app_routes "H" "A" "W") Sample.as_is "/"
       [Nav.TransitionEnd; Nav.Click (Some (Some "/about"));
        Nav.Click (Some (Some "/work")); Nav.TransitionEnd;
        Nav.TransitionEnd])
  = "W"%string.
Proof.
  destruct (app_rests_on_address (Nav.app_routes "H" "A" "W") Sample.as_is "/"
              [Nav.TransitionEnd; Nav.Click (Some (Some "/about"));
               Nav.Click (Some (Some "/work")); Nav.TransitionEnd;
               Nav.TransitionEnd]) as [H _].
  - done.
  - destruct H as (r & Hr & Hin & _).
    + by repeat constructor.
    + by vm_compute.
    + rewrite Hin. vm_compute in Hr. by injection Hr as <-.
Defined.

(** X12: what the container holds in between.  With a route table that is
    not empty, at every moment the markup in the container is that of a
    route of the table; the container has opacity 0 while a [navigate] call
    waits for the old page to fade out, and opacity 1 while none does. *)
Theorem container_between_pages routes url p inputs :
  routes <> [] ->
  let st := Nav.run routes url p inputs in
  (exists r, r ∈ routes /\ Nav.innerHTML st = Nav.html r)
  /\ ((exists call route, Nav.AfterHide call route ∈ Nav.listeners st) ->
      Nav.opacity st = Some "0"%string)
  /\ ((forall call route, Nav.AfterHide call route ∉ Nav.listeners st) ->
      Nav.opacity st = Some "1"%string).
Proof.
  intros Hroutes st.
  pose proof (run_shape routes url Hroutes p inputs) as Hs.
  destruct (run_grounded routes url Hroutes p inputs) as (Hin & _ & Hop).
  split; [done|]. split; [done|]. by apply rest_opacity.
Qed.

Lemma container_between_pages_witness :
  Nav.opacity
    (Nav.run (Nav.app_routes "H" "A" "W") Sample.as_is "/"
       [Nav.TransitionEnd; Nav.Click (Some (Some "/about"))])
  = Some "0"%string.
Proof.
  destruct (container_between_pages (Nav.app_routes "H" "A" "W") Sample.as_is
              "/"
              [Nav.TransitionEnd; Nav.Click (Some (Some "/about"))])
    as (_ & H & _).
  - done.
  - apply H. eexists _, _. vm_compute. left.
Defined.

(** X13: an element that was never prepared is left alone.  When the
    element has no real span, [scrambleGetChars] reads nothing, a sweep only
    creates its flag (no text, style, timer or transform call), a reveal
    only sets the opacity of the element, and every clock tick with a text
    that has a character sweeps in vain. *)
Theorem unprepared_is_inert options newChars transform w :
  querySelectorAll REAL (el w) = [] ->
  scrambleGetChars w = []
  /\ scrambleSweep options newChars transform w
     = (with_cancelled (fun cs => cs ++ [false]) w, length (cancelled w))
  /\ scrambleReveal options w = with_el (set_style "opacity" (Keyword "1")) w
  /\ forall t, Chrome.next_chars t <> [] ->
       Chrome.clock_tick t w = with_cancelled (fun cs => cs ++ [false]) w.
Proof.
  intros Hnone.
  assert (Hchars : scrambleGetChars w = []).
  { unfold scrambleGetChars. change "scramble-real"%string with REAL.
    by rewrite Hnone. }
  assert (Hsweep : forall options newChars transform,
             scrambleSweep options newChars transform w
             = (with_cancelled (fun cs => cs ++ [false]) w,
                length (cancelled w))).
  { intros o n t. unfold scrambleSweep. cbn [with_cancelled el].
    change "scramble-real"%string with REAL. by rewrite Hnone. }
  split; [done|]. split; [apply Hsweep|]. split.
  - unfold scrambleReveal. cbn zeta. change "scramble-real"%string with REAL.
    by rewrite Hnone.
  - intros t Ht. unfold Chrome.clock_tick. rewrite Hchars, Hsweep.
    by destruct (Chrome.next_chars t).
Qed.

Lemma unprepared_is_inert_witness :
  scrambleReveal no_options (Sample.fresh (Sample.text_span [72; 73]%N) Sample.zeros)
  = with_el (set_style "opacity" (Keyword "1"))
      (Sample.fresh (Sample.text_span [72; 73]%N) Sample.zeros).
Proof.
  destruct (unprepared_is_inert no_options None no_transform
              (Sample.fresh (Sample.text_span [72; 73]%N) Sample.zeros))
    as (_ & _ & H & _).
  - by vm_compute.
  - exact H.
Defined.

(** X14: a sweep hands every real span to the transform exactly once.  On a
    prepared element with no timer pending, when all timers of a sweep have
    fired, in any order, the transform invocations made after the call are
    one for each real span and no other. *)
Theorem sweep_transforms_reals_once k options newChars transform w order :
  prepared k (el w) = true -> timers w = [] ->
  let w1 := fst (scrambleSweep options newChars transform w) in
  let sid := snd (scrambleSweep options newChars transform w) in
  timers (fires order w1) = [] ->
  exists later,
    calls (fires order w1) = calls w1 ++ later
    /\ later ≡ₚ map (Call sid) (querySelectorAll REAL (el w)).
Proof.
  intros Hp Hq w1 sid Hdone. subst w1 sid.
  destruct (scrambleSweep options newChars transform w) as [w1 sid] eqn:Hs.
  cbn [fst snd] in *.
  destruct (fires_pending_calls order w1) as (later & Hc & Hperm).
  exists later. split; [done|].
  unfold Order.pending_calls in Hperm. rewrite Hdone in Hperm.
  cbn [flat_map] in Hperm. rewrite app_nil_r in Hperm. rewrite Hperm.
  rewrite (session_timers_eq k options newChars transform w w1 sid Hp Hs).
  rewrite Hq, app_nil_l, session_pending_calls.
  - by rewrite (prepared_reals _ _ Hp), map_map.
  - apply (session_flag_before k options newChars transform w w1 sid Hp Hs []).
Qed.

Lemma sweep_transforms_reals_once_witness :
  exists later,
    calls (fires [0; 0; 0; 0; 0; 0; 0; 0; 0; 0; 0; 0] (fst Sample.hover))
    = calls (fst Sample.hover) ++ later
    /\ later ≡ₚ [Call 0 [0; 2]; Call 0 [1; 2]].
Proof.
  apply (sweep_transforms_reals_once 2 no_options None Sample.blacken Sample.hi
           [0; 0; 0; 0; 0; 0; 0; 0; 0; 0; 0; 0]).
  - by vm_compute.
  - by vm_compute.
  - by vm_compute.
Defined.

(** X17: cancelling a sweep does not stop its text.  The function a sweep
    returns only keeps the transform from the real spans: on a prepared
    element with no timer pending and with a transform that only styles,
    whenever the sweep is cancelled, once all timers have fired the element
    is prepared and [scrambleGetChars] reads the new characters over the old
    ones, as without the cancellation. *)
Theorem cancel_keeps_text_change k options newChars transform w before after :
  prepared k (el w) = true -> timers w = [] -> gentle transform ->
  let w1 := fst (scrambleSweep options newChars transform w) in
  let sid := snd (scrambleSweep options newChars transform w) in
  let w3 := fires after (cancel sid (fires before w1)) in
  timers w3 = [] ->
  prepared k (el w3) = true
  /\ scrambleGetChars w3 = overwrite newChars (scrambleGetChars w).
Proof.
  intros Hp Hq Hg w1 sid. subst w1 sid.
  destruct (scrambleSweep options newChars transform w) as [w1 sid] eqn:Hs.
  cbn [fst snd]. intros Hdone.
  destruct (cancelled_chars_done k options newChars transform w w1 sid
              Hp Hq Hs Hg before after Hdone) as [ [Hp3 _] Hchars].
  by split.
Qed.

Lemma cancel_keeps_text_change_witness :
  scrambleGetChars
    (fires [0; 0; 0; 0; 0; 0; 0; 0; 0; 0]
       (cancel 0 (fires [0; 0] (fst Sample.to_xy))))
  = [[88]; [89]]%N.
Proof.
  destruct (cancel_keeps_text_change 2 no_options (Some [[88]; [89]]%N)
              Sample.blacken Sample.hi [0; 0] [0; 0; 0; 0; 0; 0; 0; 0; 0; 0])
    as [_ H].
  - by vm_compute.
  - by vm_compute.
  - apply gentle_set_style.
  - by vm_compute.
  - exact H.
Defined.
